(** * WhatsApp chat analyzer: the transcript preprocessor

    A shallow embedding of [models/preprocessor.py] (function [preprocess])
    and the properties of its stages: format detection, message splitting,
    date parsing, sender/body extraction, feature derivation, validation.

    Python [str] values are sequences of Unicode code points; the patterns of
    the source are given as syntax trees run by a backtracking matcher with
    the priorities of Python's [re] (leftmost match, greedy and lazy
    repetition, ordered alternation, capturing groups). *)

From Stdlib Require Import String Ascii NArith ZArith Arith Lia Bool List.
Import ListNotations.
Local Open Scope list_scope.

Set Implicit Arguments.

(* ===================================================================== *)
(** ** Text *)
(* ===================================================================== *)

Module Text.

(** A character is a code point, a Python [str] a list of them. *)
Definition char := N.
Definition str := list char.

(** An ASCII literal of the source as a [str]. *)
Definition u (s : string) : str :=
  List.map N_of_ascii (list_ascii_of_string s).

Definition chr (a : ascii) : char := N_of_ascii a.

Definition NL : char := 10%N.

Fixpoint str_eqb (a b : str) : bool :=
  match a, b with
  | [], [] => true
  | x :: a', y :: b' => N.eqb x y && str_eqb a' b'
  | _, _ => false
  end.

(** [c in ranges], for tables of inclusive code point ranges. *)
Fixpoint in_ranges (t : list (N * N)) (c : char) : bool :=
  match t with
  | [] => false
  | (lo, hi) :: t' => (N.leb lo c && N.leb c hi) || in_ranges t' c
  end.

(** [str.isspace] for one character, which is also [\s] of [re] on [str]
    patterns: Unicode white space and the separators 0x1c-0x1f. *)
Definition whitespace_table : list (N * N) :=
  [ (9, 13); (28, 32); (133, 133); (160, 160); (5760, 5760); (8192, 8202);
    (8232, 8233); (8239, 8239); (8287, 8287); (12288, 12288) ]%N.

Definition is_space (c : char) : bool := in_ranges whitespace_table c.

(** [\d] of [re] on [str] patterns: Unicode category Nd (Unicode 14, the
    tables of CPython 3.11). *)
Definition decimal_table : list (N * N) :=
  [ (48, 57); (1632, 1641); (1776, 1785); (1984, 1993); (2406, 2415);
    (2534, 2543); (2662, 2671); (2790, 2799); (2918, 2927); (3046, 3055);
    (3174, 3183); (3302, 3311); (3430, 3439); (3558, 3567); (3664, 3673);
    (3792, 3801); (3872, 3881); (4160, 4169); (4240, 4249); (6112, 6121);
    (6160, 6169); (6470, 6479); (6608, 6617); (6784, 6793); (6800, 6809);
    (6992, 7001); (7088, 7097); (7232, 7241); (7248, 7257); (42528, 42537);
    (43216, 43225); (43264, 43273); (43472, 43481); (43504, 43513);
    (43600, 43609); (44016, 44025); (65296, 65305); (66720, 66729);
    (68912, 68921); (69734, 69743); (69872, 69881); (69942, 69951);
    (70096, 70105); (70384, 70393); (70736, 70745); (70864, 70873);
    (71248, 71257); (71360, 71369); (71472, 71481); (71904, 71913);
    (72016, 72025); (72784, 72793); (73040, 73049); (73120, 73129);
    (92768, 92777); (92864, 92873); (93008, 93017); (120782, 120831);
    (123200, 123209); (123632, 123641); (125264, 125273);
    (130032, 130041) ]%N.

Definition is_digit (c : char) : bool := in_ranges decimal_table c.

(** [text[a:b]] for [0 <= a], [0 <= b]. *)
Definition slice (text : str) (a b : nat) : str :=
  firstn (b - a) (skipn a text).

(** [s.split(sep)] for a separator of one character: always at least one
    piece. *)
Fixpoint split_char (sep : char) (s : str) : list str :=
  match s with
  | [] => [[]]
  | c :: s' =>
      if N.eqb c sep then [] :: split_char sep s'
      else match split_char sep s' with
           | w :: ws => (c :: w) :: ws
           | [] => [[c]]
           end
  end.

(** [sep.join(l)]. *)
Fixpoint join (sep : str) (l : list str) : str :=
  match l with
  | [] => []
  | x :: l' =>
      match l' with
      | [] => x
      | _ :: _ => x ++ sep ++ join sep l'
      end
  end.

(** [s.startswith(p)], returning what follows the prefix. *)
Fixpoint strip_prefix (p s : str) : option str :=
  match p, s with
  | [], _ => Some s
  | x :: p', y :: s' => if N.eqb x y then strip_prefix p' s' else None
  | _ :: _, [] => None
  end.

(** [s.split(sep, 1)]: cut at the first occurrence of [sep], if any. *)
Fixpoint split_once (sep : str) (s : str) : list str :=
  match strip_prefix sep s with
  | Some rest => [[]; rest]
  | None =>
      match s with
      | [] => [[]]
      | c :: s' =>
          match split_once sep s' with
          | [a; b] => [c :: a; b]
          | _ => [s]
          end
      end
  end.

Fixpoint lstrip (s : str) : str :=
  match s with
  | c :: s' => if is_space c then lstrip s' else s
  | [] => []
  end.

(** [s.strip()]. *)
Definition strip (s : str) : str := rev (lstrip (rev (lstrip s))).

(** [str(n)] for an [int]. *)
Fixpoint digits_of (fuel : nat) (n : N) (acc : str) : str :=
  match fuel with
  | O => acc
  | S f =>
      let acc' := (48 + N.modulo n 10)%N :: acc in
      if N.ltb n 10 then acc' else digits_of f (N.div n 10) acc'
  end.

Definition str_of_N (n : N) : str := digits_of (S (N.to_nat (N.log2 n))) n [].

Definition str_of_int (z : Z) : str :=
  match z with
  | Z0 => u "0"
  | Zpos p => str_of_N (Npos p)
  | Zneg p => u "-" ++ str_of_N (Npos p)
  end.

End Text.
Import Text.

(* ===================================================================== *)
(** ** The matcher *)
(* ===================================================================== *)

Module Re.

(** The fragment of the pattern language the program uses. [Rep] covers
    [{m,n}], [{n}], [?], [*], [+] and the lazy [+?]; [Grp n] is the
    capturing group number [n]; a non-capturing group is its body. *)
Inductive regex : Type :=
| Chr (p : char -> bool)
| Bol
| Eps
| Seq (r1 r2 : regex)
| Alt (r1 r2 : regex)
| Rep (greedy : bool) (lo : nat) (hi : option nat) (r : regex)
| Grp (n : nat) (r : regex).

(** The groups set so far, latest first. *)
Definition caps := list (nat * str).

Fixpoint group (c : caps) (n : nat) : option str :=
  match c with
  | [] => None
  | (m, t) :: c' => if Nat.eqb m n then Some t else group c' n
  end.

Notation "a <|> b" :=
  (match a with Some x => Some x | None => b end)
  (at level 60, right associativity, only parsing).

Section Exec.
Context {A : Type}.

(** What remains to be matched after a sub-pattern: position, remaining
    text, groups. *)
Definition kont := nat -> str -> caps -> option A.

(** Repetition: [n] bounds the iterations still allowed, [lo] counts the
    ones still required. A greedy loop tries one more iteration before
    leaving, a lazy one leaves first. *)
Fixpoint rep_loop (step : nat -> str -> caps -> kont -> option A)
         (greedy : bool) (n lo : nat)
         (i : nat) (s : str) (c : caps) (k : kont) : option A :=
  match n with
  | O => match lo with O => k i s c | S _ => None end
  | S n' =>
      match lo with
      | S lo' =>
          step i s c (fun i' s' c' => rep_loop step greedy n' lo' i' s' c' k)
      | O =>
          if greedy then
            step i s c (fun i' s' c' => rep_loop step greedy n' 0 i' s' c' k)
            <|> k i s c
          else
            k i s c
            <|> step i s c (fun i' s' c' => rep_loop step greedy n' 0 i' s' c' k)
      end
  end.

(** The iterations an open repetition may make on [s]: every repeated
    pattern of the program takes a character or more per iteration, so the
    length of the text is a bound no run reaches (see [rep_bound_adequate]). *)
Definition bound (hi : option nat) (s : str) : nat :=
  match hi with
  | Some h => h
  | None => length s
  end.

Fixpoint exec (r : regex) (i : nat) (s : str) (c : caps) (k : kont)
  : option A :=
  match r with
  | Chr p =>
      match s with
      | x :: s' => if p x then k (S i) s' c else None
      | [] => None
      end
  | Bol => match i with O => k i s c | S _ => None end
  | Eps => k i s c
  | Seq r1 r2 => exec r1 i s c (fun i' s' c' => exec r2 i' s' c' k)
  | Alt r1 r2 => exec r1 i s c k <|> exec r2 i s c k
  | Rep g lo hi r1 => rep_loop (exec r1) g (bound hi s) lo i s c k
  | Grp n r1 =>
      exec r1 i s c
           (fun i' s' c' => k i' s' ((n, firstn (i' - i) s) :: c'))
  end.
End Exec.

(** A match object: span and groups. *)
Record rmatch := Match { m_start : nat; m_end : nat; m_caps : caps }.

(** [pattern.match] at position [i], where [s] is the text from [i] on. *)
Definition match_at (r : regex) (i : nat) (s : str) : option rmatch :=
  exec r i s [] (fun j _ c => Some (Match i j c)).

(** [pattern.search] from position [i]: the leftmost start that matches. *)
Fixpoint search_from (r : regex) (i : nat) (s : str) : option rmatch :=
  match_at r i s <|>
  match s with
  | [] => None
  | _ :: s' => search_from r (S i) s'
  end.

(** [re.search(pattern, text)]. *)
Definition search (r : regex) (text : str) : option rmatch :=
  search_from r 0 text.

(** [re.finditer]: successive non-overlapping matches, each search starting
    where the previous match ended. The patterns of the program match at
    least one character, so the matches are fewer than the fuel (see
    [finditer_fuel_adequate]); after an empty match the scan moves on by
    one. *)
Fixpoint finditer_from (fuel : nat) (r : regex) (i : nat) (s : str)
  : list rmatch :=
  match fuel with
  | O => []
  | S f =>
      match search_from r i s with
      | None => []
      | Some m =>
          let j := if Nat.ltb (m_start m) (m_end m) then m_end m
                   else S (m_end m) in
          m :: finditer_from f r j (skipn (j - i) s)
      end
  end.

Definition finditer (r : regex) (text : str) : list rmatch :=
  finditer_from (S (length text)) r 0 text.

(** [re.findall(pattern, text)] for a pattern without capturing groups:
    the matched texts. *)
Definition findall (r : regex) (text : str) : list str :=
  map (fun m => slice text (m_start m) (m_end m)) (finditer r text).

(** The text of group [n]. A group that took no part in a match is [None]
    in Python; the two grouped patterns of the program have their group on
    every path (see [exec_sets_group]), and [[]] stands for the case that
    does not arise. *)
Definition group_text (c : caps) (n : nat) : str :=
  match group c n with
  | Some t => t
  | None => []
  end.

(** The pieces of [re.split]: the text between matches, each match
    contributing its groups [1..g] between two pieces. *)
Fixpoint split_pieces (g : nat) (text : str) (pos : nat) (ms : list rmatch)
  : list str :=
  match ms with
  | [] => [slice text pos (length text)]
  | m :: ms' =>
      slice text pos (m_start m)
        :: map (group_text (m_caps m)) (seq 1 g)
        ++ split_pieces g text (m_end m) ms'
  end.

(** [re.split(pattern, text)] for a pattern with [g] capturing groups. *)
Definition split (g : nat) (r : regex) (text : str) : list str :=
  split_pieces g text 0 (finditer r text).

Fixpoint sub_pieces (repl text : str) (pos : nat) (ms : list rmatch) : str :=
  match ms with
  | [] => slice text pos (length text)
  | m :: ms' =>
      slice text pos (m_start m) ++ repl ++ sub_pieces repl text (m_end m) ms'
  end.

(** [re.sub(pattern, repl, text)] for a replacement without group
    references. *)
Definition sub (r : regex) (repl text : str) : str :=
  sub_pieces repl text 0 (finditer r text).

(** *** Pattern syntax *)

Definition lit (a : ascii) : regex := Chr (N.eqb (chr a)).
Definition digit : regex := Chr is_digit.          (* \d *)
Definition space : regex := Chr is_space.          (* \s *)
Definition any : regex := Chr (fun _ => true).     (* [\w\W] *)
Definition oneof (cs : list char) : regex :=       (* [...] *)
  Chr (fun c => existsb (N.eqb c) cs).
Definition noneof (cs : list char) : regex :=      (* [^...] *)
  Chr (fun c => negb (existsb (N.eqb c) cs)).

Fixpoint cat (rs : list regex) : regex :=
  match rs with
  | [] => Eps
  | r :: rs' => match rs' with [] => r | _ :: _ => Seq r (cat rs') end
  end.

Definition lits (s : string) : regex :=
  cat (map lit (list_ascii_of_string s)).

Definition rep (lo hi : nat) (r : regex) := Rep true lo (Some hi) r. (* {lo,hi} *)
Definition opt (r : regex) := Rep true 0 (Some 1) r.                 (* ? *)
Definition star (r : regex) := Rep true 0 None r.                    (* * *)
Definition plus (r : regex) := Rep true 1 None r.                    (* + *)
Definition lazy_plus (r : regex) := Rep false 1 None r.              (* +? *)

End Re.
Import Re.

(* ===================================================================== *)
(** ** Effects: the messages shown to the user, early return, exceptions *)
(* ===================================================================== *)

(** A call of [st.warning], [st.success] or [st.error]. *)
Inductive st_event : Type :=
| st_warning (msg : string)
| st_success (msg : string)
| st_error (msg : string).

(** An instance of [Exception]; [exn_str e] is [str(e)]. *)
Record exn := Exception { exn_class : string; exn_str : string }.

(** A timestamp ([pd.Timestamp]). *)
Record datetime := DateTime {
  dt_year : Z; dt_month : Z; dt_day : Z;
  dt_hour : Z; dt_minute : Z; dt_second : Z }.

(** The columns of the returned [DataFrame], in the order the function
    creates them. [None] in [date] is [NaT]; the fields derived from a [NaT]
    are [NaN]. *)
Record row := Row {
  date : option datetime;
  user : str;
  message : str;
  only_date : option (Z * Z * Z);
  year : option Z;
  month_num : option Z;
  month : option str;
  day : option Z;
  day_name : option str;
  hour : option Z;
  minute : option Z;
  am_pm : option str;
  period : str }.

Definition dataframe := list row.

(** How a block of statements ends: it falls through with a value, executes
    [return v], or raises. *)
Inductive outcome (A : Type) : Type :=
| Normal (a : A)
| Return (v : option dataframe)
| Raise (e : exn).
Arguments Normal {A} a.
Arguments Return {A} v.
Arguments Raise {A} e.

(** A block of statements: from the messages shown so far to an outcome and
    the messages shown then. *)
Definition M (A : Type) : Type := list st_event -> outcome A * list st_event.

Definition ret {A} (a : A) : M A := fun log => (Normal a, log).

Definition bind {A B} (m : M A) (f : A -> M B) : M B :=
  fun log =>
    match m log with
    | (Normal a, log') => f a log'
    | (Return v, log') => (Return v, log')
    | (Raise e, log') => (Raise e, log')
    end.

Definition show (e : st_event) : M unit := fun log => (Normal tt, log ++ [e]).
Definition return_ {A} (v : option dataframe) : M A := fun log => (Return v, log).
Definition raise {A} (e : exn) : M A := fun log => (Raise e, log).

Notation "x <- m ;; k" := (bind m (fun x => k))
  (at level 61, m at next level, right associativity).
Notation "m ;;; k" := (bind m (fun _ => k))
  (at level 61, right associativity).

(** How a call of a function ends for its caller. *)
Inductive completion : Type :=
| Returns (v : option dataframe)
| Propagates (e : exn).

(* ===================================================================== *)
(** ** The library the function runs on *)
(* ===================================================================== *)

(** What [preprocess] takes from pandas and from [traceback]; the properties
    below hold for every such library. *)
Record runtime := Runtime {
  (** one fragment read under a [format=] template by [pd.to_datetime];
      [None] where it raises *)
  strptime : string -> str -> option datetime;
  (** [pd.to_datetime(col, infer_datetime_format=True, errors='coerce')]: it
      raises, or reads each fragment of the column ([None] is [NaT]; how a
      fragment is read may depend on the column, whose format is guessed) *)
  to_datetime_coerce : list str -> exn + (str -> option datetime);
  (** [traceback.format_exc()] while the exception is handled *)
  format_exc : exn -> string }.

(* ===================================================================== *)
(** ** SECTION 2 of the source: format detection *)
(* ===================================================================== *)

Definition slash := lit "/".
Definition comma := lit ",".
Definition colon := lit ":".
Definition dash := lit "-".
Definition AM_or_PM := Alt (lits "AM") (lits "PM").          (* (?:AM|PM) *)

(** [\d{1,2}/\d{1,2}/\d{2,4},\s\d{1,2}:\d{2}\s(?:AM|PM)\s-\s] *)
Definition pattern_12h_1 : regex :=
  cat [rep 1 2 digit; slash; rep 1 2 digit; slash; rep 2 4 digit; comma; space;
       rep 1 2 digit; colon; rep 2 2 digit; space; AM_or_PM; space; dash; space].

(** [\d{1,2}/\d{1,2}/\d{2,4}\s\d{1,2}:\d{2}\s(?:AM|PM)\s-\s] *)
Definition pattern_12h_2 : regex :=
  cat [rep 1 2 digit; slash; rep 1 2 digit; slash; rep 2 4 digit; space;
       rep 1 2 digit; colon; rep 2 2 digit; space; AM_or_PM; space; dash; space].

(** [\d{1,2}/\d{1,2}/\d{2,4},\s\d{1,2}:\d{2}\s-\s] *)
Definition pattern_24h_1 : regex :=
  cat [rep 1 2 digit; slash; rep 1 2 digit; slash; rep 2 4 digit; comma; space;
       rep 1 2 digit; colon; rep 2 2 digit; space; dash; space].

(** [\d{1,2}/\d{1,2}/\d{2,4}\s\d{1,2}:\d{2}\s-\s] *)
Definition pattern_24h_2 : regex :=
  cat [rep 1 2 digit; slash; rep 1 2 digit; slash; rep 2 4 digit; space;
       rep 1 2 digit; colon; rep 2 2 digit; space; dash; space].

(** [\[\d{1,2}/\d{1,2}/\d{2,4},\s\d{1,2}:\d{2}:\d{2}\]\s] *)
Definition pattern_24h_3 : regex :=
  cat [lit "["; rep 1 2 digit; slash; rep 1 2 digit; slash; rep 2 4 digit;
       comma; space; rep 1 2 digit; colon; rep 2 2 digit; colon; rep 2 2 digit;
       lit "]"; space].

(** [\d{1,2}/\d{1,2}/\d{4},\s\d{1,2}:\d{2}\s-\s] *)
Definition pattern_24h_4 : regex :=
  cat [rep 1 2 digit; slash; rep 1 2 digit; slash; rep 4 4 digit; comma; space;
       rep 1 2 digit; colon; rep 2 2 digit; space; dash; space].

(** [\d{4}-\d{2}-\d{2}\s\d{1,2}:\d{2}:\d{2}\s-\s] *)
Definition pattern_iso : regex :=
  cat [rep 4 4 digit; dash; rep 2 2 digit; dash; rep 2 2 digit; space;
       rep 1 2 digit; colon; rep 2 2 digit; colon; rep 2 2 digit;
       space; dash; space].

(** [\d{1,2}\.\d{1,2}\.\d{2,4},\s\d{1,2}:\d{2}\s-\s] *)
Definition pattern_euro : regex :=
  cat [rep 1 2 digit; lit "."; rep 1 2 digit; lit "."; rep 2 4 digit; comma;
       space; rep 1 2 digit; colon; rep 2 2 digit; space; dash; space].

(** An entry of [date_patterns]: pattern, date template, name. *)
Record grammar := Grammar {
  g_pattern : regex;
  g_format : string;
  g_name : string }.

Definition date_patterns : list grammar :=
  [ Grammar pattern_12h_1 "%m/%d/%y, %I:%M %p - " "US 12h comma";
    Grammar pattern_12h_1 "%d/%m/%y, %I:%M %p - " "UK 12h comma";
    Grammar pattern_12h_2 "%m/%d/%y %I:%M %p - " "US 12h no comma";
    Grammar pattern_12h_2 "%d/%m/%y %I:%M %p - " "UK 12h no comma";
    Grammar pattern_24h_1 "%m/%d/%y, %H:%M - " "US 24h comma";
    Grammar pattern_24h_1 "%d/%m/%y, %H:%M - " "UK 24h comma";
    Grammar pattern_24h_1 "%d/%m/%Y, %H:%M - " "UK 24h comma full year";
    Grammar pattern_24h_2 "%m/%d/%y %H:%M - " "US 24h no comma";
    Grammar pattern_24h_2 "%d/%m/%y %H:%M - " "UK 24h no comma";
    Grammar pattern_24h_3 "[%m/%d/%y, %H:%M:%S] " "Bracketed with seconds";
    Grammar pattern_24h_4 "%d/%m/%Y, %H:%M - " "DD/MM/YYYY format";
    Grammar pattern_iso "%Y-%m-%d %H:%M:%S - " "ISO format";
    Grammar pattern_euro "%d.%m.%y, %H:%M - " "European format" ].

(** ["\n".join(data.split("\n")[:10])] *)
Definition sample_data (data : str) : str :=
  join [NL] (firstn 10 (split_char NL data)).

(** The [for ... if re.search(...): ...; break] loop over the catalog; [None]
    when it ends without a hit ([detected_pattern is None]). *)
Fixpoint first_match (catalog : list grammar) (sample : str) : option grammar :=
  match catalog with
  | [] => None
  | g :: rest =>
      match search (g_pattern g) sample with
      | Some _ => Some g
      | None => first_match rest sample
      end
  end.

Definition unrecognized_warning : string :=
"
            Chat format not automatically recognized. Attempting to process with generic pattern.
            If analysis fails, please ensure your chat export is in a standard WhatsApp format.
            ".

(** The grammar taken when nothing was detected. *)
Definition generic_fallback : grammar :=
  Grammar pattern_12h_1 "%m/%d/%y, %I:%M %p - " "Generic fallback".

Definition uploaded : string := "Chat uploaded successfully!".

Definition detect_format (data : str) : M grammar :=
  match first_match date_patterns (sample_data data) with
  | None =>
      show (st_warning unrecognized_warning) ;;;
      ret generic_fallback
  | Some g =>
      show (st_success uploaded) ;;;
      ret g
  end.

(* ===================================================================== *)
(** ** SECTION 3: message extraction *)
(* ===================================================================== *)

(** [[\[\(]?(?:\d{1,4}[\/\.-]){2}\d{1,4}(?:[,\s])+\d{1,2}:\d{1,2}(?::\d{1,2})?(?:\s*[aApP][mM])?[\]\)]?\s*[^\n]+] *)
Definition generic_pattern : regex :=
  cat [opt (oneof (u "[("));
       rep 2 2 (Seq (rep 1 4 digit) (oneof (u "/.-")));
       rep 1 4 digit;
       plus (Chr (fun c => N.eqb c (chr ",") || is_space c));
       rep 1 2 digit; colon; rep 1 2 digit;
       opt (Seq colon (rep 1 2 digit));
       opt (cat [star space; oneof (u "aApP"); oneof (u "mM")]);
       opt (oneof (u "])"));
       star space;
       plus (noneof [NL])].

Definition is_empty {A} (l : list A) : bool :=
  match l with [] => true | _ :: _ => false end.

(** The loop over [message_blocks]: a block with a [' - '] gives a date (the
    part before, with the [' - '] put back) and a message (the part after);
    a block without one gives nothing. *)
Fixpoint split_blocks (message_blocks : list str) : list str * list str :=
  match message_blocks with
  | [] => ([], [])
  | block :: rest =>
      let (dates, messages) := split_blocks rest in
      match split_once (u " - ") block with
      | [p0; p1] => ((p0 ++ u " - ") :: dates, p1 :: messages)
      | _ => (dates, messages)
      end
  end.

Definition no_messages : string :=
  "No messages could be extracted. The chat format may not be supported.".

(** Returns [(messages, dates)]. *)
Definition extract_messages (detected_pattern : regex) (data : str)
  : M (list str * list str) :=
  let messages := tl (split 0 detected_pattern data) in
  let dates := findall detected_pattern data in
  if is_empty messages || is_empty dates then
    show (st_error no_messages) ;;;
    let message_blocks := findall generic_pattern data in
    if is_empty message_blocks then return_ None
    else
      let (dates, messages) := split_blocks message_blocks in
      ret (messages, dates)
  else ret (messages, dates).

(* ===================================================================== *)
(** ** SECTION 4: the initial frame *)
(* ===================================================================== *)

(** A row of the frame while dates are parsed. *)
Record raw_row := RawRow {
  user_message : str;
  message_date : str;
  raw_date : option datetime }.

(** [pd.DataFrame({'user_message': messages, 'message_date': dates})], which
    raises when the two columns differ in length. *)
Definition DataFrame (messages dates : list str) : M (list (str * str)) :=
  if Nat.eqb (length messages) (length dates) then ret (combine messages dates)
  else raise (Exception "ValueError" "All arrays must be of the same length").

(* ===================================================================== *)
(** ** SECTION 5: date parsing *)
(* ===================================================================== *)

Section Preprocess.

Variable rt : runtime.

(** [pd.to_datetime(col, format=date_format)]: every fragment is read, or
    the call raises ([None]); an empty column is read as an empty column. The
    fragments are never a spelling of null ("", "NaT", "nan"): each holds the
    digits and the separator of a date pattern. *)
Fixpoint to_datetime (date_format : string) (col : list str)
  : option (list datetime) :=
  match col with
  | [] => Some []
  | x :: col' =>
      match strptime rt date_format x with
      | None => None
      | Some d =>
          match to_datetime date_format col' with
          | None => None
          | Some ds => Some (d :: ds)
          end
      end
  end.

(** The loop [for ... in date_patterns: try: ...; break  except: continue];
    [None] when it ends with [successful_parse] still [False]. *)
Fixpoint try_formats (catalog : list grammar) (col : list str)
  : option (list datetime) :=
  match catalog with
  | [] => None
  | g :: rest =>
      match to_datetime (g_format g) col with
      | Some ds => Some ds
      | None => try_formats rest col
      end
  end.

Definition set_date (r : str * str) (d : option datetime) : raw_row :=
  RawRow (fst r) (snd r) d.

(** [df.dropna(subset=['date'])] *)
Definition dropna_date (df : list raw_row) : list raw_row :=
  filter (fun r => match raw_date r with Some _ => true | None => false end) df.

Definition parse_failed : string :=
  "Failed to parse message dates. Chat format may not be supported.".

Definition parse_dates (df : list (str * str)) : M (list raw_row) :=
  let col := map snd df in
  r <- match try_formats date_patterns col with
       | Some ds =>
           (* successful_parse = True *)
           ret (map (fun p => set_date (fst p) (Some (snd p))) (combine df ds), true)
       | None =>
           (* flexible parsing *)
           match to_datetime_coerce rt col with
           | inl e =>
               show (st_error ("Could not parse dates with any known format: "
                                 ++ exn_str e)%string) ;;;
               return_ None
           | inr read =>
               let df' := dropna_date (map (fun r => set_date r (read (snd r))) df) in
               ret (df', Nat.ltb 0 (length df'))
           end
       end ;;
  let (df', successful_parse) := r : list raw_row * bool in
  if negb successful_parse || Nat.eqb (length df') 0 then
    show (st_error parse_failed) ;;;
    return_ None
  else ret df'.

(* ===================================================================== *)
(** ** SECTION 6: user and message extraction *)
(* ===================================================================== *)

(** [([\w\W]+?):\s] *)
Definition user_pattern : regex :=
  cat [Grp 1 (lazy_plus any); colon; space].

Definition EN_DASH : char := 8211%N.
Definition EM_DASH : char := 8212%N.

(** [([\w\W]+?)\s[-–—]\s] *)
Definition alt_pattern : regex :=
  cat [Grp 1 (lazy_plus any); space; oneof [chr "-"; EN_DASH; EM_DASH]; space].

(** The body of the loop over [df['user_message']]: what is appended to
    [users] and to [messages]. *)
Definition extract_user (message : str) : str * str :=
  let entry := split 1 user_pattern message in
  if negb (is_empty (skipn 1 entry)) then
    (nth 1 entry [], join (u " ") (skipn 2 entry))
  else
    let alt_entry := split 1 alt_pattern message in
    if Nat.ltb 1 (length alt_entry) then
      (nth 1 alt_entry [], join (u " ") (skipn 2 alt_entry))
    else
      (u "group_notification", strip message).

(* ===================================================================== *)
(** ** SECTION 7: the frame; phone numbers in user names *)
(* ===================================================================== *)

(** [^\+\d+\s] *)
Definition phone_pattern : regex :=
  cat [Bol; lit "+"; plus digit; space].

(** [lambda x: re.sub(r'^\+\d+\s', '', str(x))] on a [str]. *)
Definition fix_phone (x : str) : str := sub phone_pattern [] x.

(* ===================================================================== *)
(** ** SECTION 8: time components *)
(* ===================================================================== *)

Definition month_name (m : Z) : str :=
  u (nth (Z.to_nat (m - 1)%Z)
         ["January"; "February"; "March"; "April"; "May"; "June"; "July";
          "August"; "September"; "October"; "November"; "December"]%string
         ""%string).

(** Days from 1970-01-01 to a date of the proleptic Gregorian calendar. *)
Definition days_from_civil (y m d : Z) : Z :=
  (let y' := if m <=? 2 then y - 1 else y in
   let era := y' / 400 in
   let yoe := y' - era * 400 in
   let mp := if 2 <? m then m - 3 else m + 9 in
   let doy := (153 * mp + 2) / 5 + d - 1 in
   let doe := yoe * 365 + yoe / 4 - yoe / 100 + doy in
   era * 146097 + doe - 719468)%Z.

(** [Timestamp.day_name()]. *)
Definition weekday_name (d : datetime) : str :=
  u (nth (Z.to_nat (Z.modulo (days_from_civil (dt_year d) (dt_month d) (dt_day d) + 3)%Z 7))
         ["Monday"; "Tuesday"; "Wednesday"; "Thursday"; "Friday"; "Saturday";
          "Sunday"]%string
         ""%string).

(** [strftime('%p')]. *)
Definition strftime_p (d : datetime) : str :=
  if Z.ltb (dt_hour d) 12 then u "AM" else u "PM".

(* ===================================================================== *)
(** ** SECTION 9: time period classification *)
(* ===================================================================== *)

(** The body of the loop over [df['hour']], for an [int] hour. *)
Definition period_of_hour (hour : Z) : str :=
  if (hour =? 11)%Z then str_of_int hour ++ u "AM-12PM"
  else if (hour =? 23)%Z then str_of_int (hour - 12)%Z ++ u "PM-12AM"
  else if (hour =? 0)%Z then u "12AM-1AM"
  else if (hour =? 12)%Z then u "12PM-1PM"
  else if (hour <? 11)%Z then
    str_of_int hour ++ u "AM-" ++ str_of_int (hour + 1)%Z ++ u "AM"
  else
    str_of_int (hour - 12)%Z ++ u "PM-" ++ str_of_int (hour - 11)%Z ++ u "PM".

(** The same loop body on a cell of the [hour] column; every comparison with
    [NaN] is false, which leaves the last branch. *)
Definition period_of (hour : option Z) : str :=
  match hour with
  | Some h => period_of_hour h
  | None => u "nanPM-nanPM"
  end.

(** Sections 6 to 9 on one row. *)
Definition build_row (r : raw_row) : row :=
  let (sender, body) := extract_user (user_message r) in
  let d := raw_date r in
  let h := option_map dt_hour d in
  {| date := d;
     user := fix_phone sender;
     message := body;
     only_date := option_map (fun t => (dt_year t, dt_month t, dt_day t)) d;
     year := option_map dt_year d;
     month_num := option_map dt_month d;
     month := option_map (fun t => month_name (dt_month t)) d;
     day := option_map dt_day d;
     day_name := option_map weekday_name d;
     hour := h;
     minute := option_map dt_minute d;
     am_pm := option_map strftime_p d;
     period := period_of h |}.

(* ===================================================================== *)
(** ** SECTION 10: validation *)
(* ===================================================================== *)

(** [df.dropna(subset=['date', 'message'])]: the cells of [message] are
    [str] objects, none of them null, so a row goes exactly when its date is
    [NaT]. *)
Definition dropna (df : dataframe) : dataframe :=
  filter (fun r => match date r with Some _ => true | None => false end) df.

Definition too_few : string :=
  "Too few valid messages found after processing. Please check the chat file format.".

Definition validate (df : dataframe) : M unit :=
  let df := dropna df in
  if Nat.ltb (length df) 2 then
    show (st_error too_few) ;;;
    return_ None
  else return_ (Some df).

(* ===================================================================== *)
(** ** SECTION 1: the function *)
(* ===================================================================== *)

(** Sections 2 to 9: the frame that reaches validation. *)
Definition build_frame (data : str) : M dataframe :=
  g <- detect_format data ;;
  md <- extract_messages (g_pattern g) data ;;
  df <- DataFrame (fst md) (snd md) ;;
  df <- parse_dates df ;;
  ret (map build_row df).

(** The body of the [try]. *)
Definition preprocess_try (data : str) : M unit :=
  df <- build_frame data ;;
  validate df.

(** The [except Exception as e] handler. *)
Definition preprocess_except (e : exn) : M unit :=
  show (st_error ("Error processing chat: " ++ exn_str e)%string) ;;;
  show (st_error ("Detailed error: " ++ format_exc rt e)%string) ;;;
  return_ None.

(** [try: body  except Exception as e: handler]. *)
Definition try_except {A} (body : M A) (handler : exn -> M A) : M A :=
  fun log =>
    match body log with
    | (Raise e, log') => handler e log'
    | other => other
    end.

(** A call of a function with the given body: a [return] gives its value,
    the end of the body gives [None], an exception leaves the call. *)
Definition call (body : M unit) (log : list st_event)
  : completion * list st_event :=
  match body log with
  | (Normal _, log') => (Returns None, log')
  | (Return v, log') => (Returns v, log')
  | (Raise e, log') => (Propagates e, log')
  end.

(** [preprocess(data)], from the messages shown before the call. *)
Definition preprocess (data : str) (log : list st_event)
  : completion * list st_event :=
  call (try_except (preprocess_try data) preprocess_except) log.

End Preprocess.

(* ===================================================================== *)
(** ** A library to run the function on *)
(* ===================================================================== *)

(** An instance of [runtime] for running the model on transcripts: the
    directives of the catalog's templates read as [strptime] reads them
    (ASCII digits only), and a flexible interpreter that reads a fragment
    with the first template of the catalog that fits it. *)
Module SampleRuntime.

Definition d09 : regex := Chr (fun c => N.leb 48 c && N.leb c 57).
Definition range (a b : ascii) : regex :=
  Chr (fun c => N.leb (chr a) c && N.leb c (chr b)).
Definition ci (a b : ascii) : regex :=
  Chr (fun c => N.eqb c (chr a) || N.eqb c (chr b)).

(** The pattern of a directive; its group number names the field. *)
Definition directive (a : ascii) : option regex :=
  if Ascii.eqb a "m" then  (* 1[0-2]|0[1-9]|[1-9] *)
    Some (Grp 1 (Alt (Seq (lit "1") (range "0" "2"))
                (Alt (Seq (lit "0") (range "1" "9")) (range "1" "9"))))
  else if Ascii.eqb a "d" then  (* 3[0-1]|[1-2]\d|0[1-9]|[1-9]| [1-9] *)
    Some (Grp 2 (Alt (Seq (lit "3") (range "0" "1"))
                (Alt (Seq (range "1" "2") d09)
                (Alt (Seq (lit "0") (range "1" "9"))
                (Alt (range "1" "9") (Seq (lit " ") (range "1" "9")))))))
  else if Ascii.eqb a "y" then Some (Grp 3 (Seq d09 d09))
  else if Ascii.eqb a "Y" then Some (Grp 4 (cat [d09; d09; d09; d09]))
  else if Ascii.eqb a "I" then  (* 1[0-2]|0[1-9]|[1-9] *)
    Some (Grp 5 (Alt (Seq (lit "1") (range "0" "2"))
                (Alt (Seq (lit "0") (range "1" "9")) (range "1" "9"))))
  else if Ascii.eqb a "H" then  (* 2[0-3]|[0-1]\d|\d *)
    Some (Grp 6 (Alt (Seq (lit "2") (range "0" "3"))
                (Alt (Seq (range "0" "1") d09) d09)))
  else if Ascii.eqb a "M" then  (* [0-5]\d|\d *)
    Some (Grp 7 (Alt (Seq (range "0" "5") d09) d09))
  else if Ascii.eqb a "S" then  (* 6[0-1]|[0-5]\d|\d *)
    Some (Grp 8 (Alt (Seq (lit "6") (range "0" "1"))
                (Alt (Seq (range "0" "5") d09) d09)))
  else if Ascii.eqb a "p" then  (* am|pm, case ignored *)
    Some (Grp 9 (Alt (Seq (ci "a" "A") (ci "m" "M")) (Seq (ci "p" "P") (ci "m" "M"))))
  else None.

(** The pattern of a template: directives, white space as [\s+], any other
    character as itself. *)
Fixpoint compile (fmt : list ascii) : option (list regex) :=
  match fmt with
  | [] => Some []
  | "%"%char :: a :: fmt' =>
      match directive a, compile fmt' with
      | Some r, Some rs => Some (r :: rs)
      | _, _ => None
      end
  | a :: fmt' =>
      match compile fmt' with
      | Some rs =>
          if is_space (chr a) then
            match fmt' with
            | b :: _ => if is_space (chr b) then Some rs else Some (plus space :: rs)
            | [] => Some (plus space :: rs)
            end
          else Some (lit a :: rs)
      | None => None
      end
  end.

Definition number (t : str) : Z :=
  fold_left (fun acc c => (acc * 10 + (Z.of_N c - 48))%Z) t 0%Z.

Definition field (c : caps) (n : nat) : option Z := option_map number (group c n).

Definition is_leap (y : Z) : bool :=
  ((y mod 4 =? 0) && (negb (y mod 100 =? 0) || (y mod 400 =? 0)))%Z.

Definition days_in_month (y m : Z) : Z :=
  (if m =? 2 then (if is_leap y then 29 else 28)
   else if (m =? 4) || (m =? 6) || (m =? 9) || (m =? 11) then 30 else 31)%Z.

Definition default (d : Z) (o : option Z) : Z :=
  match o with Some z => z | None => d end.

Definition is_pm (c : caps) : bool :=
  match group c 9 with
  | Some (x :: _) => N.eqb x (chr "p") || N.eqb x (chr "P")
  | _ => false
  end.

(** The timestamp of the fields found. *)
Definition assemble (c : caps) : option datetime :=
  let y := match field c 4, field c 3 with
           | Some y, _ => y
           | None, Some yy => if (yy <=? 68)%Z then (2000 + yy)%Z else (1900 + yy)%Z
           | None, None => 1900%Z
           end in
  let m := default 1%Z (field c 1) in
  let d := default 1%Z (field c 2) in
  let h := match field c 6, field c 5 with
           | Some h, _ => h
           | None, Some i => ((i mod 12) + (if is_pm c then 12 else 0))%Z
           | None, None => 0%Z
           end in
  if (d <=? days_in_month y m)%Z
  then Some (DateTime y m d h (default 0%Z (field c 7)) (default 0%Z (field c 8)))
  else None.

(** One fragment under a template: the template's pattern has to match the
    fragment from its start to its end. *)
Definition strptime (fmt : string) (x : str) : option datetime :=
  match compile (list_ascii_of_string fmt) with
  | None => None
  | Some rs =>
      match match_at (cat rs) 0 x with
      | Some m => if Nat.eqb (m_end m) (length x) then assemble (m_caps m) else None
      | None => None
      end
  end.

Fixpoint first_reading (catalog : list grammar) (x : str) : option datetime :=
  match catalog with
  | [] => None
  | g :: rest =>
      match strptime (g_format g) x with
      | Some d => Some d
      | None => first_reading rest x
      end
  end.

Definition sample : runtime :=
  Runtime strptime
          (fun _ => inr (first_reading date_patterns))
          (fun e => ("Traceback (most recent call last): "
                       ++ exn_class e ++ ": " ++ exn_str e)%string).

End SampleRuntime.

(* ===================================================================== *)
(** ** Notions the statements use *)
(* ===================================================================== *)

(** *** Patterns *)

(** The least number of characters a match of [r] takes. *)
Fixpoint minlen (r : regex) : nat :=
  match r with
  | Chr _ => 1
  | Bol | Eps => 0
  | Seq r1 r2 => minlen r1 + minlen r2
  | Alt r1 r2 => Nat.min (minlen r1) (minlen r2)
  | Rep _ lo _ r1 => lo * minlen r1
  | Grp _ r1 => minlen r1
  end.

(** No capturing group in [r]. *)
Fixpoint groupless (r : regex) : bool :=
  match r with
  | Chr _ | Bol | Eps => true
  | Seq r1 r2 | Alt r1 r2 => groupless r1 && groupless r2
  | Rep _ _ _ r1 => groupless r1
  | Grp _ _ => false
  end.

(** Every repeated sub-pattern takes at least one character per iteration,
    which is what makes the length of the text a bound for a repetition. *)
Fixpoint productive (r : regex) : bool :=
  match r with
  | Chr _ | Bol | Eps => true
  | Seq r1 r2 | Alt r1 r2 => productive r1 && productive r2
  | Rep _ _ _ r1 => Nat.ltb 0 (minlen r1) && productive r1
  | Grp _ r1 => productive r1
  end.

(** What a successful run of a sub-pattern tells: it took a prefix [w] of the
    text, of [m] characters or more, and the run went on after it. *)
Definition consumes {A : Type} (m : nat) (keeps : bool)
           (i : nat) (s : str) (c : caps) (k : @kont A) (x : A) : Prop :=
  exists w s' c',
    s = w ++ s' /\ m <= length w /\ (keeps = true -> c' = c)
    /\ k (i + length w) s' c' = Some x.

(** Two continuations that agree on the texts of [L] characters or fewer. *)
Definition agree {A : Type} (L : nat) (k k' : @kont A) : Prop :=
  forall i s c, length s <= L -> k i s c = k' i s c.

(** A sub-pattern that runs its continuation only on what is left after [m]
    characters or more. *)
Definition local {A : Type} (m : nat)
           (step : nat -> str -> caps -> @kont A -> option A) : Prop :=
  forall i s c k k', agree (length s - m) k k' -> step i s c k = step i s c k'.

(** *** Phone prefixes *)

(** The longest prefix of decimal digits, and what follows it. *)
Fixpoint span_digits (t : str) : str * str :=
  match t with
  | a :: t' =>
      if is_digit a then let (ds, r) := span_digits t' in (a :: ds, r)
      else ([], t)
  | [] => ([], [])
  end.

(** The length of the prefix [^\+\d+\s] matches, if it matches: a [+], the
    digits that follow, all of them, and one white space character. *)
Definition phone_prefix (s : str) : option nat :=
  match s with
  | a :: t =>
      if N.eqb (chr "+") a then
        match span_digits t with
        | ((_ :: _) as ds, w :: _) =>
            if is_space w then Some (2 + length ds) else None
        | _ => None
        end
      else None
  | [] => None
  end.

(** The normalised name is empty only for a name that is nothing but a phone
    prefix: [+], digits, one white space character. *)
Definition phone_prefix_only (s : str) : Prop :=
  exists ds w, s = chr "+" :: ds ++ [w] /\ ds <> []
               /\ Forall (fun a => is_digit a = true) ds /\ is_space w = true.

(** *** Lines, detection, extraction *)

(** A line: no separator in it. *)
Definition sep_free (sep : char) (l : str) : Prop := ~ In sep l.

Definition no_match (sample : str) (g : grammar) : Prop :=
  search (g_pattern g) sample = None.

(** The grammar detection ends with, and the message it shows. *)
Definition detected (data : str) : grammar :=
  match first_match date_patterns (sample_data data) with
  | Some g => g
  | None => generic_fallback
  end.

Definition detection_message (data : str) : st_event :=
  match first_match date_patterns (sample_data data) with
  | Some _ => st_success uploaded
  | None => st_warning unrecognized_warning
  end.

(** Splitting with the detected pattern gave no message or no date. *)
Definition primary_empty (detected_pattern : regex) (data : str) : bool :=
  is_empty (tl (split 0 detected_pattern data))
  || is_empty (findall detected_pattern data).

(** A cut of [s] at the first place where [sep] stands. *)
Definition first_cut (sep s a b : str) : Prop :=
  s = a ++ sep ++ b
  /\ forall n, n < length a -> strip_prefix sep (skipn n s) = None.

(** The blocks that hold a [' - '], each cut at its first one. *)
Definition cut_blocks (message_blocks : list str) : list (str * str) :=
  flat_map (fun block =>
              match split_once (u " - ") block with
              | [a; b] => [(a, b)]
              | _ => []
              end) message_blocks.

(** [sep in s] *)
Fixpoint holds (sep s : str) : bool :=
  match strip_prefix sep s with
  | Some _ => true
  | None =>
      match s with
      | [] => false
      | _ :: s' => holds sep s'
      end
  end.

(** *** Dates *)

Definition is_some {A : Type} (o : option A) : bool :=
  match o with Some _ => true | None => false end.

Section Contract.
Variable rt : runtime.

(** The template reads every fragment of the column. *)
Definition reads_all (date_format : string) (col : list str) : bool :=
  forallb (fun x => is_some (strptime rt date_format x)) col.

(** The contract of the date parser in the specification's words: the first
    template of the catalog that reads the whole column gives the dates; when
    there is none, the flexible interpreter reads what it can and the rows it
    cannot read are dropped; with no row left, parsing fails with a
    diagnostic. *)
Definition parse_dates_contract (df : list (str * str)) (log : list st_event)
  : outcome (list raw_row) * list st_event :=
  match find (fun g => reads_all (g_format g) (map snd df)) date_patterns with
  | Some g =>
      if is_empty df then (Return None, log ++ [st_error parse_failed])
      else (Normal (map (fun r => set_date r (strptime rt (g_format g) (snd r))) df),
            log)
  | None =>
      match to_datetime_coerce rt (map snd df) with
      | inl e =>
          (Return None,
           log ++ [st_error ("Could not parse dates with any known format: "
                               ++ exn_str e)%string])
      | inr read =>
          let kept := filter (fun r => is_some (read (snd r))) df in
          if is_empty kept then (Return None, log ++ [st_error parse_failed])
          else (Normal (map (fun r => set_date r (read (snd r))) kept), log)
      end
  end.

End Contract.

(** *** Period buckets *)

(** The labelling rule as the specification's table gives it, the rows taken
    in the table's order. *)
Definition period_bucket_table (h : Z) : str :=
  if (h =? 0)%Z then u "12AM-1AM"
  else if (h =? 11)%Z then u "11AM-12PM"
  else if (h =? 12)%Z then u "12PM-1PM"
  else if (h =? 23)%Z then u "11PM-12AM"
  else if (h <? 11)%Z then
    str_of_int h ++ u "AM-" ++ str_of_int (h + 1)%Z ++ u "AM"
  else
    str_of_int (h - 12)%Z ++ u "PM-" ++ str_of_int (h - 11)%Z ++ u "PM".

(** The twenty-four labels, written out. *)
Definition period_labels : list str :=
  map u ["12AM-1AM"; "1AM-2AM"; "2AM-3AM"; "3AM-4AM"; "4AM-5AM"; "5AM-6AM";
         "6AM-7AM"; "7AM-8AM"; "8AM-9AM"; "9AM-10AM"; "10AM-11AM";
         "11AM-12PM"; "12PM-1PM"; "1PM-2PM"; "2PM-3PM"; "3PM-4PM"; "4PM-5PM";
         "5PM-6PM"; "6PM-7PM"; "7PM-8PM"; "8PM-9PM"; "9PM-10PM"; "10PM-11PM";
         "11PM-12AM"]%string.

(** *** Transcripts to run the function on *)

Module Runs.

Definition lines (ls : list string) : str :=
  concat (map (fun l => u l ++ [NL]) ls).

(** The two-line transcript of the specification's end-to-end example. *)
Definition two_messages : str :=
  lines ["1/5/23, 10:15 AM - Alice: Good morning!";
         "1/5/23, 10:16 AM - Bob: Morning!"]%string.

Definition one_message : str :=
  lines ["1/5/23, 10:15 AM - Alice: Good morning!"]%string.

(** A name that is nothing but a phone prefix. *)
Definition phone_only_sender : str :=
  lines ["1/5/23, 10:15 AM - +91 : hi";
         "1/5/23, 10:16 AM - Bob: yo"]%string.

(** A message with nothing after the colon. *)
Definition empty_body : str :=
  lines ["1/5/23, 10:15 AM - Alice:";
         "1/5/23, 10:16 AM - Bob: yo"]%string.

(** A message with a colon of its own. *)
Definition two_colons : str :=
  lines ["1/5/23, 10:15 AM - Alice: note: hi";
         "1/5/23, 10:16 AM - Bob: yo"]%string.

(** No line of a known format. *)
Definition no_format : str := lines ["hello"; "world"]%string.

(** A line only the generic pattern finds, and without a [' - ']. *)
Definition no_dash : str := lines ["5-1-23 10:15 Alice says hi"]%string.

End Runs.

(* ===================================================================== *)
(** ** The texts a pattern stands for *)
(* ===================================================================== *)

(** [n] texts of [L] in a row, the first one at position [i]. *)
Fixpoint iter (L : nat -> str -> Prop) (n : nat) (i : nat) (w : str) : Prop :=
  match n with
  | O => w = []
  | S n' =>
      exists w1 w2, w = w1 ++ w2 /\ L i w1 /\ iter L n' (i + length w1) w2
  end.

(** [w], standing at position [i] of a text, is one of the texts of [r]. *)
Fixpoint lang (r : regex) (i : nat) (w : str) : Prop :=
  match r with
  | Chr p => exists a, w = [a] /\ p a = true
  | Bol => i = 0 /\ w = []
  | Eps => w = []
  | Seq r1 r2 =>
      exists w1 w2, w = w1 ++ w2 /\ lang r1 i w1 /\ lang r2 (i + length w1) w2
  | Alt r1 r2 => lang r1 i w \/ lang r2 i w
  | Rep _ lo hi r1 =>
      exists n, lo <= n /\ match hi with Some h => n <= h | None => True end
                /\ iter (lang r1) n i w
  | Grp _ r1 => lang r1 i w
  end.

(** A text of [r] stands somewhere in [text]. *)
Definition occurs (r : regex) (text : str) : Prop :=
  exists pre w post, text = pre ++ w ++ post /\ lang r (length pre) w.

(** A continuation that succeeds at a position whatever the groups. *)
Definition accepts {A : Type} (k : @kont A) (j : nat) (s : str) : Prop :=
  forall c, k j s c <> None.

(* ===================================================================== *)
(** ** Delimiters between a sender and a body *)
(* ===================================================================== *)

(** The text starts with one character of each class of [ps], in turn. *)
Fixpoint starts (ps : list (char -> bool)) (s : str) : bool :=
  match ps, s with
  | [], _ => true
  | p :: ps', a :: s' => p a && starts ps' s'
  | _ :: _, [] => false
  end.

(** The first place of [s] where a delimiter [ps] stands. *)
Fixpoint find_delim (ps : list (char -> bool)) (s : str) : option nat :=
  if starts ps s then Some 0
  else match s with
       | [] => None
       | _ :: s' => option_map S (find_delim ps s')
       end.

(** A colon and a white space character: [:\s]. *)
Definition colon_space : list (char -> bool) := [N.eqb (chr ":"); is_space].

Definition is_dash (c : char) : bool :=
  existsb (N.eqb c) [chr "-"; EN_DASH; EM_DASH].

(** A dash between two white space characters: [\s[-–—]\s]. *)
Definition spaced_dash : list (char -> bool) := [is_space; is_dash; is_space].

(** A name, one character or more and as few as can be, in group 1, then a
    delimiter: the shape of the two sender patterns. *)
Definition name_then (ps : list (char -> bool)) : regex :=
  Seq (Grp 1 (lazy_plus any)) (cat (map Chr ps)).

(** The first position from [i] on at which [k] succeeds. *)
Fixpoint scan {A : Type} (k : @kont A) (i : nat) (s : str) (c : caps)
  : option A :=
  match k i s c with
  | Some x => Some x
  | None =>
      match s with
      | [] => None
      | _ :: s' => scan k (S i) s' c
      end
  end.

(* ===================================================================== *)
(** ** The twelve-hour clock *)
(* ===================================================================== *)

(** The hour a twelve-hour clock shows. *)
Definition hour12 (h : Z) : Z :=
  (if h mod 12 =? 0 then 12 else h mod 12)%Z.

(** The half of the day an hour lies in. *)
Definition marker (h : Z) : str :=
  if (h mod 24 <? 12)%Z then u "AM" else u "PM".

(** An error message. *)
Definition is_error (e : st_event) : Prop := exists msg, e = st_error msg.

(* ===================================================================== *)
(** ** From the transcript to the records *)
(* ===================================================================== *)

(** The texts and dates extraction ends with, pair by pair: those the
    detected pattern cuts, or, when it cuts nothing, those of the blocks of
    the generic pattern. *)
Definition extracted (data : str) : list (str * str) :=
  let detected_pattern := g_pattern (detected data) in
  if primary_empty detected_pattern data then
    map (fun ab => (snd ab, fst ab ++ u " - "))
        (cut_blocks (findall generic_pattern data))
  else combine (tl (split 0 detected_pattern data))
               (findall detected_pattern data).

(** How the fragments of a column are read: by the first template of the
    catalog that reads every one of them, or else by the flexible
    interpreter. *)
Definition reading (rt : runtime) (col : list str) : str -> option datetime :=
  match find (fun g => reads_all rt (g_format g) col) date_patterns with
  | Some g => strptime rt (g_format g)
  | None =>
      match to_datetime_coerce rt col with
      | inl _ => fun _ => None
      | inr read => read
      end
  end.

(** The record of a text and its date fragment under a reading. *)
Definition record_of (read : str -> option datetime) (p : str * str) : row :=
  build_row (set_date p (read (snd p))).

(** The error extraction shows when the detected pattern cuts nothing. *)
Definition extraction_errors (data : str) : list st_event :=
  if primary_empty (g_pattern (detected data)) data
  then [st_error no_messages] else [].

(** Three messages, the second with a date no calendar has. *)
Definition one_bad_date : str :=
  Runs.lines ["1/5/23, 10:15 AM - Alice: Good morning!";
              "31/31/23, 10:16 AM - Bob: Morning!";
              "1/5/23, 10:17 AM - Carol: Hello"]%string.

(** Ten lines without a date, then two messages in a 24-hour format. *)
Definition late_dates : str :=
  concat (repeat (u "x" ++ [NL]) 10)
  ++ Runs.lines ["1/5/23, 10:15 - Alice: Good morning!";
                 "1/5/23, 10:16 - Bob: Morning!"]%string.

(* ===================================================================== *)
(** ** app.py: the participants offered for selection *)
(* ===================================================================== *)

(** [Series.unique()]: the values, each once, in the order in which they
    first appear. *)
Fixpoint unique (l : list str) : list str :=
  match l with
  | [] => []
  | x :: l' => x :: filter (fun y => negb (str_eqb x y)) (unique l')
  end.

(** [x in l] *)
Definition contains (x : str) (l : list str) : bool := existsb (str_eqb x) l.

(** [l.remove(x)]: the first occurrence of [x] goes; [None] is the
    [ValueError] raised when there is none. *)
Fixpoint list_remove (x : str) (l : list str) : option (list str) :=
  match l with
  | [] => None
  | y :: l' =>
      if str_eqb y x then Some l' else option_map (cons y) (list_remove x l')
  end.

(** [a < b] on [str]: by code points, a proper prefix first. *)
Fixpoint str_ltb (a b : str) : bool :=
  match a, b with
  | _, [] => false
  | [], _ :: _ => true
  | x :: a', y :: b' => N.ltb x y || (N.eqb x y && str_ltb a' b')
  end.

(** [l.sort()]: ascending, equal elements in the order they had. *)
Fixpoint insort (x : str) (l : list str) : list str :=
  match l with
  | [] => [x]
  | y :: l' => if str_ltb y x then y :: insort x l' else x :: l
  end.

Definition list_sort (l : list str) : list str := fold_right insort [] l.

(** Lines 115 to 119 of app.py: the list handed to the selection box;
    [None] where a statement raises. *)
Definition user_list (df : dataframe) : option (list str) :=
  let user_list := unique (map user df) in
  match (if contains (u "group_notification") user_list
         then list_remove (u "group_notification") user_list
         else Some user_list) with
  | None => None
  | Some user_list => Some (u "Overall" :: list_sort user_list)
  end.

(** Strictly ascending: sorted, and nothing twice. *)
Fixpoint ascending (l : list str) : Prop :=
  match l with
  | [] => True
  | x :: l' => Forall (fun y => str_ltb x y = true) l' /\ ascending l'
  end.

(* ===================================================================== *)
(** ** helper.py: basic statistics *)
(* ===================================================================== *)

(** [s.split()]: the maximal runs of characters that are not white space;
    [word] is the run being read, its last character first. *)
Fixpoint split_from (word : str) (s : str) : list str :=
  match s with
  | [] => if is_empty word then [] else [rev word]
  | c :: s' =>
      if is_space c then
        if is_empty word then split_from [] s'
        else rev word :: split_from [] s'
      else split_from (c :: word) s'
  end.

Definition split_ws (s : str) : list str := split_from [] s.

Definition media_omitted : str := u "<Media omitted>" ++ [NL].

(** [df[df['user'] == selected_user]] unless [selected_user] is
    ['Overall']. *)
Definition select (selected_user : str) (df : dataframe) : dataframe :=
  if negb (str_eqb selected_user (u "Overall"))
  then filter (fun r => str_eqb (user r) selected_user) df
  else df.

(** What [fetch_stats] returns. *)
Record stats := Stats {
  num_msgs : nat;
  num_words : nat;
  num_of_media : nat;
  links_length : nat;
  links : list str;
  filtered_df : dataframe }.

Section Helper.

(** [URLExtract().find_urls] *)
Variable find_urls : str -> list str.

Definition fetch_stats (selected_user : str) (df : dataframe) : stats :=
  let df := select selected_user df in
  let msgs := flat_map (fun r => split_ws (message r)) df in
  let links := flat_map (fun r => find_urls (message r)) df in
  {| num_msgs := length df;
     num_words := length msgs;
     num_of_media :=
       length (filter (fun r => str_eqb (message r) media_omitted) df);
     links_length := length links;
     links := links;
     filtered_df := df |}.

End Helper.

(* ===================================================================== *)
(** ** helper.py: activity by day of the week *)
(* ===================================================================== *)

Definition day_order : list str :=
  map u ["Monday"; "Tuesday"; "Wednesday"; "Thursday"; "Friday"; "Saturday";
         "Sunday"]%string.

(** The occurrences of a value in a column. *)
Definition count_of (x : str) (col : list (option str)) : nat :=
  length (filter (fun v => match v with
                           | Some y => str_eqb x y
                           | None => false
                           end) col).

(** A row goes before the first row that does not count more. *)
Fixpoint insert_count (p : str * nat) (l : list (str * nat))
  : list (str * nat) :=
  match l with
  | [] => [p]
  | q :: l' => if Nat.leb (snd q) (snd p) then p :: l else q :: insert_count p l'
  end.

(** [Series.value_counts().reset_index()]: the values that are not null,
    each with the number of its occurrences, the most frequent first. *)
Definition value_counts (col : list (option str)) : list (str * nat) :=
  let values :=
    unique (flat_map (fun v => match v with Some y => [y] | None => [] end) col) in
  fold_right insert_count [] (map (fun x => (x, count_of x col)) values).

(** [left.merge(right, on=key, how='left')] for a [left] that is its key
    column: each row of [left], in order, with every row of [right] that has
    its key, or with a null when [right] has none. *)
Definition merge_left (left : list str) (right : list (str * nat))
  : list (str * option nat) :=
  flat_map (fun k =>
              match filter (fun q => str_eqb k (fst q)) right with
              | [] => [(k, None)]
              | qs => map (fun q => (k, Some (snd q))) qs
              end) left.

(** [.fillna(0)], then [astype(int)] on the counts. *)
Definition fillna_0 (l : list (str * option nat)) : list (str * nat) :=
  map (fun p => (fst p, match snd p with Some n => n | None => 0 end)) l.

(** The code of a value in [pd.Categorical(..., categories)]: its position,
    or none. *)
Fixpoint code (categories : list str) (x : str) : option nat :=
  match categories with
  | [] => None
  | c :: cs => if str_eqb c x then Some 0 else option_map S (code cs x)
  end.

(** Codes in ascending order, a value without a code last. *)
Definition code_ltb (a b : option nat) : bool :=
  match a, b with
  | Some m, Some n => Nat.ltb m n
  | Some _, None => true
  | None, _ => false
  end.

Fixpoint insert_by_day (p : str * nat) (l : list (str * nat))
  : list (str * nat) :=
  match l with
  | [] => [p]
  | q :: l' =>
      if code_ltb (code day_order (fst q)) (code day_order (fst p))
      then q :: insert_by_day p l' else p :: l
  end.

(** [sort_values('day_order')] *)
Definition sort_by_day (l : list (str * nat)) : list (str * nat) :=
  fold_right insert_by_day [] l.

(** The rows [(day_name, count)] that [daily_activeness] returns. *)
Definition daily_activeness (selected_user : str) (df : dataframe)
  : list (str * nat) :=
  let df := select selected_user df in
  let daily_counts := value_counts (map day_name df) in
  sort_by_day (fillna_0 (merge_left day_order daily_counts)).

(** The dataset of the two-line transcript, and a library that finds no
    link. *)
Definition two_records : dataframe :=
  match fst (preprocess SampleRuntime.sample Runs.two_messages []) with
  | Returns (Some df) => df
  | _ => []
  end.

Definition no_urls (message : str) : list str := [].

(* ===================================================================== *)
(** ** Patterns without an anchor *)
(* ===================================================================== *)

(** No [^] in [r]: what [r] matches does not depend on where it stands. *)
Fixpoint anchor_free (r : regex) : bool :=
  match r with
  | Chr _ | Eps => true
  | Bol => false
  | Seq r1 r2 | Alt r1 r2 => anchor_free r1 && anchor_free r2
  | Rep _ _ _ r1 => anchor_free r1
  | Grp _ r1 => anchor_free r1
  end.

(* ===================================================================== *)
(** ** helper.py: activity by month *)
(* ===================================================================== *)

(** The rows [(month, count)] that [montly_activeness] returns:
    [df['month'].value_counts().reset_index()] on the selected records. *)
Definition montly_activeness (selected_user : str) (df : dataframe)
  : list (str * nat) :=
  let df := select selected_user df in
  value_counts (map month df).

(** The alias with the correct spelling. *)
Definition monthly_activeness (selected_user : str) (df : dataframe)
  : list (str * nat) :=
  montly_activeness selected_user df.

(** Counts that never go up along the rows. *)
Fixpoint descending (l : list (str * nat)) : Prop :=
  match l with
  | [] => True
  | p :: l' => Forall (fun q => snd q <= snd p) l' /\ descending l'
  end.

(* ===================================================================== *)
(** ** Facts about the matcher *)
(* ===================================================================== *)

Section Inversion.
Context {A : Type}.

(** A repetition of [lo] iterations or more takes [lo] times what an
    iteration takes. *)
Lemma rep_loop_inv (step : nat -> str -> caps -> @kont A -> option A)
      (m : nat) (keeps g : bool) :
  (forall i s c k x, step i s c k = Some x -> consumes m keeps i s c k x) ->
  forall n lo i s c k x,
    rep_loop step g n lo i s c k = Some x ->
    consumes (lo * m) keeps i s c k x.
Proof.
  intros Hstep. induction n as [|n IH]; intros lo i s c k x H; simpl in H.
  - destruct lo; [|discriminate].
    exists [], s, c. rewrite Nat.add_0_r. simpl. auto with arith.
  - assert (Hagain : forall lo',
      step i s c (fun i' s' c' => rep_loop step g n lo' i' s' c' k) = Some x ->
      consumes (m + lo' * m) keeps i s c k x).
    { intros lo' H1. apply Hstep in H1.
      destruct H1 as (w1 & s1 & c1 & -> & Hm & Hc1 & H1).
      apply IH in H1. destruct H1 as (w2 & s2 & c2 & -> & Hm2 & Hc2 & H2).
      exists (w1 ++ w2), s2, c2. rewrite length_app, Nat.add_assoc, <- app_assoc.
      repeat split; auto; try lia.
      intros Hk. rewrite Hc2, Hc1; auto. }
    assert (Hleave : k i s c = Some x -> consumes 0 keeps i s c k x).
    { intros H1. exists [], s, c. rewrite Nat.add_0_r. simpl. auto with arith. }
    destruct lo as [|lo].
    + destruct g.
      * destruct (step i s c _) eqn:E.
        -- inversion H; subst. apply Hagain in E.
           destruct E as (w & s' & c' & ? & ? & ? & ?).
           exists w, s', c'. simpl. auto with arith.
        -- auto.
      * destruct (k i s c) eqn:E.
        -- inversion H; subst. auto.
        -- apply Hagain in H. destruct H as (w & s' & c' & ? & ? & ? & ?).
           exists w, s', c'. simpl. auto with arith.
    + apply Hagain in H. exact H.
Qed.

(** A run that succeeds took a prefix of the text, of [minlen r] characters
    or more, before it went on; a pattern without groups leaves the groups
    as they were. *)
Lemma exec_inv (r : regex) :
  forall i s c (k : @kont A) x,
    exec r i s c k = Some x ->
    consumes (minlen r) (groupless r) i s c k x.
Proof.
  induction r as [p| | |r1 IH1 r2 IH2|r1 IH1 r2 IH2|g lo hi r1 IH1|n r1 IH1];
    intros i s c k x H; simpl in H.
  - destruct s as [|a s']; [discriminate|].
    destruct (p a); [|discriminate].
    exists [a], s', c. simpl. rewrite Nat.add_1_r. auto.
  - destruct i; [|discriminate]. exists [], s, c. simpl. auto.
  - exists [], s, c. rewrite Nat.add_0_r. simpl. auto.
  - apply IH1 in H. destruct H as (w1 & s1 & c1 & -> & Hm1 & Hc1 & H).
    apply IH2 in H. destruct H as (w2 & s2 & c2 & -> & Hm2 & Hc2 & H).
    exists (w1 ++ w2), s2, c2. rewrite length_app, Nat.add_assoc, <- app_assoc.
    simpl. repeat split; auto; try lia.
    intros Hk. apply andb_prop in Hk. destruct Hk. rewrite Hc2, Hc1; auto.
  - destruct (exec r1 i s c k) eqn:E.
    + inversion H; subst. apply IH1 in E.
      destruct E as (w & s' & c' & ? & ? & Hc & ?).
      exists w, s', c'. simpl. repeat split; auto; try lia.
      intros Hk. apply andb_prop in Hk. destruct Hk. auto.
    + apply IH2 in H. destruct H as (w & s' & c' & ? & ? & Hc & ?).
      exists w, s', c'. simpl. repeat split; auto; try lia.
      intros Hk. apply andb_prop in Hk. destruct Hk. auto.
  - simpl. eapply rep_loop_inv; [exact IH1 | exact H].
  - apply IH1 in H. destruct H as (w & s' & c' & ? & ? & _ & H).
    exists w, s', ((n, firstn (i + length w - i) s) :: c'). simpl.
    repeat split; auto. discriminate.
Qed.

End Inversion.

(** A match ends where it says, and takes [minlen] characters or more. *)
Lemma match_at_inv (r : regex) (i : nat) (s : str) (m : rmatch) :
  match_at r i s = Some m ->
  m_start m = i /\ i + minlen r <= m_end m /\ m_end m <= i + length s
  /\ (groupless r = true -> m_caps m = []).
Proof.
  unfold match_at. intros H. apply exec_inv in H.
  destruct H as (w & s' & c' & -> & Hm & Hc & H). inversion H; subst; simpl.
  rewrite length_app. repeat split; auto; lia.
Qed.

(** What [search] finds is a match at some position of the text. *)
Lemma search_from_inv (r : regex) :
  forall s i m,
    search_from r i s = Some m ->
    exists pre s1, s = pre ++ s1 /\ m_start m = i + length pre
                   /\ match_at r (i + length pre) s1 = Some m.
Proof.
  induction s as [|a s IH]; intros i m H; simpl in H.
  - destruct (match_at r i []) eqn:E; [|discriminate]. inversion H; subst.
    exists [], []. simpl. rewrite Nat.add_0_r.
    destruct (match_at_inv _ _ _ E) as (-> & _). auto.
  - destruct (match_at r i (a :: s)) eqn:E.
    + inversion H; subst. exists [], (a :: s). simpl. rewrite Nat.add_0_r.
      destruct (match_at_inv _ _ _ E) as (-> & _). auto.
    + apply IH in H. destruct H as (pre & s1 & -> & Hs & H).
      exists (a :: pre), s1. simpl. rewrite <- Nat.add_succ_comm. auto.
Qed.

(* ===================================================================== *)
(** ** The bounds of the matcher are never reached *)
(* ===================================================================== *)

Section Locality.
Context {A : Type}.

Lemma agree_le (L L' : nat) (k k' : @kont A) :
  L' <= L -> agree L k k' -> agree L' k k'.
Proof. intros HL H i s c Hs. apply H. lia. Qed.

Lemma rep_loop_local (step : nat -> str -> caps -> @kont A -> option A)
      (m : nat) (g : bool) :
  local m step ->
  forall n lo, local (lo * m) (fun i s c k => rep_loop step g n lo i s c k).
Proof.
  intros Hstep. induction n as [|n IH]; intros lo i s c k k' Hk; simpl.
  - destruct lo; [|reflexivity]. apply Hk. simpl. lia.
  - assert (Hagain : forall lo', lo * m <= m + lo' * m ->
      step i s c (fun i' s' c' => rep_loop step g n lo' i' s' c' k)
      = step i s c (fun i' s' c' => rep_loop step g n lo' i' s' c' k')).
    { intros lo' Hlo. apply Hstep. intros i' s' c' Hs'. apply IH.
      eapply agree_le; [|exact Hk]. lia. }
    assert (Hleave : lo = 0 -> k i s c = k' i s c).
    { intros ->. apply Hk. simpl. lia. }
    destruct lo as [|lo].
    + rewrite (Hagain 0) by (simpl; lia). rewrite Hleave by reflexivity.
      reflexivity.
    + apply Hagain. simpl. lia.
Qed.

(** A pattern runs its continuation on what is left after [minlen]
    characters or more, and on nothing longer. *)
Lemma exec_local (r : regex) : local (minlen r) (@exec A r).
Proof.
  induction r as [p| | |r1 IH1 r2 IH2|r1 IH1 r2 IH2|g lo hi r1 IH1|n r1 IH1];
    intros i s c k k' Hk; simpl.
  - destruct s as [|a s']; [reflexivity|].
    destruct (p a); [|reflexivity]. apply Hk. simpl. lia.
  - destruct i; [|reflexivity]. apply Hk. simpl. lia.
  - apply Hk. simpl. lia.
  - apply IH1. intros i' s' c' Hs'. apply IH2.
    eapply agree_le; [|exact Hk]. simpl. lia.
  - rewrite (IH1 i s c k k'), (IH2 i s c k k'); auto;
      (eapply agree_le; [|exact Hk]); simpl; lia.
  - apply (rep_loop_local (m := minlen r1) g IH1). exact Hk.
  - apply IH1. intros i' s' c' Hs'. apply Hk. simpl. lia.
Qed.

(** A pattern of one character or more finds nothing in the empty text. *)
Lemma exec_nil (r : regex) (i : nat) (c : caps) (k : @kont A) :
  0 < minlen r -> exec r i [] c k = None.
Proof.
  intros Hm. destruct (exec r i [] c k) as [x|] eqn:E; [|reflexivity].
  apply exec_inv in E. destruct E as (w & s' & c' & Hw & Hlen & _).
  destruct w; simpl in *; [lia | discriminate].
Qed.

(** The bound of an open repetition is adequate: when each iteration takes
    a character or more, any bound from the length of the text on gives the
    same run, so no iteration is ever cut off. *)
Lemma rep_bound_adequate (r : regex) (g : bool) :
  0 < minlen r ->
  forall n n' lo i s c (k : @kont A),
    length s <= n -> length s <= n' ->
    rep_loop (exec r) g n lo i s c k = rep_loop (exec r) g n' lo i s c k.
Proof.
  intros Hm.
  assert (Hnil : forall n lo i c (k : @kont A),
             rep_loop (exec r) g n lo i [] c k
             = match lo with O => k i [] c | S _ => None end).
  { intros [|n] lo i c k; simpl; [reflexivity|].
    destruct lo; rewrite exec_nil by exact Hm; [|reflexivity].
    destruct g; [reflexivity|]. destruct (k i [] c); reflexivity. }
  induction n as [|n IH]; intros n' lo i s c k Hn Hn'.
  - destruct s; [|simpl in Hn; lia]. rewrite !Hnil. reflexivity.
  - destruct n' as [|n'].
    { destruct s; [|simpl in Hn'; lia]. rewrite !Hnil. reflexivity. }
    assert (Hagain : forall lo',
      exec r i s c (fun i' s' c' => rep_loop (exec r) g n lo' i' s' c' k)
      = exec r i s c (fun i' s' c' => rep_loop (exec r) g n' lo' i' s' c' k)).
    { intros lo'. apply exec_local. intros i' s' c' Hs'. apply IH; lia. }
    simpl. destruct lo; rewrite Hagain; reflexivity.
Qed.

End Locality.

(** The fuel of [finditer] is adequate for a pattern that matches a
    character or more: any fuel above the length of the text gives the same
    matches. *)
Lemma finditer_fuel_adequate (r : regex) :
  0 < minlen r ->
  forall f f' i s,
    length s < f -> length s < f' ->
    finditer_from f r i s = finditer_from f' r i s.
Proof.
  intros Hm. induction f as [|f IH]; intros f' i s Hf Hf'; [lia|].
  destruct f' as [|f']; [lia|]. simpl.
  destruct (search_from r i s) as [m|] eqn:E; [|reflexivity].
  apply search_from_inv in E. destruct E as (pre & s1 & -> & Hstart & E).
  apply match_at_inv in E. destruct E as (_ & Hlo & Hhi & _).
  rewrite length_app in *.
  replace (Nat.ltb (m_start m) (m_end m)) with true
    by (symmetry; apply Nat.ltb_lt; lia).
  f_equal. apply IH; rewrite length_skipn, length_app; lia.
Qed.

(** Every pattern of the program repeats sub-patterns of one character or
    more only, and matches one character or more itself. *)
Lemma program_patterns_productive :
  forallb (fun r => productive r && Nat.ltb 0 (minlen r))
          [pattern_12h_1; pattern_12h_2; pattern_24h_1; pattern_24h_2;
           pattern_24h_3; pattern_24h_4; pattern_iso; pattern_euro;
           generic_pattern; user_pattern; alt_pattern; phone_pattern]
  = true.
Proof. reflexivity. Qed.

(* ===================================================================== *)
(** ** Sender extraction: the name found is never empty *)
(* ===================================================================== *)

(** A pattern that opens with its one group: a match sets the group to the
    text the group's body took. *)
Lemma match_at_head_group (n : nat) (body rest : regex) (i : nat) (s : str)
      (m : rmatch) :
  groupless body = true -> groupless rest = true ->
  match_at (Seq (Grp n body) rest) i s = Some m ->
  exists w s', s = w ++ s' /\ minlen body <= length w /\ m_caps m = [(n, w)].
Proof.
  intros Hb Hr H. unfold match_at in H. simpl in H.
  apply exec_inv in H. destruct H as (w & s' & c' & -> & Hm & Hc & H).
  rewrite (Hc Hb) in H.
  apply exec_inv in H. destruct H as (w2 & s2 & c2 & -> & _ & Hc2 & H).
  rewrite (Hc2 Hr) in H. inversion H; subst; simpl.
  exists w, (w2 ++ s2). repeat split; auto.
  replace (i + length w - i) with (length w + 0) by lia.
  rewrite firstn_app_2. simpl. rewrite app_nil_r. reflexivity.
Qed.

(** The first element of [finditer] is what [search] finds. *)
Lemma finditer_head (r : regex) (text : str) (m : rmatch) (ms : list rmatch) :
  finditer r text = m :: ms -> search r text = Some m.
Proof.
  unfold finditer, search. simpl.
  destruct (search_from r 0 text); [|discriminate].
  intros H. inversion H. reflexivity.
Qed.

Lemma split_one_group (r : regex) (text : str) :
  match finditer r text with
  | [] => split 1 r text = [text]
  | m :: _ => nth 1 (split 1 r text) [] = group_text (m_caps m) 1
              /\ 1 < length (split 1 r text)
  end.
Proof.
  unfold split. destruct (finditer r text) as [|m ms]; simpl.
  - unfold slice. simpl. rewrite Nat.sub_0_r, firstn_all. reflexivity.
  - split; [reflexivity|]. lia.
Qed.

Lemma head_group_nonempty (n : nat) (body rest : regex) (text : str)
      (m : rmatch) (ms : list rmatch) :
  groupless body = true -> groupless rest = true -> 0 < minlen body ->
  finditer (Seq (Grp n body) rest) text = m :: ms ->
  exists w, group_text (m_caps m) n = w /\ w <> [].
Proof.
  intros Hb Hr Hlen H. apply finditer_head in H. unfold search in H.
  apply search_from_inv in H. destruct H as (pre & s1 & _ & _ & H).
  apply match_at_head_group in H; auto.
  destruct H as (w & s' & _ & Hw & Hc).
  exists w. unfold group_text. rewrite Hc. simpl. rewrite Nat.eqb_refl.
  split; [reflexivity|]. destruct w; [simpl in Hw; lia | discriminate].
Qed.

(** The group of the two sender patterns is set by every match (so
    [group_text] never meets an unset group there), and to a text that is
    not empty. *)
Lemma exec_sets_group (text : str) (m : rmatch) (ms : list rmatch) :
  finditer user_pattern text = m :: ms \/ finditer alt_pattern text = m :: ms ->
  exists w, group (m_caps m) 1 = Some w /\ w <> [].
Proof.
  intros [H|H]; apply finditer_head in H; unfold search in H;
    apply search_from_inv in H; destruct H as (pre & s1 & _ & _ & H);
    apply match_at_head_group in H; try reflexivity;
    destruct H as (w & s' & _ & Hw & Hc); exists w; rewrite Hc; simpl;
    (split; [reflexivity|]); destruct w; simpl in Hw; try lia; discriminate.
Qed.

(** What the extraction appends to [users] is never the empty string. *)
Lemma extract_user_sender_nonempty (message : str) :
  fst (extract_user message) <> [].
Proof.
  unfold extract_user.
  pose proof (split_one_group user_pattern message) as Hu.
  destruct (finditer user_pattern message) as [|m ms] eqn:Eu.
  - rewrite Hu. simpl.
    pose proof (split_one_group alt_pattern message) as Ha.
    destruct (finditer alt_pattern message) as [|m ms] eqn:Ea.
    + rewrite Ha. simpl. discriminate.
    + destruct Ha as [Ha1 Ha2]. apply Nat.ltb_lt in Ha2. rewrite Ha2. simpl.
      rewrite Ha1.
      destruct (@head_group_nonempty 1 (lazy_plus any)
                  (cat [space; oneof [chr "-"; EN_DASH; EM_DASH]; space])
                  message m ms)
        as (w & -> & Hw); auto.
  - destruct Hu as [Hu1 Hu2].
    destruct (split 1 user_pattern message) as [|e0 [|e1 entry]] eqn:Es;
      simpl in Hu2; try lia.
    simpl. simpl in Hu1. rewrite Hu1.
    destruct (@head_group_nonempty 1 (lazy_plus any) (cat [colon; space])
                message m ms)
      as (w & -> & Hw); auto.
Qed.


(* ===================================================================== *)
(** ** Phone prefixes: what [fix_phone] removes *)
(* ===================================================================== *)

Lemma is_space_cases (c : char) :
  is_space c = true ->
  In c [9; 10; 11; 12; 13; 28; 29; 30; 31; 32; 133; 160; 5760; 8192; 8193;
        8194; 8195; 8196; 8197; 8198; 8199; 8200; 8201; 8202; 8232; 8233;
        8239; 8287; 12288]%N.
Proof.
  unfold is_space, whitespace_table. simpl.
  rewrite !orb_true_iff, !andb_true_iff, !N.leb_le. simpl. lia.
Qed.

(** No character is both a decimal digit and white space. *)
Lemma digit_not_space (c : char) : is_digit c = true -> is_space c = false.
Proof.
  intros Hd. destruct (is_space c) eqn:Hs; [|reflexivity].
  apply is_space_cases in Hs. simpl in Hs.
  repeat (destruct Hs as [Hs|Hs]; [subst c; vm_compute in Hd; discriminate|]).
  contradiction.
Qed.

Lemma span_digits_app (t : str) :
  t = fst (span_digits t) ++ snd (span_digits t)
  /\ Forall (fun a => is_digit a = true) (fst (span_digits t)).
Proof.
  induction t as [|a t [IH1 IH2]]; simpl; auto.
  destruct (is_digit a) eqn:E; simpl; auto.
  destruct (span_digits t) as [ds r]. simpl in *. split; [congruence | auto].
Qed.

Section GreedyDigits.
Context {A : Type}.
Variable k : @kont A.
Hypothesis k_not_digit :
  forall i a s c, is_digit a = true -> k i (a :: s) c = None.

(** [\d*] before a pattern that cannot start with a digit takes every digit:
    giving one back does not help. *)
Lemma greedy_digits :
  forall t n i c,
    length t <= n ->
    rep_loop (exec digit) true n 0 i t c k
    = k (i + length (fst (span_digits t))) (snd (span_digits t)) c.
Proof.
  induction t as [|a t IH]; intros n i c Hn.
  - destruct n; simpl; rewrite Nat.add_0_r; [reflexivity|].
    destruct (k i [] c); reflexivity.
  - destruct n as [|n]; [simpl in Hn; lia|]. simpl in Hn. simpl.
    destruct (is_digit a) eqn:Ed.
    + rewrite IH by lia. destruct (span_digits t) as [ds r]. simpl.
      rewrite <- plus_n_Sm.
      destruct (k (S (i + length ds)) r c); [reflexivity|].
      apply k_not_digit. exact Ed.
    + simpl. rewrite Nat.add_0_r. destruct (k i (a :: t) c); reflexivity.
Qed.

Lemma greedy_digits_plus :
  forall t i c,
    rep_loop (exec digit) true (length t) 1 i t c k
    = match fst (span_digits t) with
      | [] => None
      | _ :: _ => k (i + length (fst (span_digits t))) (snd (span_digits t)) c
      end.
Proof.
  intros [|a t] i c; simpl; [reflexivity|].
  destruct (is_digit a) eqn:Ed; [|reflexivity].
  rewrite greedy_digits by lia. destruct (span_digits t) as [ds r]. simpl.
  rewrite <- plus_n_Sm. reflexivity.
Qed.
End GreedyDigits.

Lemma match_at_phone (s : str) :
  match_at phone_pattern 0 s = option_map (fun j => Match 0 j []) (phone_prefix s).
Proof.
  unfold match_at, phone_pattern, phone_prefix, cat, plus, lit, space.
  cbn [exec].
  destruct s as [|a t]; [reflexivity|].
  destruct (N.eqb (chr "+") a); [|reflexivity].
  unfold bound. rewrite greedy_digits_plus.
  - destruct (span_digits t) as [[|d ds] [|w r]]; cbn [fst snd]; try reflexivity.
    destruct (is_space w); reflexivity.
  - intros i b s0 c Hb. rewrite (digit_not_space _ Hb). reflexivity.
Qed.

Lemma search_from_bol (r : regex) :
  forall s i, 0 < i -> search_from (Seq Bol r) i s = None.
Proof.
  induction s as [|a s IH]; intros i Hi; simpl; unfold match_at; simpl;
    destruct i; try lia; auto.
Qed.

Lemma phone_prefix_bound (s : str) (j : nat) :
  phone_prefix s = Some j -> 2 <= j <= length s.
Proof.
  unfold phone_prefix. destruct s as [|a t]; [discriminate|].
  destruct (N.eqb _ a); [|discriminate].
  pose proof (span_digits_app t) as [Happ _].
  destruct (span_digits t) as [[|d ds] [|w r]]; try discriminate.
  destruct (is_space w); [|discriminate].
  intros H. injection H as <-. simpl in Happ. rewrite Happ. simpl.
  rewrite length_app. simpl. lia.
Qed.

(** [fix_phone] removes the prefix, when there is one, and nothing else. *)
Lemma fix_phone_spec (s : str) :
  fix_phone s = match phone_prefix s with
                | Some j => skipn j s
                | None => s
                end.
Proof.
  unfold fix_phone, sub, finditer.
  change (finditer_from (S (length s)) phone_pattern 0 s)
    with (match search_from phone_pattern 0 s with
          | None => []
          | Some m =>
              let j := if Nat.ltb (m_start m) (m_end m) then m_end m
                       else S (m_end m) in
              m :: finditer_from (length s) phone_pattern j (skipn (j - 0) s)
          end).
  assert (Hs : search_from phone_pattern 0 s = match_at phone_pattern 0 s).
  { destruct s as [|a t]; cbn [search_from];
      destruct (match_at phone_pattern 0 _); try reflexivity.
    apply (search_from_bol (cat [lit "+"; plus digit; space])). lia. }
  rewrite Hs, match_at_phone.
  destruct (phone_prefix s) as [j|] eqn:Ep; simpl.
  - apply phone_prefix_bound in Ep.
    replace (Nat.ltb 0 j) with true by (symmetry; apply Nat.ltb_lt; lia).
    destruct (length s) as [|f] eqn:El; [lia|]. simpl.
    rewrite (search_from_bol (cat [lit "+"; plus digit; space])) by lia.
    simpl. unfold slice. simpl. rewrite firstn_all2; [reflexivity|].
    rewrite length_skipn. lia.
  - unfold slice. simpl. rewrite Nat.sub_0_r, firstn_all. reflexivity.
Qed.

Lemma skipn_past (ds : str) (w : char) (r : str) :
  skipn (S (length ds)) (ds ++ w :: r) = r.
Proof. induction ds as [|d ds IH]; [reflexivity | exact IH]. Qed.

Lemma fix_phone_empty (s : str) :
  fix_phone s = [] <-> s = [] \/ phone_prefix_only s.
Proof.
  rewrite fix_phone_spec. unfold phone_prefix, phone_prefix_only. split.
  - destruct s as [|a t]; [auto|].
    destruct (N.eqb_spec (chr "+") a) as [<-|]; [|discriminate].
    pose proof (span_digits_app t) as [Happ Hds].
    destruct (span_digits t) as [[|d ds] [|w r]]; try discriminate.
    destruct (is_space w) eqn:Ew; [|discriminate].
    cbn [fst snd] in Happ, Hds. intros H. right. exists (d :: ds), w.
    assert (r = []) as ->.
    { rewrite Happ in H. cbn [length Nat.add skipn] in H.
      rewrite <- H. symmetry. apply (skipn_past (d :: ds)). }
    split; [rewrite Happ; reflexivity|]. split; [discriminate|].
    split; assumption.
  - intros [->|(ds & w & -> & Hne & Hds & Hw)]; [reflexivity|].
    rewrite N.eqb_refl.
    assert (Hspan : span_digits (ds ++ [w]) = (ds, [w])).
    { clear Hne. induction Hds as [|d ds Hd _ IH]; simpl.
      - destruct (is_digit w) eqn:E; [|reflexivity].
        apply digit_not_space in E. congruence.
      - rewrite Hd, IH. reflexivity. }
    rewrite Hspan. destruct ds as [|d ds]; [congruence|]. rewrite Hw.
    cbn [length Nat.add skipn]. apply (skipn_past (d :: ds)).
Qed.

(* ===================================================================== *)
(** ** The sample handed to detection *)
(* ===================================================================== *)

Section Lines.
Variable sep : char.

Lemma split_char_cons (s : str) : exists w ws, split_char sep s = w :: ws.
Proof.
  induction s as [|c s (w & ws & IH)]; simpl; eauto.
  destruct (N.eqb c sep); eauto. rewrite IH. eauto.
Qed.

Lemma split_char_sep_free (s : str) : Forall (sep_free sep) (split_char sep s).
Proof.
  induction s as [|c s IH]; simpl.
  - repeat constructor. intros [].
  - destruct (N.eqb_spec c sep) as [->|Hc].
    + constructor; auto. intros [].
    + destruct (split_char sep s) as [|w ws]; repeat constructor.
      * intros [H|[]]. congruence.
      * inversion IH; subst. intros [H|H]; [congruence | contradiction].
      * inversion IH; auto.
Qed.

Lemma split_char_line (x : str) : sep_free sep x -> split_char sep x = [x].
Proof.
  induction x as [|c x IH]; intros H; simpl; [reflexivity|].
  destruct (N.eqb_spec c sep) as [->|Hc]; [exfalso; apply H; left; reflexivity|].
  rewrite IH; [reflexivity|]. intros Hin. apply H. right. exact Hin.
Qed.

Lemma split_char_app (x rest : str) :
  sep_free sep x -> split_char sep (x ++ sep :: rest) = x :: split_char sep rest.
Proof.
  induction x as [|c x IH]; intros H; simpl.
  - rewrite N.eqb_refl. reflexivity.
  - destruct (N.eqb_spec c sep) as [->|Hc]; [exfalso; apply H; left; reflexivity|].
    rewrite IH; [reflexivity|]. intros Hin. apply H. right. exact Hin.
Qed.

(** Splitting what was joined gives the lines back. *)
Lemma split_char_join (ls : list str) :
  ls <> [] -> Forall (sep_free sep) ls -> split_char sep (join [sep] ls) = ls.
Proof.
  induction ls as [|x ls IH]; intros Hne H; [congruence|].
  inversion H as [|? ? Hx Hls]; subst. destruct ls as [|y ls].
  - simpl. apply split_char_line. exact Hx.
  - change (join [sep] (x :: y :: ls)) with (x ++ sep :: join [sep] (y :: ls)).
    rewrite split_char_app by exact Hx. rewrite IH; auto. discriminate.
Qed.

Lemma join_cons_char (c : char) (w : str) (ws : list str) :
  join [sep] ((c :: w) :: ws) = c :: join [sep] (w :: ws).
Proof. destruct ws; reflexivity. Qed.

(** The first [k] lines, joined, are a prefix of the text. *)
Lemma join_firstn_prefix (s : str) :
  forall k, exists rest, s = join [sep] (firstn k (split_char sep s)) ++ rest.
Proof.
  induction s as [|c s IH]; intros k.
  - exists []. destruct k as [|[|k]]; reflexivity.
  - destruct k as [|k]; [exists (c :: s); reflexivity|]. simpl.
    destruct (N.eqb_spec c sep) as [->|Hc].
    + destruct (IH k) as (rest & Hrest). simpl.
      destruct (firstn k (split_char sep s)) as [|l ls] eqn:E.
      * exists (sep :: s). reflexivity.
      * exists rest. simpl. f_equal. exact Hrest.
    + destruct (IH (S k)) as (rest & Hrest).
      destruct (split_char sep s) as [|w ws].
      * exists s. rewrite firstn_nil. reflexivity.
      * exists rest. simpl firstn in *. rewrite join_cons_char. simpl.
        f_equal. exact Hrest.
Qed.

(** Joining the lines of a text gives the text back. *)
Lemma join_split_char (s : str) : join [sep] (split_char sep s) = s.
Proof.
  induction s as [|c s IH]; [reflexivity|]. simpl.
  destruct (split_char_cons s) as (w & ws & E). rewrite E in *.
  destruct (N.eqb_spec c sep) as [->|Hc].
  - change (join [sep] ([] :: w :: ws)) with (sep :: join [sep] (w :: ws)).
    rewrite IH. reflexivity.
  - rewrite join_cons_char, IH. reflexivity.
Qed.
End Lines.

Lemma In_firstn {A : Type} (x : A) :
  forall n l, In x (firstn n l) -> In x l.
Proof.
  induction n as [|n IH]; intros [|y l] H; simpl in *; try contradiction.
  destruct H as [H|H]; auto.
Qed.

(** The sample is a prefix of the transcript and has ten lines at most. *)
Lemma sample_data_prefix (data : str) :
  exists rest, data = sample_data data ++ rest.
Proof. apply join_firstn_prefix. Qed.

Lemma sample_data_lines (data : str) :
  split_char NL (sample_data data) = firstn 10 (split_char NL data).
Proof.
  unfold sample_data. apply split_char_join.
  - destruct (split_char_cons NL data) as (w & ws & ->). discriminate.
  - apply Forall_forall. intros l Hl. apply In_firstn in Hl.
    pose proof (split_char_sep_free NL data) as H.
    rewrite Forall_forall in H. auto.
Qed.

(** A transcript of ten lines or fewer is its own sample. *)
Lemma sample_data_short (data : str) :
  length (split_char NL data) <= 10 -> sample_data data = data.
Proof.
  intros H. unfold sample_data. rewrite firstn_all2 by exact H.
  apply join_split_char.
Qed.

(* ===================================================================== *)
(** ** Format detection *)
(* ===================================================================== *)

(** The loop over the catalog stops at the first grammar whose pattern is
    found in the sample. *)
Lemma first_match_spec (sample : str) (catalog : list grammar) :
  match first_match catalog sample with
  | Some g =>
      exists before after,
        catalog = before ++ g :: after
        /\ search (g_pattern g) sample <> None
        /\ Forall (no_match sample) before
  | None => Forall (no_match sample) catalog
  end.
Proof.
  induction catalog as [|g rest IH]; simpl; [constructor|].
  destruct (search (g_pattern g) sample) eqn:E.
  - exists [], rest. repeat split; auto. congruence.
  - destruct (first_match rest sample) as [g'|].
    + destruct IH as (before & after & -> & Hg & Hb).
      exists (g :: before), after. repeat split; auto.
    + constructor; auto.
Qed.

(** C1. Detection looks at the first ten lines and at nothing else: the
    lines of the sample are exactly the first ten lines of the transcript
    (all of them when there are ten or fewer, and then the sample is the
    transcript), and the sample is a prefix of the transcript. Detection
    takes the first grammar of the catalog whose pattern is found somewhere
    in the sample, showing the success message; when no pattern of the
    catalog is found it takes the pattern and the template of the catalog's
    first entry, US 12-hour with comma, as a fallback and shows a warning:
    it does not fail. *)
Theorem detect_format_first_match_wins (data : str) (log : list st_event) :
  split_char NL (sample_data data) = firstn 10 (split_char NL data)
  /\ (length (split_char NL data) <= 10 -> sample_data data = data)
  /\ (exists rest, data = sample_data data ++ rest)
  /\ length (split_char NL (sample_data data)) <= 10
  /\ ((exists before g after,
         date_patterns = before ++ g :: after
         /\ search (g_pattern g) (sample_data data) <> None
         /\ Forall (no_match (sample_data data)) before
         /\ detect_format data log
            = (Normal g, log ++ [st_success uploaded]))
      \/ (Forall (no_match (sample_data data)) date_patterns
          /\ detect_format data log
             = (Normal generic_fallback, log ++ [st_warning unrecognized_warning])
          /\ g_pattern generic_fallback = g_pattern (hd generic_fallback date_patterns)
          /\ g_format generic_fallback = g_format (hd generic_fallback date_patterns)
          /\ g_name (hd generic_fallback date_patterns) = "US 12h comma"%string)).
Proof.
  split; [apply sample_data_lines|]. split; [apply sample_data_short|].
  split; [apply sample_data_prefix|]. split.
  - rewrite sample_data_lines. apply firstn_le_length.
  - unfold detect_format.
    pose proof (first_match_spec (sample_data data) date_patterns) as H.
    destruct (first_match date_patterns (sample_data data)) as [g|].
    + left. destruct H as (before & after & Hcat & Hg & Hb).
      exists before, g, after. repeat split; auto.
    + right. repeat split; auto.
Qed.

Lemma detect_format_first_match_wins_witness :
  length (split_char NL Runs.two_messages) <= 10
  /\ sample_data Runs.two_messages = Runs.two_messages
  /\ length (split_char NL late_dates) = 13
  /\ split_char NL (sample_data late_dates)
     = firstn 10 (split_char NL late_dates)
  /\ detect_format late_dates []
     = (Normal generic_fallback, [st_warning unrecognized_warning]).
Proof.
  assert (H : length (split_char NL Runs.two_messages) <= 10)
    by (vm_compute; repeat constructor).
  split; [exact H|].
  split; [exact (proj1 (proj2 (detect_format_first_match_wins
                                 Runs.two_messages [])) H)|].
  split; [vm_compute; reflexivity|].
  split; [exact (proj1 (detect_format_first_match_wins late_dates []))|].
  destruct (detect_format_first_match_wins late_dates [])
    as (_ & _ & _ & _ & [(before & g & after & _ & _ & _ & E)|(_ & E & _)]).
  - exfalso. revert E. unfold detect_format.
    replace (first_match date_patterns (sample_data late_dates)) with (@None grammar)
      by (vm_compute; reflexivity).
    discriminate.
  - exact E.
Defined.

(* ===================================================================== *)
(** ** Period buckets *)
(* ===================================================================== *)

(** The code tests the hours in another order than the table; the tests
    exclude each other, so the order does not show. *)
Lemma period_of_hour_table (h : Z) : period_of_hour h = period_bucket_table h.
Proof.
  unfold period_of_hour, period_bucket_table.
  destruct (Z.eqb_spec h 11) as [->|H11]; [reflexivity|].
  destruct (Z.eqb_spec h 23) as [->|H23]; [reflexivity|].
  destruct (Z.eqb_spec h 0) as [->|H0]; [reflexivity|].
  destruct (Z.eqb_spec h 12) as [->|H12]; reflexivity.
Qed.

(** C4. On every hour from 0 to 23 the period label is the one of the
    table: the label is defined there, at the four boundary hours it is
    "12AM-1AM", "11AM-12PM", "12PM-1PM" and "11PM-12AM", below 11 it is
    "{h}AM-{h+1}AM" and otherwise "{h-12}PM-{h-11}PM". *)
Theorem period_bucket_total_and_correct (h : Z) :
  (0 <= h <= 23)%Z ->
  period_of (Some h) = period_bucket_table h
  /\ period_of (Some h) = nth (Z.to_nat h) period_labels []
  /\ period_of (Some 0%Z) = u "12AM-1AM"
  /\ period_of (Some 11%Z) = u "11AM-12PM"
  /\ period_of (Some 12%Z) = u "12PM-1PM"
  /\ period_of (Some 23%Z) = u "11PM-12AM".
Proof.
  intros Hh. split; [apply period_of_hour_table|].
  split; [|repeat split; reflexivity].
  assert (Hcases : In h [0; 1; 2; 3; 4; 5; 6; 7; 8; 9; 10; 11; 12; 13; 14; 15;
                         16; 17; 18; 19; 20; 21; 22; 23]%Z) by (simpl; lia).
  simpl in Hcases.
  repeat (destruct Hcases as [<-|Hcases]; [reflexivity|]). contradiction.
Qed.

Lemma period_bucket_total_and_correct_witness :
  (0 <= 14 <= 23)%Z /\ period_of (Some 14%Z) = u "2PM-3PM".
Proof.
  split; [lia|].
  destruct (period_bucket_total_and_correct (h := 14)) as (_ & H & _);
    [lia | exact H].
Defined.

(* ===================================================================== *)
(** ** Phone-number normalisation on the specification's example *)
(* ===================================================================== *)

(** C7 as stated fails: the name taken from the line
    "+1 555 1234 Alice: hi" does not become "Alice". *)
Lemma phone_example_is_not_Alice :
  fix_phone (fst (extract_user (u "+1 555 1234 Alice: hi"))) <> u "Alice".
Proof. vm_compute. discriminate. Qed.

(** C7, amended. The name taken from the line "+1 555 1234 Alice: hi" is
    "+1 555 1234 Alice"; removing the leading [+], digits and one white
    space character removes "+1 " only and leaves "555 1234 Alice". In
    general the normalisation removes exactly that prefix: a [+], all the
    digits that follow it (one at least) and the one white space character
    after them. *)
Theorem phone_example_keeps_the_number :
  fst (extract_user (u "+1 555 1234 Alice: hi")) = u "+1 555 1234 Alice"
  /\ fix_phone (u "+1 555 1234 Alice") = u "555 1234 Alice"
  /\ forall name,
       fix_phone name = match phone_prefix name with
                        | Some j => skipn j name
                        | None => name
                        end.
Proof.
  split; [vm_compute; reflexivity|]. split; [vm_compute; reflexivity|].
  exact fix_phone_spec.
Qed.

(* ===================================================================== *)
(** ** Sender and body on a body with two colons *)
(* ===================================================================== *)

(** C3. On the body "Alice: note: hi" the sender is "Alice", and the text
    appended to [messages] is " note hi": the remainder "note: hi" is cut
    again at its own colon, the pieces are joined by spaces, and the colon is
    lost; the record of the returned dataset carries that body. The same
    happens to the second dash of "Bob - a - b". A body without a second
    delimiter keeps its remainder, and a body with no delimiter is a
    [group_notification] with the trimmed line. *)
Theorem extract_user_cuts_the_remainder :
  extract_user (u "Alice: note: hi") = (u "Alice", u " note hi")
  /\ snd (extract_user (u "Alice: note: hi")) <> u "note: hi"
  /\ (exists r1 r2,
        preprocess SampleRuntime.sample Runs.two_colons []
        = (Returns (Some [r1; r2]), [st_success uploaded])
        /\ user r1 = u "Alice" /\ message r1 = u " note hi" ++ [NL])
  /\ extract_user (u "Bob - a - b") = (u "Bob", u " a b")
  /\ extract_user (u "Alice: hi") = (u "Alice", u "hi")
  /\ extract_user (u "Bob - hi") = (u "Bob", u "hi")
  /\ extract_user (u "  Bob joined  ") = (u "group_notification", u "Bob joined").
Proof.
  split; [vm_compute; reflexivity|]. split; [vm_compute; discriminate|].
  split; [eexists; eexists; vm_compute; repeat split; reflexivity|].
  repeat split; vm_compute; reflexivity.
Qed.

(* ===================================================================== *)
(** ** Date parsing *)
(* ===================================================================== *)

Section DateParsing.
Variable rt : runtime.

Lemma to_datetime_spec (date_format : string) (col : list str) :
  match to_datetime rt date_format col with
  | Some ds => reads_all rt date_format col = true
               /\ map Some ds = map (strptime rt date_format) col
  | None => reads_all rt date_format col = false
  end.
Proof.
  induction col as [|x col IH]; simpl; [auto|].
  destruct (strptime rt date_format x) as [d|] eqn:E; simpl; [|reflexivity].
  destruct (to_datetime rt date_format col) as [ds|]; [|exact IH].
  destruct IH as [IH1 IH2]. simpl. rewrite IH2. auto.
Qed.

Lemma try_formats_spec (col : list str) (catalog : list grammar) :
  match try_formats rt catalog col with
  | Some ds =>
      exists g, find (fun g => reads_all rt (g_format g) col) catalog = Some g
                /\ map Some ds = map (strptime rt (g_format g)) col
  | None => find (fun g => reads_all rt (g_format g) col) catalog = None
  end.
Proof.
  induction catalog as [|g rest IH]; simpl; [reflexivity|].
  pose proof (to_datetime_spec (g_format g) col) as H.
  destruct (to_datetime rt (g_format g) col) as [ds|].
  - destruct H as [H1 H2]. rewrite H1. eauto.
  - rewrite H. exact IH.
Qed.

Lemma set_dates (read : str -> option datetime) (df : list (str * str)) :
  forall ds,
    map Some ds = map read (map snd df) ->
    map (fun p => set_date (fst p) (Some (snd p))) (combine df ds)
    = map (fun r => set_date r (read (snd r))) df.
Proof.
  induction df as [|r df IH]; intros [|d ds] H; simpl in *; try discriminate;
    [reflexivity|].
  injection H as H1 H2. rewrite <- H1, IH by exact H2. reflexivity.
Qed.

Lemma dropna_date_map (read : str -> option datetime) (df : list (str * str)) :
  dropna_date (map (fun r => set_date r (read (snd r))) df)
  = map (fun r => set_date r (read (snd r)))
        (filter (fun r => is_some (read (snd r))) df).
Proof.
  induction df as [|r df IH]; simpl; [reflexivity|].
  destruct (read (snd r)) eqn:E; simpl; rewrite ?E, IH; reflexivity.
Qed.

Lemma is_empty_length {A : Type} (l : list A) :
  Nat.eqb (length l) 0 = is_empty l.
Proof. destruct l; reflexivity. Qed.

Lemma is_empty_map {A B : Type} (f : A -> B) (l : list A) :
  is_empty (map f l) = is_empty l.
Proof. destruct l; reflexivity. Qed.

(** The date parser, stage by stage, does what its contract says. *)
Lemma parse_dates_run (df : list (str * str))
        (log : list st_event) :
  parse_dates rt df log = parse_dates_contract rt df log.
Proof.
  unfold parse_dates, parse_dates_contract, bind.
  pose proof (try_formats_spec (map snd df) date_patterns) as H.
  destruct (try_formats rt date_patterns (map snd df)) as [ds|].
  - destruct H as (g & -> & Hds). unfold ret. simpl negb. simpl orb.
    rewrite (set_dates (strptime rt (g_format g)) df ds Hds).
    rewrite is_empty_length, is_empty_map.
    destruct (is_empty df); reflexivity.
  - rewrite H. destruct (to_datetime_coerce rt (map snd df)) as [e|read].
    + reflexivity.
    + unfold ret. rewrite dropna_date_map.
      set (kept := filter (fun r => is_some (read (snd r))) df).
      rewrite is_empty_length, is_empty_map, length_map.
      destruct kept; reflexivity.
Qed.

(** C2. The date parser tries the templates of the whole catalog in the
    catalog's order and the first one that reads every fragment of the
    column gives the dates; when no template reads the whole column the
    flexible interpreter is used, a fragment it cannot read becomes null and
    its row is dropped; when no row is left (an empty column included) the
    parser shows a diagnostic and the function returns the failure value. *)
Theorem parse_dates_first_full_template (df : list (str * str))
        (log : list st_event) :
  parse_dates rt df log = parse_dates_contract rt df log.
Proof. exact (parse_dates_run df log). Qed.

(** What comes out of the date parser: rows, one at least, each with its
    date; or the failure value after a diagnostic. It does not raise. *)
Lemma parse_dates_outcome (df : list (str * str)) (log : list st_event) :
  match parse_dates rt df log with
  | (Normal rows, log') =>
      log' = log /\ rows <> []
      /\ Forall (fun r => raw_date r <> None) rows
  | (Return v, log') => v = None /\ exists msg, log' = log ++ [st_error msg]
  | (Raise _, _) => False
  end.
Proof.
  rewrite parse_dates_run. unfold parse_dates_contract.
  destruct (find _ date_patterns) as [g|] eqn:Ef.
  - destruct df as [|r df]; simpl is_empty; cbv iota; [eauto|].
    split; [reflexivity|]. split; [discriminate|].
    apply find_some in Ef. destruct Ef as [_ Hall]. unfold reads_all in Hall.
    rewrite forallb_forall in Hall. apply Forall_forall.
    intros x Hx. apply in_map_iff in Hx. destruct Hx as (p & <- & Hp).
    simpl. specialize (Hall (snd p) (in_map snd _ _ Hp)).
    destruct (strptime rt (g_format g) (snd p)); [discriminate|discriminate].
  - destruct (to_datetime_coerce rt (map snd df)) as [e|read]; [eauto|].
    cbv zeta.
    destruct (filter (fun r => is_some (read (snd r))) df) as [|r kept] eqn:Ek;
      simpl is_empty; cbv iota; [eauto|].
    split; [reflexivity|]. split; [discriminate|].
    apply Forall_forall. intros x Hx. apply in_map_iff in Hx.
    destruct Hx as (p & <- & Hp). rewrite <- Ek in Hp.
    apply filter_In in Hp. destruct Hp as [_ Hp]. simpl.
    destruct (read (snd p)); [discriminate|discriminate].
Qed.

End DateParsing.

(* ===================================================================== *)
(** ** Message extraction *)
(* ===================================================================== *)

Lemma detect_format_run (data : str) (log : list st_event) :
  detect_format data log = (Normal (detected data), log ++ [detection_message data]).
Proof.
  unfold detect_format, detected, detection_message.
  destruct (first_match date_patterns (sample_data data)); reflexivity.
Qed.

Lemma split_pieces_length (text : str) (ms : list rmatch) :
  forall pos, length (split_pieces 0 text pos ms) = S (length ms).
Proof. induction ms as [|m ms IH]; intros pos; simpl; auto. Qed.

(** The pattern cuts the text into one message per date found. *)
Lemma split_findall_length (r : regex) (data : str) :
  length (tl (split 0 r data)) = length (findall r data).
Proof.
  unfold split, findall. rewrite length_map.
  pose proof (split_pieces_length data (finditer r data) 0) as H.
  destruct (split_pieces 0 data 0 (finditer r data)); simpl in *; lia.
Qed.

Lemma split_blocks_length (message_blocks : list str) :
  length (fst (split_blocks message_blocks))
  = length (snd (split_blocks message_blocks)).
Proof.
  induction message_blocks as [|b bs IH]; simpl; [reflexivity|].
  destruct (split_blocks bs) as [ds ms]. simpl in IH.
  destruct (split_once (u " - ") b) as [|p0 [|p1 [|p2 ps]]]; simpl; auto.
Qed.

Lemma strip_prefix_Some (p : str) : forall s rest,
  strip_prefix p s = Some rest -> s = p ++ rest.
Proof.
  induction p as [|x p IH]; intros s rest H.
  - destruct s; simpl in H; injection H as <-; reflexivity.
  - destruct s as [|y s]; simpl in H; [discriminate|].
    destruct (N.eqb_spec x y) as [->|]; [|discriminate].
    simpl. f_equal. auto.
Qed.

(** [split_once] cuts at the first occurrence of the separator, and only
    returns the text whole when the separator does not occur. *)
Lemma split_once_spec (sep : str) :
  forall s,
    (exists a b, split_once sep s = [a; b] /\ first_cut sep s a b)
    \/ (split_once sep s = [s]
        /\ forall n, n <= length s -> strip_prefix sep (skipn n s) = None).
Proof.
  induction s as [|c s IH].
  - simpl. destruct (strip_prefix sep []) as [rest|] eqn:E.
    + left. exists [], rest. split; [reflexivity|]. split.
      * apply strip_prefix_Some in E. exact E.
      * simpl. intros n Hn. lia.
    + right. split; [reflexivity|]. intros [|n] Hn; simpl in *; [exact E | lia].
  - cbn [split_once]. destruct (strip_prefix sep (c :: s)) as [rest|] eqn:E.
    + left. exists [], rest. split; [reflexivity|]. split.
      * apply strip_prefix_Some in E. exact E.
      * simpl. intros n Hn. lia.
    + destruct IH as [(a & b & -> & Hs & Hfirst)|[-> Hnone]].
      * left. exists (c :: a), b. split; [reflexivity|]. split.
        -- simpl. f_equal. exact Hs.
        -- intros [|n] Hn; [exact E|]. simpl in *. apply Hfirst. lia.
      * right. split; [destruct s; reflexivity|].
        intros [|n] Hn; [exact E|]. simpl in *. apply Hnone. lia.
Qed.

Lemma split_blocks_spec (message_blocks : list str) :
  split_blocks message_blocks
  = (map (fun ab => fst ab ++ u " - ") (cut_blocks message_blocks),
     map snd (cut_blocks message_blocks)).
Proof.
  induction message_blocks as [|b bs IH]; simpl; [reflexivity|].
  rewrite IH.
  destruct (split_once (u " - ") b) as [|p0 [|p1 [|p2 ps]]]; reflexivity.
Qed.

(** What the extraction stage does. *)
Lemma extract_messages_run (detected_pattern : regex) (data : str)
      (log : list st_event) :
  extract_messages detected_pattern data log =
  if primary_empty detected_pattern data then
    if is_empty (findall generic_pattern data)
    then (Return None, log ++ [st_error no_messages])
    else (Normal (map snd (cut_blocks (findall generic_pattern data)),
                  map (fun ab => fst ab ++ u " - ")
                      (cut_blocks (findall generic_pattern data))),
          log ++ [st_error no_messages])
  else (Normal (tl (split 0 detected_pattern data), findall detected_pattern data),
        log).
Proof.
  unfold extract_messages, primary_empty.
  destruct (is_empty (tl (split 0 detected_pattern data))
            || is_empty (findall detected_pattern data)); [|reflexivity].
  unfold bind, show. cbv iota beta.
  destruct (is_empty (findall generic_pattern data)); [reflexivity|].
  rewrite split_blocks_spec. reflexivity.
Qed.

Lemma extract_messages_outcome (detected_pattern : regex) (data : str)
      (log : list st_event) :
  match extract_messages detected_pattern data log with
  | (Normal md, log') =>
      length (fst md) = length (snd md)
      /\ (log' = log \/ log' = log ++ [st_error no_messages])
  | (Return v, log') => v = None /\ log' = log ++ [st_error no_messages]
  | (Raise _, _) => False
  end.
Proof.
  rewrite extract_messages_run.
  destruct (primary_empty detected_pattern data).
  - destruct (is_empty (findall generic_pattern data)); [auto|].
    simpl. rewrite !length_map. auto.
  - simpl. split; [apply split_findall_length | auto].
Qed.

(* ===================================================================== *)
(** ** The whole function *)
(* ===================================================================== *)

Section Pipeline.
Variable rt : runtime.

Lemma DataFrame_run (messages dates : list str) (log : list st_event) :
  length messages = length dates ->
  DataFrame messages dates log = (Normal (combine messages dates), log).
Proof. intros H. unfold DataFrame. rewrite H, Nat.eqb_refl. reflexivity. Qed.

(** The frame that reaches validation has a row at least, every row built
    from a message and its date; otherwise the function has returned the
    failure value after a diagnostic. The [try] body does not raise. *)
Lemma build_frame_outcome (data : str) (log : list st_event) :
  match build_frame rt data log with
  | (Normal frame, log') =>
      exists rows, frame = map build_row rows /\ rows <> []
                   /\ Forall (fun r => raw_date r <> None) rows
  | (Return v, log') =>
      v = None /\ exists before msg, log' = before ++ [st_error msg]
  | (Raise _, _) => False
  end.
Proof.
  unfold build_frame, bind. rewrite detect_format_run.
  pose proof (extract_messages_outcome (g_pattern (detected data)) data
                (log ++ [detection_message data])) as He.
  destruct (extract_messages _ data _) as [[md|v|e] log1]; [| |contradiction].
  - destruct He as [Hlen _]. rewrite (DataFrame_run _ _ _ Hlen).
    pose proof (parse_dates_outcome rt (combine (fst md) (snd md)) log1) as Hp.
    destruct (parse_dates rt _ log1) as [[rows|v|e] log2]; [| |contradiction].
    + destruct Hp as (_ & Hne & Hall). exists rows. auto.
    + destruct Hp as (-> & msg & ->). eauto.
  - destruct He as (-> & ->). eauto.
Qed.

(** The function, by the outcome of sections 2 to 9. *)
Lemma preprocess_run (data : str) (log : list st_event) :
  preprocess rt data log =
  match build_frame rt data log with
  | (Normal frame, log1) =>
      if Nat.ltb (length (dropna frame)) 2
      then (Returns None, log1 ++ [st_error too_few])
      else (Returns (Some (dropna frame)), log1)
  | (Return v, log1) => (Returns v, log1)
  | (Raise e, log1) =>
      (Returns None,
       (log1 ++ [st_error ("Error processing chat: " ++ exn_str e)%string])
         ++ [st_error ("Detailed error: " ++ format_exc rt e)%string])
  end.
Proof.
  unfold preprocess, call, try_except, preprocess_try, bind.
  destruct (build_frame rt data log) as [[frame|v|e] log1]; try reflexivity.
  unfold validate, bind, show, return_.
  destruct (Nat.ltb (length (dropna frame)) 2); reflexivity.
Qed.

(** A returned dataset is the validated frame. *)
Lemma preprocess_returns_frame (data : str) (log log' : list st_event)
      (df : dataframe) :
  preprocess rt data log = (Returns (Some df), log') ->
  exists rows,
    build_frame rt data log = (Normal (map build_row rows), log')
    /\ df = dropna (map build_row rows) /\ 2 <= length df.
Proof.
  rewrite preprocess_run. pose proof (build_frame_outcome data log) as Hb.
  destruct (build_frame rt data log) as [[frame|v|e] log1].
  - destruct Hb as (rows & -> & _).
    destruct (Nat.ltb_spec (length (dropna (map build_row rows))) 2) as [Hlt|Hge];
      intros H; inversion H; subst. eauto.
  - destruct Hb as (-> & _). discriminate.
  - discriminate.
Qed.

(** C5. A transcript whose frame keeps exactly one row at validation fails:
    the function shows "Too few valid messages ..." and returns the failure
    value; one that keeps exactly two rows succeeds with these two rows; and
    a dataset the function returns has two rows at least. *)
Theorem minimum_viable_data (data : str) (log : list st_event) :
  (forall frame log1,
      build_frame rt data log = (Normal frame, log1) ->
      (length (dropna frame) = 1 ->
       preprocess rt data log = (Returns None, log1 ++ [st_error too_few]))
      /\ (length (dropna frame) = 2 ->
          preprocess rt data log = (Returns (Some (dropna frame)), log1)))
  /\ (forall df log',
         preprocess rt data log = (Returns (Some df), log') -> 2 <= length df).
Proof.
  split.
  - intros frame log1 H. rewrite preprocess_run, H.
    split; intros ->; reflexivity.
  - intros df log' H. apply preprocess_returns_frame in H.
    destruct H as (rows & _ & _ & H). exact H.
Qed.

(** C9, amended. In every record of a returned dataset the timestamp is not
    null (validation drops the rows whose date is [NaT]), the hour is the
    timestamp's and the period label is the one of that hour; the body is a
    string, which may be empty. *)
Theorem validated_records_have_timestamps (data : str)
        (log log' : list st_event) (df : dataframe) :
  preprocess rt data log = (Returns (Some df), log') ->
  Forall (fun r => exists d, date r = Some d
                             /\ hour r = Some (dt_hour d)
                             /\ period r = period_of_hour (dt_hour d)) df.
Proof.
  intros H. apply preprocess_returns_frame in H.
  destruct H as (rows & _ & -> & _). apply Forall_forall. intros r Hr.
  unfold dropna in Hr. apply filter_In in Hr. destruct Hr as [Hr Hd].
  apply in_map_iff in Hr. destruct Hr as (raw & <- & _).
  unfold build_row in *. destruct (extract_user (user_message raw)). simpl in *.
  destruct (raw_date raw) as [d|]; [|discriminate]. exists d. auto.
Qed.

(** C10. Every call returns: a dataset or the failure value, never an
    exception. Whatever raises inside the [try] is handled by showing two
    error messages and returning the failure value. *)
Theorem preprocess_never_propagates (data : str) (log : list st_event) :
  (exists v log', preprocess rt data log = (Returns v, log'))
  /\ preprocess rt data log
     = call (try_except (preprocess_try rt data) (preprocess_except rt)) log
  /\ (forall (body : M unit) e log1,
         body log = (Raise e, log1) ->
         call (try_except body (preprocess_except rt)) log
         = (Returns None,
            (log1 ++ [st_error ("Error processing chat: " ++ exn_str e)%string])
              ++ [st_error ("Detailed error: " ++ format_exc rt e)%string]))
  /\ (forall (body : M unit),
         exists v log', call (try_except body (preprocess_except rt)) log
                        = (Returns v, log')).
Proof.
  split; [|split; [reflexivity|split]].
  - rewrite preprocess_run.
    destruct (build_frame rt data log) as [[frame|v|e] log1]; eauto.
    destruct (Nat.ltb (length (dropna frame)) 2); eauto.
  - intros body e log1 H. unfold call, try_except. rewrite H. reflexivity.
  - intros body. unfold call, try_except.
    destruct (body log) as [[[]|v|e] log1]; simpl; eauto.
Qed.

End Pipeline.

(* ===================================================================== *)
(** ** Extraction failure *)
(* ===================================================================== *)

Lemma cut_blocks_In (message_blocks : list str) (a b : str) :
  In (a, b) (cut_blocks message_blocks) ->
  exists block, In block message_blocks /\ first_cut (u " - ") block a b.
Proof.
  unfold cut_blocks. intros H. apply in_flat_map in H.
  destruct H as (block & Hin & H). exists block. split; [exact Hin|].
  destruct (split_once_spec (u " - ") block)
    as [(a' & b' & E & Hcut)|[E _]]; rewrite E in H.
  - destruct H as [H|[]]. injection H as <- <-. exact Hcut.
  - destruct H.
Qed.

Lemma strip_prefix_app (sep rest : str) :
  strip_prefix sep (sep ++ rest) = Some rest.
Proof.
  induction sep as [|x sep IH]; simpl; [destruct rest; reflexivity|].
  rewrite N.eqb_refl. exact IH.
Qed.

Lemma skipn_length_app {A : Type} (a b : list A) : skipn (length a) (a ++ b) = b.
Proof. induction a as [|x a IH]; [reflexivity | exact IH]. Qed.

Lemma app_same_length {A : Type} (a a' b b' : list A) :
  length a = length a' -> a ++ b = a' ++ b' -> a = a' /\ b = b'.
Proof.
  revert a'. induction a as [|x a IH]; intros [|x' a'] Hl H; simpl in *;
    try discriminate; [auto|].
  injection H as -> H. injection Hl as Hl.
  destruct (IH _ Hl H) as [-> ->]. auto.
Qed.

(** The first place where a separator stands is one place. *)
Lemma first_cut_unique (sep s a b a' b' : str) :
  first_cut sep s a b -> first_cut sep s a' b' -> a = a' /\ b = b'.
Proof.
  intros [Hs Hfirst] [Hs' Hfirst'].
  assert (Hlen : length a = length a').
  { destruct (Nat.lt_trichotomy (length a) (length a')) as [Hlt|[Heq|Hgt]];
      [exfalso | exact Heq | exfalso].
    - specialize (Hfirst' _ Hlt). rewrite Hs, skipn_length_app in Hfirst'.
      rewrite strip_prefix_app in Hfirst'. discriminate.
    - specialize (Hfirst _ Hgt). rewrite Hs', skipn_length_app in Hfirst.
      rewrite strip_prefix_app in Hfirst. discriminate. }
  rewrite Hs in Hs'.
  destruct (app_same_length _ _ _ _ Hlen Hs') as [<- Hb].
  split; [reflexivity|]. apply app_inv_head in Hb. exact Hb.
Qed.

(** A block in which the separator stands is cut, at its first one. *)
Lemma cut_blocks_complete (message_blocks : list str) (block x y : str) :
  In block message_blocks -> block = x ++ u " - " ++ y ->
  exists a b, In (a, b) (cut_blocks message_blocks)
              /\ first_cut (u " - ") block a b.
Proof.
  intros Hin Hb.
  destruct (split_once_spec (u " - ") block)
    as [(a & b & E & Hcut)|[_ Hnone]].
  - exists a, b. split; [|exact Hcut]. unfold cut_blocks. apply in_flat_map.
    exists block. split; [exact Hin|]. rewrite E. left. reflexivity.
  - exfalso. specialize (Hnone (length x)).
    rewrite Hb, skipn_length_app, strip_prefix_app in Hnone.
    assert (Hle : length x <= length (x ++ u " - " ++ y))
      by (rewrite length_app; lia).
    specialize (Hnone Hle). discriminate.
Qed.

Lemma cut_blocks_iff (message_blocks : list str) (a b : str) :
  In (a, b) (cut_blocks message_blocks)
  <-> exists block, In block message_blocks /\ first_cut (u " - ") block a b.
Proof.
  split; [apply cut_blocks_In|].
  intros (block & Hin & Hcut).
  destruct (@cut_blocks_complete message_blocks block a b Hin (proj1 Hcut))
    as (a' & b' & Hin' & Hcut').
  destruct (first_cut_unique Hcut Hcut') as [-> ->]. exact Hin'.
Qed.

Lemma holds_app (sep x y : str) : holds sep (x ++ sep ++ y) = true.
Proof.
  induction x as [|c x IH].
  - simpl app. destruct (sep ++ y) eqn:E; simpl;
      rewrite <- E, strip_prefix_app; reflexivity.
  - simpl app. cbn [holds].
    destruct (strip_prefix sep (c :: x ++ sep ++ y)); [reflexivity | exact IH].
Qed.

Lemma holds_nowhere (sep s : str) :
  (forall n, n <= length s -> strip_prefix sep (skipn n s) = None) ->
  holds sep s = false.
Proof.
  induction s as [|c s IH]; intros H;
    pose proof (H 0 (Nat.le_0_l _)) as H0; cbn [skipn] in H0;
    cbn [holds]; rewrite H0; [reflexivity|].
  apply IH. intros n Hn. apply (H (S n)). simpl. lia.
Qed.

(** The cuts, put together again, are the blocks in which the separator
    stands, in their order. *)
Lemma cut_blocks_order (message_blocks : list str) :
  map (fun ab => fst ab ++ u " - " ++ snd ab) (cut_blocks message_blocks)
  = filter (holds (u " - ")) message_blocks.
Proof.
  induction message_blocks as [|block l IH]; [reflexivity|].
  change (cut_blocks (block :: l))
    with ((match split_once (u " - ") block with
           | [a; b] => [(a, b)]
           | _ => []
           end) ++ cut_blocks l).
  cbn [filter]. rewrite map_app.
  destruct (split_once_spec (u " - ") block)
    as [(a & b & E & Hs & _)|[E Hnone]]; rewrite E.
  - replace (holds (u " - ") block) with true
      by (rewrite Hs; symmetry; apply holds_app).
    cbn [map fst snd app]. f_equal; [symmetry; exact Hs | exact IH].
  - rewrite (holds_nowhere _ _ Hnone). cbn [map app]. exact IH.
Qed.

Section ExtractionFailure.
Variable rt : runtime.

(** On an empty frame the date parser fails with its diagnostic. *)
Lemma parse_dates_nil (log : list st_event) :
  parse_dates rt [] log = (Return None, log ++ [st_error parse_failed]).
Proof. rewrite parse_dates_run. reflexivity. Qed.

(** C6. When the detected pattern splits the transcript into no message or
    no date, the splitter shows "No messages could be extracted ..." and
    turns to the generic pattern: every block it finds in which a " - "
    stands is cut at its first " - " into a date and a message, the blocks
    taken in their order, and a block without one gives nothing. When this
    gives no message either (no block, or no block with a " - "), the
    function returns the failure value after that diagnostic. No call
    returns an empty dataset. *)
Theorem extraction_failure_is_fatal (data : str) (log : list st_event) :
  primary_empty (g_pattern (detected data)) data = true ->
  extract_messages (g_pattern (detected data)) data
                   (log ++ [detection_message data])
  = (if is_empty (findall generic_pattern data)
     then (Return None, (log ++ [detection_message data]) ++ [st_error no_messages])
     else (Normal (map snd (cut_blocks (findall generic_pattern data)),
                   map (fun ab => fst ab ++ u " - ")
                       (cut_blocks (findall generic_pattern data))),
           (log ++ [detection_message data]) ++ [st_error no_messages]))
  /\ (forall a b,
         In (a, b) (cut_blocks (findall generic_pattern data))
         <-> exists block, In block (findall generic_pattern data)
                           /\ first_cut (u " - ") block a b)
  /\ (forall block x y,
         In block (findall generic_pattern data) ->
         block = x ++ u " - " ++ y ->
         exists a b, In (a, b) (cut_blocks (findall generic_pattern data))
                     /\ first_cut (u " - ") block a b)
  /\ map (fun ab => fst ab ++ u " - " ++ snd ab)
         (cut_blocks (findall generic_pattern data))
     = filter (holds (u " - ")) (findall generic_pattern data)
  /\ (cut_blocks (findall generic_pattern data) = [] ->
      exists log', preprocess rt data log = (Returns None, log')
                   /\ In (st_error no_messages) log')
  /\ (forall df log',
         preprocess rt data log = (Returns (Some df), log') -> df <> []).
Proof.
  intros Hempty. split; [|split; [|split; [|split; [|split]]]].
  - rewrite extract_messages_run, Hempty. reflexivity.
  - apply cut_blocks_iff.
  - apply cut_blocks_complete.
  - apply cut_blocks_order.
  - intros Hcut. rewrite preprocess_run. unfold build_frame, bind.
    rewrite detect_format_run, extract_messages_run, Hempty, Hcut.
    destruct (is_empty (findall generic_pattern data)).
    + eexists. split; [reflexivity|]. apply in_or_app. right. left. reflexivity.
    + simpl map. cbn [fst snd]. rewrite DataFrame_run by reflexivity.
      simpl combine. rewrite parse_dates_nil.
      eexists. split; [reflexivity|].
      apply in_or_app. left. apply in_or_app. right. left. reflexivity.
  - intros df log' H. apply preprocess_returns_frame in H.
    destruct H as (rows & _ & _ & H).
    destruct df; [simpl in H; lia | discriminate].
Qed.

End ExtractionFailure.

(* ===================================================================== *)
(** ** Senders *)
(* ===================================================================== *)

(** A body neither sender pattern is found in is a notification. *)
Lemma extract_user_notification (message : str) :
  finditer user_pattern message = [] ->
  finditer alt_pattern message = [] ->
  extract_user message = (u "group_notification", strip message).
Proof.
  intros Hu Ha. unfold extract_user.
  pose proof (split_one_group user_pattern message) as H1. rewrite Hu in H1.
  pose proof (split_one_group alt_pattern message) as H2. rewrite Ha in H2.
  rewrite H1, H2. reflexivity.
Qed.

(* ===================================================================== *)
(** ** Runs on transcripts *)
(* ===================================================================== *)

Example two_messages_run :
  exists r1 r2,
    preprocess SampleRuntime.sample Runs.two_messages [] = (Returns (Some [r1; r2]), [st_success uploaded])
    /\ user r1 = u "Alice" /\ message r1 = u "Good morning!" ++ [NL]
    /\ hour r1 = Some 10%Z /\ period r1 = u "10AM-11AM"
    /\ day_name r1 = Some (u "Thursday")
    /\ user r2 = u "Bob" /\ message r2 = u "Morning!" ++ [NL]
    /\ hour r2 = Some 10%Z /\ period r2 = u "10AM-11AM".
Proof. eexists. eexists. vm_compute. repeat split; reflexivity. Qed.

(** A column no single template reads, read by the flexible interpreter; a
    fragment it cannot read loses its row. *)
Example mixed_column_run :
  parse_dates SampleRuntime.sample
              [(u "a", u "1/5/23, 10:15 AM - "); (u "b", u "13.01.23, 10:16 - ");
               (u "c", u "soon - ")] []
  = (Normal [RawRow (u "a") (u "1/5/23, 10:15 AM - ")
                    (Some (DateTime 2023 1 5 10 15 0));
             RawRow (u "b") (u "13.01.23, 10:16 - ")
                    (Some (DateTime 2023 1 13 10 16 0))], []).
Proof. vm_compute. reflexivity. Qed.

(** A column the first template does not read and the second does. *)
Example second_template_run :
  parse_dates SampleRuntime.sample
              [(u "a", u "13/5/23, 10:15 PM - "); (u "b", u "1/5/23, 9:16 AM - ")] []
  = (Normal [RawRow (u "a") (u "13/5/23, 10:15 PM - ")
                    (Some (DateTime 2023 5 13 22 15 0));
             RawRow (u "b") (u "1/5/23, 9:16 AM - ")
                    (Some (DateTime 2023 5 1 9 16 0))], []).
Proof. vm_compute. reflexivity. Qed.

Example no_format_run :
  preprocess SampleRuntime.sample Runs.no_format []
  = (Returns None, [st_warning unrecognized_warning; st_error no_messages]).
Proof. vm_compute. reflexivity. Qed.

Example no_dash_run :
  preprocess SampleRuntime.sample Runs.no_dash []
  = (Returns None, [st_warning unrecognized_warning; st_error no_messages;
                    st_error parse_failed]).
Proof. vm_compute. reflexivity. Qed.

Lemma minimum_viable_data_witness :
  preprocess SampleRuntime.sample Runs.one_message []
  = (Returns None, [st_success uploaded; st_error too_few])
  /\ exists df,
       preprocess SampleRuntime.sample Runs.two_messages []
       = (Returns (Some df), [st_success uploaded])
       /\ length df = 2.
Proof.
  split.
  - eassert (E : build_frame SampleRuntime.sample Runs.one_message [] = _)
      by (vm_compute; reflexivity).
    destruct (proj1 (minimum_viable_data SampleRuntime.sample
                       Runs.one_message []) _ _ E) as [H _].
    apply H. vm_compute. reflexivity.
  - eassert (E : build_frame SampleRuntime.sample Runs.two_messages [] = _)
      by (vm_compute; reflexivity).
    destruct (proj1 (minimum_viable_data SampleRuntime.sample
                       Runs.two_messages []) _ _ E) as [_ H].
    eexists. split; [apply H; vm_compute; reflexivity|].
    vm_compute. reflexivity.
Defined.

Lemma extraction_failure_is_fatal_witness :
  (primary_empty (g_pattern (detected Runs.no_dash)) Runs.no_dash = true
   /\ cut_blocks (findall generic_pattern Runs.no_dash) = []
   /\ exists log',
        preprocess SampleRuntime.sample Runs.no_dash [] = (Returns None, log')
        /\ In (st_error no_messages) log')
  /\ (primary_empty (g_pattern (detected late_dates)) late_dates = true
      /\ findall generic_pattern late_dates
         = [u "1/5/23, 10:15 - Alice: Good morning!";
            u "1/5/23, 10:16 - Bob: Morning!"]
      /\ extract_messages (g_pattern (detected late_dates)) late_dates
                          [detection_message late_dates]
         = (Normal ([u "Alice: Good morning!"; u "Bob: Morning!"],
                    [u "1/5/23, 10:15 - "; u "1/5/23, 10:16 - "]),
            [detection_message late_dates; st_error no_messages])
      /\ In (u "1/5/23, 10:15", u "Alice: Good morning!")
            (cut_blocks (findall generic_pattern late_dates))).
Proof.
  split.
  - assert (H1 : primary_empty (g_pattern (detected Runs.no_dash)) Runs.no_dash
                 = true) by (vm_compute; reflexivity).
    assert (H2 : cut_blocks (findall generic_pattern Runs.no_dash) = [])
      by (vm_compute; reflexivity).
    split; [exact H1|]. split; [exact H2|].
    destruct (extraction_failure_is_fatal SampleRuntime.sample Runs.no_dash []
                H1) as (_ & _ & _ & _ & H & _).
    exact (H H2).
  - assert (H1 : primary_empty (g_pattern (detected late_dates)) late_dates
                 = true) by (vm_compute; reflexivity).
    assert (H2 : findall generic_pattern late_dates
                 = [u "1/5/23, 10:15 - Alice: Good morning!";
                    u "1/5/23, 10:16 - Bob: Morning!"])
      by (vm_compute; reflexivity).
    split; [exact H1|]. split; [exact H2|].
    destruct (extraction_failure_is_fatal SampleRuntime.sample late_dates []
                H1) as (Hrun & Hiff & _).
    split.
    + etransitivity; [exact Hrun|]. vm_compute. reflexivity.
    + apply Hiff. exists (u "1/5/23, 10:15 - Alice: Good morning!").
      split; [rewrite H2; left; reflexivity|].
      split; [reflexivity|].
      intros n Hn. simpl in Hn.
      do 13 (destruct n as [|n]; [reflexivity|]). lia.
Defined.

(** C8 as stated fails: a returned dataset can hold a record whose sender is
    the empty string. *)
Lemma sender_can_be_empty :
  ~ (forall rt data log df log',
        preprocess rt data log = (Returns (Some df), log') ->
        Forall (fun r => user r <> []) df).
Proof.
  intros H.
  eassert (E : preprocess SampleRuntime.sample Runs.phone_only_sender [] = _)
    by (vm_compute; reflexivity).
  apply H in E. inversion E as [|r df Hr _]. apply Hr. reflexivity.
Qed.

(** C9 as stated fails: a returned dataset can hold a record whose body is
    the empty string. *)
Lemma body_can_be_empty :
  ~ (forall rt data log df log',
        preprocess rt data log = (Returns (Some df), log') ->
        Forall (fun r => date r <> None /\ message r <> []) df).
Proof.
  intros H.
  eassert (E : preprocess SampleRuntime.sample Runs.empty_body [] = _)
    by (vm_compute; reflexivity).
  apply H in E. inversion E as [|r df [_ Hr] _]. apply Hr. reflexivity.
Qed.

Lemma validated_records_have_timestamps_witness :
  exists df log',
    preprocess SampleRuntime.sample Runs.empty_body [] = (Returns (Some df), log')
    /\ Forall (fun r => exists d, date r = Some d
                                  /\ hour r = Some (dt_hour d)
                                  /\ period r = period_of_hour (dt_hour d)) df.
Proof.
  eexists. eexists.
  eassert (E : preprocess SampleRuntime.sample Runs.empty_body [] = _)
    by (vm_compute; reflexivity).
  split; [exact E|].
  exact (validated_records_have_timestamps _ _ _ E).
Defined.

(* ===================================================================== *)
(** ** The matcher finds the texts of a pattern, and only those *)
(* ===================================================================== *)

Section Language.
Context {A : Type}.

Lemma rep_loop_sound (step : nat -> str -> caps -> @kont A -> option A)
      (L : nat -> str -> Prop) (g : bool) :
  (forall i s c k x, step i s c k = Some x ->
     exists w s' c', s = w ++ s' /\ L i w /\ k (i + length w) s' c' = Some x) ->
  forall n lo i s c k x,
    rep_loop step g n lo i s c k = Some x ->
    exists m w s' c',
      lo <= m /\ m <= n /\ s = w ++ s' /\ iter L m i w
      /\ k (i + length w) s' c' = Some x.
Proof.
  intros Hstep. induction n as [|n IH]; intros lo i s c k x H; simpl in H.
  - destruct lo; [|discriminate].
    exists 0, [], s, c. rewrite Nat.add_0_r. simpl. repeat split; auto.
  - assert (Hagain : forall lo',
      step i s c (fun i' s' c' => rep_loop step g n lo' i' s' c' k) = Some x ->
      exists m w s' c',
        S lo' <= m /\ m <= S n /\ s = w ++ s'
        /\ iter L m i w /\ k (i + length w) s' c' = Some x).
    { intros lo' H1. apply Hstep in H1.
      destruct H1 as (w1 & s1 & c1 & -> & HL & H1).
      apply IH in H1.
      destruct H1 as (m & w2 & s2 & c2 & Hlo & Hhi & -> & Hit & H2).
      exists (S m), (w1 ++ w2), s2, c2.
      rewrite length_app, Nat.add_assoc, <- app_assoc.
      split; [lia|]. split; [lia|]. split; [reflexivity|]. split; [|exact H2].
      simpl. exists w1, w2. auto. }
    assert (Hleave : k i s c = Some x ->
      exists m w s' c',
        0 <= m /\ m <= S n /\ s = w ++ s'
        /\ iter L m i w /\ k (i + length w) s' c' = Some x).
    { intros H1. exists 0, [], s, c. rewrite Nat.add_0_r. simpl.
      repeat split; auto; lia. }
    destruct lo as [|lo].
    + destruct g.
      * destruct (step i s c _) eqn:E.
        -- inversion H; subst.
           destruct (Hagain 0 E) as (m & w & s' & c' & ? & ? & ? & ? & ?).
           exists m, w, s', c'. repeat split; auto; lia.
        -- auto.
      * destruct (k i s c) eqn:E.
        -- inversion H; subst. auto.
        -- destruct (Hagain 0 H) as (m & w & s' & c' & ? & ? & ? & ? & ?).
           exists m, w, s', c'. repeat split; auto; lia.
    + exact (Hagain lo H).
Qed.

(** Soundness: what the matcher takes is a text of the pattern. *)
Lemma exec_sound (r : regex) :
  forall i s c (k : @kont A) x,
    exec r i s c k = Some x ->
    exists w s' c', s = w ++ s' /\ lang r i w /\ k (i + length w) s' c' = Some x.
Proof.
  induction r as [p| | |r1 IH1 r2 IH2|r1 IH1 r2 IH2|g lo hi r1 IH1|n r1 IH1];
    intros i s c k x H; simpl in H.
  - destruct s as [|a s']; [discriminate|].
    destruct (p a) eqn:Ep; [|discriminate].
    exists [a], s', c. simpl. rewrite Nat.add_1_r. eauto.
  - destruct i; [|discriminate]. exists [], s, c. simpl. auto.
  - exists [], s, c. rewrite Nat.add_0_r. simpl. auto.
  - apply IH1 in H. destruct H as (w1 & s1 & c1 & -> & H1 & H).
    apply IH2 in H. destruct H as (w2 & s2 & c2 & -> & H2 & H).
    exists (w1 ++ w2), s2, c2. rewrite length_app, Nat.add_assoc, <- app_assoc.
    simpl. repeat split; auto. exists w1, w2. auto.
  - destruct (exec r1 i s c k) eqn:E.
    + inversion H; subst. apply IH1 in E.
      destruct E as (w & s' & c' & ? & ? & ?). exists w, s', c'. simpl. auto.
    + apply IH2 in H. destruct H as (w & s' & c' & ? & ? & ?).
      exists w, s', c'. simpl. auto.
  - apply (@rep_loop_sound (exec r1) (lang r1) g IH1) in H.
    destruct H as (m & w & s' & c' & Hlo & Hn & -> & Hit & H).
    exists w, s', c'. simpl. repeat split; auto.
    exists m. repeat split; auto.
    destruct hi as [h|]; [exact Hn | exact I].
  - apply IH1 in H. destruct H as (w & s' & c' & ? & ? & H).
    exists w, s', ((n, firstn (i + length w - i) s) :: c'). simpl. auto.
Qed.

(** A text of a pattern has [minlen] characters or more. *)
Lemma iter_length (L : nat -> str -> Prop) (m : nat) :
  (forall i w, L i w -> m <= length w) ->
  forall n i w, iter L n i w -> n * m <= length w.
Proof.
  intros HL. induction n as [|n IH]; intros i w H; simpl in *; [lia|].
  destruct H as (w1 & w2 & -> & H1 & H2). rewrite length_app.
  apply HL in H1. apply IH in H2. lia.
Qed.

Lemma lang_minlen (r : regex) : forall i w, lang r i w -> minlen r <= length w.
Proof.
  induction r as [p| | |r1 IH1 r2 IH2|r1 IH1 r2 IH2|g lo hi r1 IH1|n r1 IH1];
    intros i w H; simpl in *.
  - destruct H as (a & -> & _). simpl. lia.
  - lia.
  - lia.
  - destruct H as (w1 & w2 & -> & H1 & H2). rewrite length_app.
    apply IH1 in H1. apply IH2 in H2. lia.
  - destruct H as [H|H]; [apply IH1 in H | apply IH2 in H]; lia.
  - destruct H as (n & Hlo & _ & H).
    apply (@iter_length (lang r1) (minlen r1) IH1) in H. nia.
  - eauto.
Qed.

Lemma rep_loop_complete (step : nat -> str -> caps -> @kont A -> option A)
      (L : nat -> str -> Prop) (g : bool) :
  (forall i w s' c k, L i w -> accepts k (i + length w) s' ->
                      step i (w ++ s') c k <> None) ->
  forall n N lo i w s' c k,
    lo <= n -> n <= N -> iter L n i w -> accepts k (i + length w) s' ->
    rep_loop step g N lo i (w ++ s') c k <> None.
Proof.
  intros Hstep. induction n as [|n IH]; intros N lo i w s' c k Hlo HN Hit Hk.
  - simpl in Hit. subst w. assert (lo = 0) as -> by lia.
    simpl in *. rewrite Nat.add_0_r in Hk.
    destruct N; simpl; [apply Hk|]. destruct g.
    + destruct (step i s' c _); [discriminate | apply Hk].
    + specialize (Hk c). destruct (k i s' c); [discriminate | congruence].
  - destruct N as [|N]; [lia|]. simpl in Hit.
    destruct Hit as (w1 & w2 & -> & H1 & H2).
    assert (Hagain : forall lo', lo' <= n ->
      step i ((w1 ++ w2) ++ s') c
           (fun i' s0 c' => rep_loop step g N lo' i' s0 c' k) <> None).
    { intros lo' Hlo'. rewrite <- app_assoc. apply Hstep; [exact H1|].
      intros c'. apply IH; auto; try lia.
      rewrite length_app, Nat.add_assoc in Hk. exact Hk. }
    simpl. destruct lo as [|lo]; [|apply Hagain; lia].
    specialize (Hagain 0 (Nat.le_0_l n)). destruct g.
    + destruct (step i _ c _); [discriminate | congruence].
    + destruct (k i _ c); [discriminate | exact Hagain].
Qed.

(** Completeness: where a text of the pattern stands and the rest of the
    run can go on after it, the matcher finds a match (of the pattern's
    choosing). *)
Lemma exec_complete (r : regex) :
  productive r = true ->
  forall i w s' c (k : @kont A),
    lang r i w -> accepts k (i + length w) s' -> exec r i (w ++ s') c k <> None.
Proof.
  induction r as [p| | |r1 IH1 r2 IH2|r1 IH1 r2 IH2|g lo hi r1 IH1|n r1 IH1];
    intros Hp i w s' c k H Hk; simpl in *.
  - destruct H as (a & -> & Ha). simpl. rewrite Ha.
    rewrite Nat.add_1_r in Hk. apply Hk.
  - destruct H as [-> ->]. simpl in *. apply Hk.
  - subst w. simpl in *. rewrite Nat.add_0_r in Hk. apply Hk.
  - apply andb_prop in Hp. destruct Hp as [Hp1 Hp2].
    destruct H as (w1 & w2 & -> & H1 & H2). rewrite <- app_assoc.
    apply IH1; auto. intros c'. apply IH2; auto.
    rewrite length_app, Nat.add_assoc in Hk. exact Hk.
  - apply andb_prop in Hp. destruct Hp as [Hp1 Hp2].
    destruct H as [H|H].
    + specialize (IH1 Hp1 i w s' c k H Hk).
      destruct (exec r1 i (w ++ s') c k); [discriminate | congruence].
    + destruct (exec r1 i (w ++ s') c k); [discriminate|]. apply IH2; auto.
  - apply andb_prop in Hp. destruct Hp as [Hm Hp1]. apply Nat.ltb_lt in Hm.
    destruct H as (n & Hlo & Hhi & Hit).
    apply (@rep_loop_complete (exec r1) (lang r1) g
             (fun i0 w0 s0 c0 k0 => IH1 Hp1 i0 w0 s0 c0 k0) n); auto.
    unfold bound. destruct hi as [h|]; [exact Hhi|].
      apply (@iter_length (lang r1) (minlen r1) (lang_minlen r1)) in Hit.
      rewrite length_app. nia.
  - apply IH1; auto. intros c'. apply Hk.
Qed.

End Language.

Lemma match_at_lang (r : regex) (i : nat) (s : str) (m : rmatch) :
  match_at r i s = Some m ->
  exists w s', s = w ++ s' /\ lang r i w /\ m_start m = i
               /\ m_end m = i + length w.
Proof.
  unfold match_at. intros H. apply exec_sound in H.
  destruct H as (w & s' & c' & -> & Hl & H). inversion H; subst; simpl.
  exists w, s'. auto.
Qed.

Lemma search_from_occurs (r : regex) :
  productive r = true ->
  forall s i,
    search_from r i s <> None
    <-> exists pre w post, s = pre ++ w ++ post /\ lang r (i + length pre) w.
Proof.
  intros Hp. induction s as [|a s IH]; intros i; simpl.
  - split.
    + destruct (match_at r i []) as [m|] eqn:E; [|congruence]. intros _.
      apply match_at_lang in E. destruct E as (w & s' & Hs & Hl & _).
      exists [], w, s'. simpl. rewrite Nat.add_0_r. auto.
    + intros (pre & w & post & Hs & Hl).
      destruct pre; [|discriminate]. simpl in *. rewrite Nat.add_0_r in Hl.
      assert (Hm : match_at r i (w ++ post) <> None).
      { unfold match_at. apply exec_complete; auto. intros c. discriminate. }
      rewrite <- Hs in Hm. destruct (match_at r i []); congruence.
  - split.
    + destruct (match_at r i (a :: s)) as [m|] eqn:E.
      * intros _. apply match_at_lang in E.
        destruct E as (w & s' & Hs & Hl & _).
        exists [], w, s'. simpl. rewrite Nat.add_0_r. auto.
      * intros H. apply IH in H. destruct H as (pre & w & post & -> & Hl).
        exists (a :: pre), w, post. simpl. rewrite <- Nat.add_succ_comm. auto.
    + intros (pre & w & post & Hs & Hl). destruct pre as [|b pre].
      * simpl in *. rewrite Nat.add_0_r in Hl.
        assert (Hm : match_at r i (w ++ post) <> None).
        { unfold match_at. apply exec_complete; auto. intros c. discriminate. }
        rewrite <- Hs in Hm. destruct (match_at r i (a :: s)); congruence.
      * simpl in Hs. injection Hs as -> ->.
        destruct (match_at r i (b :: pre ++ w ++ post)); [discriminate|].
        apply IH. exists pre, w, post. simpl in Hl.
        rewrite Nat.add_succ_comm. auto.
Qed.

(** [re.search] succeeds exactly on the texts in which a text of the
    pattern stands. *)
Lemma search_occurs (r : regex) (text : str) :
  productive r = true -> (search r text <> None <-> occurs r text).
Proof. intros Hp. unfold search, occurs. apply search_from_occurs. exact Hp. Qed.

(* ===================================================================== *)
(** ** Detection and the split that follows it *)
(* ===================================================================== *)

Lemma catalog_productive (g : grammar) :
  In g date_patterns -> productive (g_pattern g) = true.
Proof.
  intros H. simpl in H.
  repeat (destruct H as [<-|H]; [reflexivity|]). contradiction.
Qed.

Lemma occurs_app (r : regex) (text rest : str) :
  occurs r text -> occurs r (text ++ rest).
Proof.
  intros (pre & w & post & -> & H). exists pre, w, (post ++ rest).
  rewrite <- !app_assoc. auto.
Qed.

Lemma finditer_nonempty (r : regex) (text : str) :
  search r text <> None -> finditer r text <> [].
Proof.
  unfold search, finditer. simpl.
  destruct (search_from r 0 text); [discriminate | congruence].
Qed.

Lemma primary_found (r : regex) (data : str) :
  search r data <> None -> primary_empty r data = false.
Proof.
  intros H. apply finditer_nonempty in H. unfold primary_empty, findall.
  pose proof (split_findall_length r data) as Hlen. unfold findall in Hlen.
  rewrite length_map in Hlen.
  destruct (finditer r data) as [|m ms]; [congruence|].
  destruct (tl (split 0 r data)); [discriminate|]. reflexivity.
Qed.

(** X2. When detection shows its success message, the detected pattern
    stands in the transcript itself, so the split with it gives a message at
    least: extraction does not turn to the generic pattern and shows no
    error. *)
Theorem detected_pattern_splits (data : str) (log : list st_event) :
  detection_message data = st_success uploaded ->
  primary_empty (g_pattern (detected data)) data = false
  /\ findall (g_pattern (detected data)) data <> []
  /\ extract_messages (g_pattern (detected data)) data log
     = (Normal (tl (split 0 (g_pattern (detected data)) data),
                findall (g_pattern (detected data)) data), log).
Proof.
  unfold detection_message, detected. intros H.
  pose proof (first_match_spec (sample_data data) date_patterns) as Hf.
  destruct (first_match date_patterns (sample_data data)) as [g|];
    [|discriminate].
  destruct Hf as (before & after & Hcat & Hs & _).
  assert (Hin : In g date_patterns).
  { rewrite Hcat. apply in_or_app. right. left. reflexivity. }
  assert (Hd : search (g_pattern g) data <> None).
  { apply search_occurs; [apply catalog_productive; exact Hin|].
    destruct (sample_data_prefix data) as (rest & Hrest). rewrite Hrest.
    apply occurs_app. apply search_occurs; [apply catalog_productive|]; auto. }
  assert (Hp := primary_found _ _ Hd). split; [exact Hp|]. split.
  - unfold findall. apply finditer_nonempty in Hd.
    destruct (finditer (g_pattern g) data); [congruence | discriminate].
  - rewrite extract_messages_run, Hp. reflexivity.
Qed.

Lemma detected_pattern_splits_witness :
  detection_message Runs.two_messages = st_success uploaded
  /\ primary_empty (g_pattern (detected Runs.two_messages)) Runs.two_messages
     = false.
Proof.
  assert (H : detection_message Runs.two_messages = st_success uploaded)
    by (vm_compute; reflexivity).
  split; [exact H|].
  exact (proj1 (detected_pattern_splits Runs.two_messages [] H)).
Defined.

(** *** Catalog entries that are never detected *)

Lemma lang_Seq_r (a b b' : regex) :
  (forall i w, lang b i w -> lang b' i w) ->
  forall i w, lang (Seq a b) i w -> lang (Seq a b') i w.
Proof.
  intros Hb i w (w1 & w2 & -> & H1 & H2). exists w1, w2. auto.
Qed.

Lemma lang_Seq_l (a a' b : regex) :
  (forall i w, lang a i w -> lang a' i w) ->
  forall i w, lang (Seq a b) i w -> lang (Seq a' b) i w.
Proof.
  intros Ha i w (w1 & w2 & -> & H1 & H2). exists w1, w2. auto.
Qed.

(** A date with a four-digit year is a date with a year of two to four
    digits. *)
Lemma lang_24h_4_24h_1 (i : nat) (w : str) :
  lang pattern_24h_4 i w -> lang pattern_24h_1 i w.
Proof.
  unfold pattern_24h_4, pattern_24h_1, cat. revert i w.
  do 4 apply lang_Seq_r. apply lang_Seq_l.
  intros i w (n & Hlo & Hhi & Hit). exists n. simpl in *.
  repeat split; auto; lia.
Qed.

Lemma search_24h_4_24h_1 (text : str) :
  search pattern_24h_1 text = None -> search pattern_24h_4 text = None.
Proof.
  intros H. destruct (search pattern_24h_4 text) eqn:E; [|reflexivity].
  exfalso. assert (Ho : occurs pattern_24h_4 text).
  { apply search_occurs; [reflexivity | congruence]. }
  destruct Ho as (pre & w & post & Hs & Hl). apply lang_24h_4_24h_1 in Hl.
  assert (Hs1 : search pattern_24h_1 text <> None).
  { apply search_occurs; [reflexivity|]. exists pre, w, post. auto. }
  congruence.
Qed.

(** X3. Of the thirteen entries of the catalog, detection can only report
    seven: an entry that shares its pattern with an earlier one is never
    reached, and neither is "DD/MM/YYYY format", whose pattern only matches
    where the earlier "US 24h comma" pattern matches. *)
Theorem detected_names (data : str) :
  In (g_name (detected data))
     ["US 12h comma"; "US 12h no comma"; "US 24h comma"; "US 24h no comma";
      "Bracketed with seconds"; "ISO format"; "European format";
      "Generic fallback"]%string.
Proof.
  unfold detected, date_patterns. cbn [first_match g_pattern].
  set (sample := sample_data data).
  destruct (search pattern_12h_1 sample); [simpl; tauto|].
  destruct (search pattern_12h_2 sample); [simpl; tauto|].
  destruct (search pattern_24h_1 sample) eqn:E1; [simpl; tauto|].
  destruct (search pattern_24h_2 sample); [simpl; tauto|].
  destruct (search pattern_24h_3 sample); [simpl; tauto|].
  rewrite (search_24h_4_24h_1 _ E1).
  destruct (search pattern_iso sample); [simpl; tauto|].
  destruct (search pattern_euro sample); simpl; tauto.
Qed.

(** X5. Detection reports the catalog's first entry exactly when a text of
    its pattern (a date [d/d/yy, h:mm AM - ] or the like) stands somewhere in
    the first ten lines, whatever stands there besides. *)
Theorem us_12h_comma_has_priority (data : str) :
  occurs pattern_12h_1 (sample_data data)
  <-> g_name (detected data) = "US 12h comma"%string.
Proof.
  rewrite <- (@search_occurs pattern_12h_1 (sample_data data) eq_refl).
  unfold detected, date_patterns. cbn [first_match g_pattern].
  set (sample := sample_data data).
  destruct (search pattern_12h_1 sample); [split; [reflexivity | discriminate]|].
  split; [congruence|]. intros H. exfalso. revert H.
  destruct (search pattern_12h_2 sample); [discriminate|].
  destruct (search pattern_24h_1 sample); [discriminate|].
  destruct (search pattern_24h_2 sample); [discriminate|].
  destruct (search pattern_24h_3 sample); [discriminate|].
  destruct (search pattern_24h_4 sample); [discriminate|].
  destruct (search pattern_iso sample); [discriminate|].
  destruct (search pattern_euro sample); discriminate.
Qed.

(** *** Only the first ten lines count *)

Lemma firstn_split_char_app (sep : char) (rest : str) :
  forall s k,
    k <= length (filter (N.eqb sep) s) ->
    firstn k (split_char sep (s ++ rest)) = firstn k (split_char sep s).
Proof.
  induction s as [|c s IH]; intros k Hk; simpl in Hk.
  - assert (k = 0) as -> by lia. reflexivity.
  - destruct k as [|k]; [reflexivity|]. simpl.
    rewrite (N.eqb_sym sep c) in Hk. destruct (N.eqb c sep).
    + simpl in Hk. simpl. f_equal. apply IH. lia.
    + specialize (IH (S k) Hk).
      destruct (split_char sep (s ++ rest)) as [|w ws],
               (split_char sep s) as [|w' ws']; simpl in *;
        try discriminate; [reflexivity|].
      injection IH as -> IH. rewrite IH. reflexivity.
Qed.

(** X4. What stands after the tenth line break of a transcript has no part
    in detection: the sample, the grammar and the message shown are those of
    the first ten lines; and the sample of a sample is that sample. *)
Theorem detection_reads_ten_lines (data rest : str) (log : list st_event) :
  10 <= length (filter (N.eqb NL) data) ->
  sample_data (data ++ rest) = sample_data data
  /\ detect_format (data ++ rest) log = detect_format data log
  /\ sample_data (sample_data data) = sample_data data.
Proof.
  intros H.
  assert (Hs : sample_data (data ++ rest) = sample_data data).
  { unfold sample_data. rewrite firstn_split_char_app by exact H. reflexivity. }
  split; [exact Hs|]. split.
  - unfold detect_format. rewrite Hs. reflexivity.
  - unfold sample_data at 1. rewrite sample_data_lines.
    rewrite firstn_firstn. reflexivity.
Qed.

Lemma detection_reads_ten_lines_witness :
  10 <= length (filter (N.eqb NL) (concat (repeat (u "x" ++ [NL]) 10)))
  /\ sample_data (concat (repeat (u "x" ++ [NL]) 10) ++ Runs.two_messages)
     = sample_data (concat (repeat (u "x" ++ [NL]) 10)).
Proof.
  assert (H : 10 <= length (filter (N.eqb NL)
                                   (concat (repeat (u "x" ++ [NL]) 10))))
    by (vm_compute; lia).
  split; [exact H|].
  exact (proj1 (detection_reads_ten_lines _ Runs.two_messages [] H)).
Defined.

(* ===================================================================== *)
(** ** The split loses nothing of the transcript *)
(* ===================================================================== *)

Lemma slice_to_end (text : str) (i : nat) :
  slice text i (length text) = skipn i text.
Proof.
  unfold slice. apply firstn_all2. rewrite length_skipn. lia.
Qed.

Lemma slice_split (text : str) (i a b : nat) :
  i <= a -> a <= b -> b <= length text ->
  skipn i text = slice text i a ++ slice text a b ++ skipn b text.
Proof.
  intros Hi Ha Hb. unfold slice.
  rewrite <- (firstn_skipn (a - i) (skipn i text)) at 1. f_equal.
  rewrite skipn_skipn. replace (a - i + i) with a by lia.
  rewrite <- (firstn_skipn (b - a) (skipn a text)) at 1. f_equal.
  rewrite skipn_skipn. replace (b - a + a) with b by lia. reflexivity.
Qed.

(** What a search from [i] finds lies between [i] and the end of the text
    and has a character or more. *)
Lemma search_from_span (r : regex) (text : str) (i : nat) (m : rmatch) :
  0 < minlen r -> i <= length text ->
  search_from r i (skipn i text) = Some m ->
  i <= m_start m /\ m_start m < m_end m /\ m_end m <= length text.
Proof.
  intros Hr Hi H. apply search_from_inv in H.
  destruct H as (pre & s1 & Hs & Hstart & H).
  apply match_at_inv in H. destruct H as (_ & Hlo & Hhi & _).
  assert (Hlen : length (skipn i text) = length pre + length s1)
    by (rewrite Hs; apply length_app).
  rewrite length_skipn in Hlen. lia.
Qed.

Lemma rebuild_pieces (r : regex) (text : str) :
  0 < minlen r ->
  forall f i,
    i <= length text ->
    let ms := finditer_from f r i (skipn i text) in
    skipn i text
    = hd [] (split_pieces 0 text i ms)
      ++ concat (map (fun dm => fst dm ++ snd dm)
                     (combine (map (fun m => slice text (m_start m) (m_end m)) ms)
                              (tl (split_pieces 0 text i ms)))).
Proof.
  intros Hr. induction f as [|f IH]; intros i Hi; simpl.
  - rewrite app_nil_r. symmetry. apply slice_to_end.
  - destruct (search_from r i (skipn i text)) as [m|] eqn:E; simpl.
    + destruct (@search_from_span r text i m Hr Hi E) as (H1 & H2 & H3).
      replace (Nat.ltb (m_start m) (m_end m)) with true
        by (symmetry; apply Nat.ltb_lt; exact H2).
      rewrite skipn_skipn. replace (m_end m - i + i) with (m_end m) by lia.
      specialize (IH (m_end m) H3). cbv zeta in IH.
      set (ms := finditer_from f r (m_end m) (skipn (m_end m) text)) in *.
      rewrite (@slice_split text i (m_start m) (m_end m)) by lia.
      f_equal. rewrite IH.
      destruct (split_pieces 0 text (m_end m) ms) as [|p ps] eqn:Ep.
      * destruct ms; discriminate.
      * simpl. rewrite <- app_assoc. reflexivity.
    + rewrite app_nil_r. symmetry. apply slice_to_end.
Qed.

(** X1. The split with the detected pattern loses nothing: there are as
    many messages as dates, and the text before the first date followed by
    each date and its message, in their order, is the transcript. *)
Theorem primary_split_round_trip (detected_pattern : regex) (data : str)
        (log : list st_event) :
  0 < minlen detected_pattern ->
  primary_empty detected_pattern data = false ->
  exists messages dates,
    extract_messages detected_pattern data log = (Normal (messages, dates), log)
    /\ length messages = length dates
    /\ data = hd [] (split 0 detected_pattern data)
              ++ concat (map (fun dm => fst dm ++ snd dm)
                             (combine dates messages)).
Proof.
  intros Hr Hp. exists (tl (split 0 detected_pattern data)),
                       (findall detected_pattern data).
  split; [rewrite extract_messages_run, Hp; reflexivity|].
  split; [apply split_findall_length|].
  unfold split, findall, finditer.
  exact (@rebuild_pieces detected_pattern data Hr (S (length data)) 0
           (Nat.le_0_l _)).
Qed.

Lemma primary_split_round_trip_witness :
  0 < minlen pattern_12h_1
  /\ primary_empty pattern_12h_1 Runs.two_messages = false
  /\ exists messages dates,
       extract_messages pattern_12h_1 Runs.two_messages []
       = (Normal (messages, dates), [])
       /\ length messages = length dates
       /\ Runs.two_messages
          = hd [] (split 0 pattern_12h_1 Runs.two_messages)
            ++ concat (map (fun dm => fst dm ++ snd dm)
                           (combine dates messages)).
Proof.
  assert (H1 : 0 < minlen pattern_12h_1) by (vm_compute; lia).
  assert (H2 : primary_empty pattern_12h_1 Runs.two_messages = false)
    by (vm_compute; reflexivity).
  split; [exact H1|]. split; [exact H2|].
  exact (@primary_split_round_trip pattern_12h_1 Runs.two_messages [] H1 H2).
Defined.

(* ===================================================================== *)
(** ** Where the sender ends *)
(* ===================================================================== *)

Lemma user_pattern_shape : user_pattern = name_then colon_space.
Proof. reflexivity. Qed.

Lemma alt_pattern_shape : alt_pattern = name_then spaced_dash.
Proof. reflexivity. Qed.

Section Scan.
Context {A : Type}.

Lemma exec_classes (ps : list (char -> bool)) :
  ps <> [] ->
  forall j s c (k : @kont A),
    exec (cat (map Chr ps)) j s c k
    = if starts ps s then k (j + length ps) (skipn (length ps) s) c else None.
Proof.
  induction ps as [|p ps IH]; intros Hne j s c k; [congruence|].
  destruct ps as [|p' ps].
  - simpl. destruct s as [|a s']; [reflexivity|].
    rewrite andb_true_r, Nat.add_1_r. reflexivity.
  - change (cat (map Chr (p :: p' :: ps)))
      with (Seq (Chr p) (cat (map Chr (p' :: ps)))).
    cbn [exec]. destruct s as [|a s']; [reflexivity|].
    cbn [starts]. destruct (p a); [|reflexivity]. cbn [andb].
    rewrite IH by discriminate.
    replace (S j + length (p' :: ps)) with (j + length (p :: p' :: ps))
      by (simpl; lia).
    reflexivity.
Qed.

(** A lazy [[\w\W]*] before [k] stops at the first place where [k]
    succeeds. *)
Lemma lazy_any_scan (k : @kont A) :
  forall s n i c,
    length s <= n ->
    rep_loop (exec any) false n 0 i s c k = scan k i s c.
Proof.
  induction s as [|a s IH]; intros n i c Hn.
  - destruct n; simpl; destruct (k i [] c); reflexivity.
  - destruct n as [|n]; [simpl in Hn; lia|]. simpl in Hn. simpl.
    destruct (k i (a :: s) c); [reflexivity|]. apply IH. lia.
Qed.
End Scan.

Lemma rep_loop_any_first {A : Type} (g : bool) (n lo i : nat) (a : char)
      (t : str) (c : caps) (k : @kont A) :
  rep_loop (exec any) g (S n) (S lo) i (a :: t) c k
  = rep_loop (exec any) g n lo (S i) t c k.
Proof. reflexivity. Qed.

Lemma scan_ext {A : Type} (k k' : @kont A) :
  (forall i s c, k i s c = k' i s c) ->
  forall s i c, scan k i s c = scan k' i s c.
Proof.
  intros H. induction s as [|a s IH]; intros i c; simpl; rewrite H;
    destruct (k' i _ c); auto.
Qed.

Lemma scan_find_delim (ps : list (char -> bool)) (i0 : nat) (s0 : str) :
  forall t j,
    scan (fun i' s' c' =>
            if starts ps s'
            then Some (Match i0 (i' + length ps) ((1, firstn (i' - i0) s0) :: c'))
            else None) j t []
    = option_map (fun p => Match i0 (j + p + length ps)
                                 [(1, firstn (j + p - i0) s0)])
                 (find_delim ps t).
Proof.
  induction t as [|a t IH]; intros j; cbn [scan find_delim].
  - destruct (starts ps []); simpl; [rewrite Nat.add_0_r|]; reflexivity.
  - destruct (starts ps (a :: t)); simpl; [rewrite Nat.add_0_r; reflexivity|].
    rewrite IH. destruct (find_delim ps t); simpl; [|reflexivity].
    rewrite <- plus_n_Sm. reflexivity.
Qed.

(** A match of a sender pattern at [i]: the name runs to the first
    delimiter that has a character before it. *)
Lemma match_at_name_then (ps : list (char -> bool)) (i : nat) (s : str) :
  ps <> [] ->
  match_at (name_then ps) i s
  = match s with
    | [] => None
    | a :: t =>
        option_map (fun p => Match i (i + 1 + p + length ps)
                                   [(1, a :: firstn p t)])
                   (find_delim ps t)
    end.
Proof.
  intros Hne. unfold match_at, name_then, lazy_plus. cbn [exec]. unfold bound.
  destruct s as [|a t]; [reflexivity|].
  cbn [length]. rewrite rep_loop_any_first.
  rewrite lazy_any_scan by lia.
  rewrite (scan_ext _
             (fun i' s' c' =>
                if starts ps s'
                then Some (Match i (i' + length ps)
                                 ((1, firstn (i' - i) (a :: t)) :: c'))
                else None)).
  - rewrite (scan_find_delim ps i (a :: t)).
    destruct (find_delim ps t) as [p|]; [|reflexivity]. cbn [option_map].
    replace (S i + p - i) with (S p) by lia.
    replace (S i + p + length ps) with (i + 1 + p + length ps) by lia.
    reflexivity.
  - intros i' s' c'. rewrite exec_classes by exact Hne. reflexivity.
Qed.

Lemma search_name_then (ps : list (char -> bool)) :
  ps <> [] ->
  forall s i, search_from (name_then ps) i s = match_at (name_then ps) i s.
Proof.
  intros Hne. induction s as [|a t IH]; intros i; cbn [search_from].
  - destruct (match_at (name_then ps) i []); reflexivity.
  - destruct (match_at (name_then ps) i (a :: t)) as [m|] eqn:E; [reflexivity|].
    rewrite IH. rewrite match_at_name_then in * by exact Hne.
    destruct t as [|b t']; [reflexivity|].
    cbn [find_delim] in E. destruct (starts ps (b :: t')); [discriminate|].
    destruct (find_delim ps t'); [discriminate | reflexivity].
Qed.

(** The matches of a sender pattern in a body: none without a delimiter
    after the first character; otherwise the first one runs from the start
    to the end of the first such delimiter. *)
Lemma finditer_name_then (ps : list (char -> bool)) (a : char) (t : str) :
  ps <> [] ->
  finditer (name_then ps) (a :: t)
  = match find_delim ps t with
    | None => []
    | Some p =>
        Match 0 (1 + p + length ps) [(1, a :: firstn p t)]
          :: finditer_from (length (a :: t)) (name_then ps) (1 + p + length ps)
                           (skipn (p + length ps) t)
    end.
Proof.
  intros Hne. unfold finditer. cbn [finditer_from].
  rewrite search_name_then, match_at_name_then by exact Hne.
  destruct (find_delim ps t) as [p|]; [|reflexivity]. cbn [option_map].
  cbn [m_start m_end]. destruct ps as [|q ps]; [congruence|].
  replace (Nat.ltb 0 (0 + 1 + p + length (q :: ps))) with true
    by (symmetry; apply Nat.ltb_lt; simpl; lia).
  replace (0 + 1 + p + length (q :: ps)) with (S (p + length (q :: ps))) by lia.
  rewrite Nat.sub_0_r. reflexivity.
Qed.

Lemma finditer_name_then_nil (ps : list (char -> bool)) (s : str) :
  ps <> [] -> find_delim ps (tl s) = None -> finditer (name_then ps) s = [].
Proof.
  intros Hne H. destruct s as [|a t].
  - unfold finditer. cbn [finditer_from length].
    rewrite search_name_then, match_at_name_then by exact Hne. reflexivity.
  - rewrite finditer_name_then by exact Hne. simpl in H. rewrite H. reflexivity.
Qed.

Lemma finditer_from_name_then_nil (ps : list (char -> bool)) (f i : nat)
      (s : str) :
  ps <> [] -> find_delim ps (tl s) = None ->
  finditer_from f (name_then ps) i s = [].
Proof.
  intros Hne H. destruct f; [reflexivity|]. cbn [finditer_from].
  rewrite search_name_then, match_at_name_then by exact Hne.
  destruct s as [|a t]; [reflexivity|]. simpl in H. rewrite H. reflexivity.
Qed.

(** The pieces of a body cut by a sender pattern. *)
Lemma split_name_then (ps : list (char -> bool)) (a : char) (t : str) (p : nat) :
  ps <> [] -> find_delim ps t = Some p ->
  nth 1 (split 1 (name_then ps) (a :: t)) [] = a :: firstn p t
  /\ 1 < length (split 1 (name_then ps) (a :: t))
  /\ (find_delim ps (tl (skipn (p + length ps) t)) = None ->
      split 1 (name_then ps) (a :: t)
      = [[]; a :: firstn p t; skipn (p + length ps) t]).
Proof.
  intros Hne Hp. unfold split. rewrite finditer_name_then, Hp by exact Hne.
  cbn [split_pieces m_start m_end m_caps seq map app nth].
  split; [reflexivity|]. split; [simpl; lia|].
  intros Hrest. rewrite finditer_from_name_then_nil by assumption.
  cbn [split_pieces]. unfold slice. cbn [skipn Nat.sub firstn].
  do 2 f_equal. f_equal. cbn [Nat.add]. cbn [skipn]. apply firstn_all2.
  cbn [length]. rewrite length_skipn. lia.
Qed.

Lemma split_name_then_none (ps : list (char -> bool)) (s : str) :
  ps <> [] -> find_delim ps (tl s) = None -> split 1 (name_then ps) s = [s].
Proof.
  intros Hne H. unfold split. rewrite finditer_name_then_nil by assumption.
  cbn [split_pieces]. unfold slice. cbn [skipn]. rewrite Nat.sub_0_r.
  rewrite firstn_all. reflexivity.
Qed.

(** X6. In a body where a colon with white space after it stands after the
    first character, the sender is the text before the first such colon; and
    when the text after that colon and white space holds no further one (its
    first character aside), that text is the body, unchanged. *)
Theorem sender_before_first_colon (a : char) (t : str) (p : nat) :
  find_delim colon_space t = Some p ->
  fst (extract_user (a :: t)) = a :: firstn p t
  /\ (find_delim colon_space (tl (skipn (p + 2) t)) = None ->
      extract_user (a :: t) = (a :: firstn p t, skipn (p + 2) t)).
Proof.
  intros Hp. unfold extract_user. rewrite user_pattern_shape.
  destruct (@split_name_then colon_space a t p) as (H1 & H2 & H3);
    [discriminate | exact Hp |].
  destruct (split 1 (name_then colon_space) (a :: t)) as [|e0 [|e1 entry]];
    simpl in H2; try lia.
  simpl in H1. subst e1. cbn [skipn is_empty negb nth fst]. split; [reflexivity|].
  intros Hrest. specialize (H3 Hrest). injection H3 as _ ->. reflexivity.
Qed.

Lemma sender_before_first_colon_witness :
  find_delim colon_space (u "lice: hi") = Some 4
  /\ extract_user (u "Alice: hi") = (u "Alice", u "hi").
Proof.
  assert (H : find_delim colon_space (u "lice: hi") = Some 4)
    by (vm_compute; reflexivity).
  split; [exact H|].
  destruct (@sender_before_first_colon (chr "A") (u "lice: hi") 4 H) as [_ H2].
  apply H2. vm_compute. reflexivity.
Defined.

(** X7. In a body without such a colon, where a dash between two white space
    characters stands after the first character, the sender is the text
    before the first such dash; and when the text after it holds no further
    one (its first character aside), that text is the body, unchanged. *)
Theorem sender_before_first_dash (a : char) (t : str) (p : nat) :
  find_delim colon_space t = None ->
  find_delim spaced_dash t = Some p ->
  fst (extract_user (a :: t)) = a :: firstn p t
  /\ (find_delim spaced_dash (tl (skipn (p + 3) t)) = None ->
      extract_user (a :: t) = (a :: firstn p t, skipn (p + 3) t)).
Proof.
  intros Hc Hp. unfold extract_user.
  rewrite user_pattern_shape, alt_pattern_shape.
  rewrite (@split_name_then_none colon_space (a :: t)) by (discriminate || exact Hc).
  cbn [skipn is_empty negb].
  destruct (@split_name_then spaced_dash a t p) as (H1 & H2 & H3);
    [discriminate | exact Hp |].
  apply Nat.ltb_lt in H2. rewrite H2. rewrite H1. split; [reflexivity|].
  intros Hrest. rewrite (H3 Hrest). reflexivity.
Qed.

Lemma sender_before_first_dash_witness :
  find_delim colon_space (u "ob - hi") = None
  /\ find_delim spaced_dash (u "ob - hi") = Some 2
  /\ extract_user (u "Bob - hi") = (u "Bob", u "hi").
Proof.
  assert (H1 : find_delim colon_space (u "ob - hi") = None)
    by (vm_compute; reflexivity).
  assert (H2 : find_delim spaced_dash (u "ob - hi") = Some 2)
    by (vm_compute; reflexivity).
  split; [exact H1|]. split; [exact H2|].
  destruct (@sender_before_first_dash (chr "B") (u "ob - hi") 2 H1 H2) as [_ H].
  apply H. vm_compute. reflexivity.
Defined.

(* ===================================================================== *)
(** ** Notifications *)
(* ===================================================================== *)

Lemma lstrip_head (s : str) :
  forall c rest, lstrip s = c :: rest -> is_space c = false.
Proof.
  induction s as [|a s IH]; intros c rest H; simpl in H; [discriminate|].
  destruct (is_space a) eqn:E; [eauto|]. injection H as <- _. exact E.
Qed.

Lemma lstrip_id (s : str) :
  (forall c rest, s = c :: rest -> is_space c = false) -> lstrip s = s.
Proof.
  intros H. destruct s as [|a s]; [reflexivity|]. simpl.
  rewrite (H a s eq_refl). reflexivity.
Qed.

Lemma lstrip_snoc (x : char) :
  is_space x = false -> forall l, exists l', lstrip (l ++ [x]) = l' ++ [x].
Proof.
  intros Hx. induction l as [|a l (l' & IH)]; simpl.
  - rewrite Hx. exists []. reflexivity.
  - destruct (is_space a); [eauto|]. exists (a :: l). reflexivity.
Qed.

Lemma strip_first (s : str) :
  forall c rest, strip s = c :: rest -> is_space c = false.
Proof.
  unfold strip. intros c rest H.
  destruct (lstrip s) as [|x l] eqn:E; [discriminate|].
  assert (Hx : is_space x = false) by (eapply lstrip_head; exact E).
  destruct (@lstrip_snoc x Hx (rev l)) as (l' & Hl). simpl in H.
  rewrite Hl, rev_app_distr in H. simpl in H. injection H as <- _. exact Hx.
Qed.

Lemma strip_last (s : str) :
  forall init c, strip s = init ++ [c] -> is_space c = false.
Proof.
  unfold strip. intros init c H. apply (f_equal (@rev char)) in H.
  rewrite rev_involutive, rev_app_distr in H. simpl in H.
  eapply lstrip_head. exact H.
Qed.

Lemma strip_strip (s : str) : strip (strip s) = strip s.
Proof.
  set (r := strip s). unfold strip at 1.
  rewrite (@lstrip_id r) by (subst r; apply strip_first).
  rewrite (@lstrip_id (rev r)); [apply rev_involutive|].
  intros c rest H. apply (f_equal (@rev char)) in H.
  rewrite rev_involutive in H. simpl in H. subst r. eapply strip_last. exact H.
Qed.

(** X8. A body in which neither a colon with white space after it nor a
    dash between white space stands after the first character is a
    notification: the sender is [group_notification] and the body is the
    line without the white space at its two ends (trimming it again changes
    nothing). *)
Theorem notification_without_delimiter (message : str) :
  find_delim colon_space (tl message) = None ->
  find_delim spaced_dash (tl message) = None ->
  extract_user message = (u "group_notification", strip message)
  /\ (forall c rest, snd (extract_user message) = c :: rest -> is_space c = false)
  /\ (forall init c, snd (extract_user message) = init ++ [c] ->
                     is_space c = false)
  /\ strip (snd (extract_user message)) = snd (extract_user message).
Proof.
  intros Hc Hd.
  assert (H : extract_user message = (u "group_notification", strip message)).
  { apply extract_user_notification.
    - rewrite user_pattern_shape. apply finditer_name_then_nil;
        [discriminate | exact Hc].
    - rewrite alt_pattern_shape. apply finditer_name_then_nil;
        [discriminate | exact Hd]. }
  rewrite H. cbn [snd]. split; [reflexivity|].
  split; [apply strip_first|]. split; [apply strip_last | apply strip_strip].
Qed.

Lemma notification_without_delimiter_witness :
  find_delim colon_space (tl (u "  Bob joined  ")) = None
  /\ find_delim spaced_dash (tl (u "  Bob joined  ")) = None
  /\ extract_user (u "  Bob joined  ") = (u "group_notification", u "Bob joined").
Proof.
  assert (H1 : find_delim colon_space (tl (u "  Bob joined  ")) = None)
    by (vm_compute; reflexivity).
  assert (H2 : find_delim spaced_dash (tl (u "  Bob joined  ")) = None)
    by (vm_compute; reflexivity).
  split; [exact H1|]. split; [exact H2|].
  exact (proj1 (notification_without_delimiter _ H1 H2)).
Defined.

(* ===================================================================== *)
(** ** The period label and the twelve-hour clock *)
(* ===================================================================== *)

(** X9. On the hours 0 to 23 the six cases of the period label are one rule:
    the hour and the next hour as a twelve-hour clock shows them, each with
    its half of the day; and the half of the day of the first is what the
    [am_pm] column holds. *)
Theorem period_is_clock_reading (d : datetime) :
  (0 <= dt_hour d <= 23)%Z ->
  period_of (Some (dt_hour d))
  = str_of_int (hour12 (dt_hour d)) ++ marker (dt_hour d) ++ u "-"
    ++ str_of_int (hour12 (dt_hour d + 1)) ++ marker (dt_hour d + 1)
  /\ strftime_p d = marker (dt_hour d).
Proof.
  destruct d as [y mo dd h mi s]. cbn [dt_hour]. intros Hh.
  assert (Hcases : In h [0; 1; 2; 3; 4; 5; 6; 7; 8; 9; 10; 11; 12; 13; 14; 15;
                         16; 17; 18; 19; 20; 21; 22; 23]%Z) by (simpl; lia).
  simpl in Hcases.
  repeat (destruct Hcases as [<-|Hcases]; [split; reflexivity|]).
  contradiction.
Qed.

Lemma period_is_clock_reading_witness :
  (0 <= 23 <= 23)%Z
  /\ period_of (Some 23%Z) = u "11PM-12AM"
  /\ strftime_p (DateTime 2023 1 5 23 59 0) = u "PM".
Proof.
  split; [lia|].
  destruct (period_is_clock_reading (DateTime 2023 1 5 23 59 0)) as [H1 H2];
    [cbn [dt_hour]; lia|].
  split; [exact H1 | exact H2].
Defined.

(* ===================================================================== *)
(** ** What a call shows, and the records in transcript order *)
(* ===================================================================== *)

Lemma combine_cut_blocks (cb : list (str * str)) :
  combine (map snd cb) (map (fun ab => fst ab ++ u " - ") cb)
  = map (fun ab => (snd ab, fst ab ++ u " - ")) cb.
Proof. induction cb as [|ab cb IH]; simpl; [reflexivity | rewrite IH; reflexivity]. Qed.

Section Records.
Variable rt : runtime.

(** Sections 2 to 9 as one step from the extracted pairs. *)
Lemma build_frame_run (data : str) (log : list st_event) :
  build_frame rt data log =
  if primary_empty (g_pattern (detected data)) data
     && is_empty (findall generic_pattern data)
  then (Return None, (log ++ [detection_message data]) ++ [st_error no_messages])
  else
    match parse_dates rt (extracted data)
            ((log ++ [detection_message data]) ++ extraction_errors data) with
    | (Normal rows, log') => (Normal (map build_row rows), log')
    | (Return v, log') => (Return v, log')
    | (Raise e, log') => (Raise e, log')
    end.
Proof.
  unfold build_frame, bind, extracted, extraction_errors.
  rewrite detect_format_run, extract_messages_run.
  destruct (primary_empty (g_pattern (detected data)) data).
  - destruct (is_empty (findall generic_pattern data)); [reflexivity|].
    cbn [andb fst snd]. rewrite DataFrame_run by (rewrite !length_map; reflexivity).
    rewrite combine_cut_blocks.
    destruct (parse_dates rt _ _) as [[rows|v|e] log']; reflexivity.
  - cbn [andb fst snd]. rewrite DataFrame_run by apply split_findall_length.
    rewrite app_nil_r.
    destruct (parse_dates rt _ _) as [[rows|v|e] log']; reflexivity.
Qed.

Lemma filter_all {A : Type} (f : A -> bool) (l : list A) :
  forallb f l = true -> filter f l = l.
Proof.
  induction l as [|x l IH]; simpl; [reflexivity|].
  intros H. apply andb_prop in H. destruct H as [-> H]. rewrite IH by exact H.
  reflexivity.
Qed.

(** The rows that leave the date parser, by the reading of the column. *)
Lemma parse_dates_reading (df : list (str * str)) (log : list st_event) :
  match parse_dates rt df log with
  | (Normal rows, log') =>
      log' = log /\ rows <> []
      /\ rows = map (fun r => set_date r (reading rt (map snd df) (snd r)))
                    (filter (fun r => is_some (reading rt (map snd df) (snd r))) df)
  | (Return v, log') => v = None /\ exists msg, log' = log ++ [st_error msg]
  | (Raise _, _) => False
  end.
Proof.
  rewrite parse_dates_run. unfold parse_dates_contract, reading.
  destruct (find _ date_patterns) as [g|] eqn:Ef.
  - destruct df as [|r df]; [simpl; eauto|]. cbn [is_empty].
    split; [reflexivity|]. split; [discriminate|].
    apply find_some in Ef. destruct Ef as [_ Hall]. unfold reads_all in Hall.
    rewrite filter_all; [reflexivity|].
    rewrite forallb_forall in *. intros p Hp. apply Hall.
    apply in_map. exact Hp.
  - destruct (to_datetime_coerce rt (map snd df)) as [e|read]; [eauto|].
    cbv zeta.
    destruct (filter (fun r => is_some (read (snd r))) df) as [|r kept] eqn:Ek;
      cbn [is_empty]; [eauto|].
    split; [reflexivity|]. split; [discriminate | reflexivity].
Qed.

Lemma dropna_records (read : str -> option datetime) (l : list (str * str)) :
  dropna (map (fun r => build_row (set_date r (read (snd r))))
              (filter (fun r => is_some (read (snd r))) l))
  = map (record_of read) (filter (fun r => is_some (read (snd r))) l).
Proof.
  induction l as [|p l IH]; simpl; [reflexivity|].
  destruct (read (snd p)) as [d|] eqn:E; simpl; [|exact IH].
  unfold record_of at 1. rewrite E.
  unfold build_row at 1. cbn [set_date user_message raw_date].
  destruct (extract_user (fst p)) as [sender body]. cbn [date]. rewrite IH.
  unfold build_row. cbn [set_date user_message raw_date].
  destruct (extract_user (fst p)) as [sender' body'] eqn:E'. 
  reflexivity.
Qed.

(** The function, from the extracted pairs and the reading of their dates. *)
Lemma preprocess_records (data : str) (log : list st_event) :
  let read := reading rt (map snd (extracted data)) in
  let records :=
    map (record_of read) (filter (fun p => is_some (read (snd p))) (extracted data)) in
  exists v rest,
    preprocess rt data log
    = (Returns v, (log ++ [detection_message data]) ++ extraction_errors data ++ rest)
    /\ Forall is_error rest /\ length rest <= 1
    /\ (v = None -> extraction_errors data ++ rest <> [])
    /\ (v <> None -> rest = [] /\ v = Some records /\ 2 <= length records).
Proof.
  intros read records. rewrite preprocess_run, build_frame_run.
  unfold extraction_errors at 1 2 3.
  destruct (primary_empty (g_pattern (detected data)) data) eqn:Ep;
    [destruct (is_empty (findall generic_pattern data)) eqn:Eg|]; cbn [andb].
  - exists None, []. rewrite app_nil_r. split; [reflexivity|].
    split; [constructor|]. split; [simpl; lia|].
    split; [discriminate | intros H; contradiction].
  - pose proof (parse_dates_reading (extracted data)
                  ((log ++ [detection_message data]) ++ [st_error no_messages])) as Hp.
    destruct (parse_dates rt _ _) as [[rows|v|e] log1]; [| |contradiction].
    + destruct Hp as (-> & _ & ->). rewrite map_map. fold read. rewrite dropna_records.
      fold records.
      destruct (Nat.ltb_spec (length records) 2) as [Hlt|Hge].
      * exists None, [st_error too_few]. rewrite <- app_assoc.
        split; [reflexivity|]. split; [repeat constructor; eexists; reflexivity|].
        split; [simpl; lia|]. split; [discriminate | intros H; contradiction].
      * exists (Some records), []. rewrite app_nil_r.
        split; [reflexivity|]. split; [constructor|]. split; [simpl; lia|].
        split; [discriminate | auto].
    + destruct Hp as (-> & msg & ->). exists None, [st_error msg].
      rewrite <- app_assoc. split; [reflexivity|].
      split; [repeat constructor; eexists; reflexivity|].
      split; [simpl; lia|]. split; [discriminate | intros H; contradiction].
  - pose proof (parse_dates_reading (extracted data)
                  ((log ++ [detection_message data]) ++ [])) as Hp.
    destruct (parse_dates rt _ _) as [[rows|v|e] log1]; [| |contradiction].
    + destruct Hp as (-> & _ & ->). rewrite map_map. fold read. rewrite dropna_records.
      fold records. 
      destruct (Nat.ltb_spec (length records) 2) as [Hlt|Hge].
      * exists None, [st_error too_few]. rewrite !app_nil_r.
        split; [reflexivity|]. split; [repeat constructor; eexists; reflexivity|].
        split; [simpl; lia|]. split; [discriminate | intros H; contradiction].
      * exists (Some records), []. rewrite !app_nil_r.
        split; [reflexivity|]. split; [constructor|]. split; [simpl; lia|].
        split; [intros H; discriminate H | auto].
    + destruct Hp as (-> & msg & ->). exists None, [st_error msg].
      rewrite !app_nil_r. split; [reflexivity|].
      split; [repeat constructor; eexists; reflexivity|].
      split; [simpl; lia|]. split; [discriminate | intros H; contradiction].
Qed.

Lemma dates_of_records (read : str -> option datetime) (l : list (str * str)) :
  map date (map (record_of read) (filter (fun p => is_some (read (snd p))) l))
  = filter is_some (map (fun p => read (snd p)) l).
Proof.
  induction l as [|p l IH]; simpl; [reflexivity|].
  destruct (read (snd p)) as [d|] eqn:Ed; simpl; [|exact IH].
  rewrite <- IH. f_equal. unfold record_of, build_row. rewrite Ed.
  cbn [set_date user_message raw_date].
  destruct (extract_user (fst p)). reflexivity.
Qed.

(** X10. A call shows the message of detection first and after it errors
    only, two at most, leaving what was shown before in place; a call that
    returns the failure value has shown an error at least; a call that
    returns a dataset has shown no error, except the one of extraction when
    the detected pattern cut nothing and the generic pattern did. *)
Theorem failure_is_never_silent (data : str) (log : list st_event) :
  exists v shown,
    preprocess rt data log = (Returns v, log ++ detection_message data :: shown)
    /\ Forall is_error shown /\ length shown <= 2
    /\ (v = None -> shown <> [])
    /\ (v <> None -> shown = extraction_errors data).
Proof.
  destruct (preprocess_records data log) as (v & rest & E & Hrest & Hlen & Hn & Hs).
  exists v, (extraction_errors data ++ rest).
  split; [rewrite E, <- app_assoc; reflexivity|].
  split; [|split; [|split]].
  - apply Forall_app. split; [|exact Hrest].
    unfold extraction_errors.
    destruct (primary_empty _ data); repeat constructor. eexists; reflexivity.
  - rewrite length_app. unfold extraction_errors.
    destruct (primary_empty _ data); simpl; lia.
  - exact Hn.
  - intros H. destruct (Hs H) as (-> & _). apply app_nil_r.
Qed.

(** X11. The records of a returned dataset are the extracted texts with
    their dates, in the order of the transcript, each date read by one
    reading for the whole column; a text whose date that reading does not
    read has no record, every other text has exactly one. *)
Theorem records_follow_the_transcript (data : str) (log log' : list st_event)
        (df : dataframe) :
  preprocess rt data log = (Returns (Some df), log') ->
  let read := reading rt (map snd (extracted data)) in
  df = map (record_of read)
           (filter (fun p => is_some (read (snd p))) (extracted data))
  /\ map date df
     = filter is_some (map (fun p => read (snd p)) (extracted data))
  /\ length df <= length (extracted data).
Proof.
  intros H read.
  destruct (preprocess_records data log) as (v & rest & E & _ & _ & _ & Hs).
  rewrite H in E. injection E as <- _.
  destruct Hs as (_ & Hv & _); [discriminate|]. injection Hv as ->.
  fold read. split; [reflexivity|]. split.
  - apply dates_of_records.
  - rewrite length_map. apply filter_length_le.
Qed.

End Records.

Lemma records_follow_the_transcript_witness :
  exists df log',
    preprocess SampleRuntime.sample one_bad_date [] = (Returns (Some df), log')
    /\ map user df = [u "Alice"; u "Carol"]
    /\ df = map (record_of (reading SampleRuntime.sample
                              (map snd (extracted one_bad_date))))
                (filter (fun p => is_some (reading SampleRuntime.sample
                                             (map snd (extracted one_bad_date))
                                             (snd p)))
                        (extracted one_bad_date)).
Proof.
  eexists. eexists.
  eassert (E : preprocess SampleRuntime.sample one_bad_date [] = _)
    by (vm_compute; reflexivity).
  split; [exact E|]. split; [reflexivity|].
  exact (proj1 (records_follow_the_transcript _ _ _ E)).
Defined.

(* ===================================================================== *)
(** ** The sender of a record *)
(* ===================================================================== *)

(** The date, the sender and the body of the record of a text. *)
Lemma record_of_fields (read : str -> option datetime) (p : str * str) :
  date (record_of read p) = read (snd p)
  /\ user (record_of read p) = fix_phone (fst (extract_user (fst p)))
  /\ message (record_of read p) = snd (extract_user (fst p)).
Proof.
  unfold record_of, build_row. cbn [set_date user_message raw_date].
  destruct (extract_user (fst p)). cbn [date user message fst snd].
  repeat split.
Qed.

Section Senders.
Variable rt : runtime.

(** C8, amended. The records of a returned dataset stand, one for one and
    in order, for the extracted texts whose date is read. The sender of a
    record is the name found in its own text, the message body that follows
    the record's date in the transcript, with a leading phone prefix
    removed, and the record's body is what the same extraction leaves of
    that text. The name found is never empty, and it is
    [group_notification] when neither sender pattern is found in the text;
    the sender itself is empty exactly when the name is nothing but a phone
    prefix ([+], digits, one white space character). *)
Theorem sender_is_normalised_name (data : str) (log log' : list st_event)
        (df : dataframe) :
  preprocess rt data log = (Returns (Some df), log') ->
  let read := reading rt (map snd (extracted data)) in
  Forall2 (fun r p =>
             let body := fst p in
             let name := fst (extract_user body) in
             date r = read (snd p)
             /\ message r = snd (extract_user body)
             /\ name <> []
             /\ user r = fix_phone name
             /\ (user r = [] <-> phone_prefix_only name)
             /\ (finditer user_pattern body = [] ->
                 finditer alt_pattern body = [] ->
                 user r = u "group_notification"))
          df (filter (fun p => is_some (read (snd p))) (extracted data)).
Proof.
  intros H read.
  destruct (preprocess_records rt data log) as (v & rest & E & _ & _ & _ & Hs).
  rewrite H in E. injection E as <- _.
  destruct Hs as (_ & Hv & _); [discriminate|]. injection Hv as ->.
  fold read.
  induction (filter (fun p => is_some (read (snd p))) (extracted data))
    as [|p l IH]; cbn [map]; constructor; [|exact IH].
  destruct (record_of_fields read p) as (Hd & Hu & Hm).
  pose proof (extract_user_sender_nonempty (fst p)) as Hne.
  cbv zeta. split; [exact Hd|]. split; [exact Hm|]. split; [exact Hne|].
  split; [exact Hu|]. split.
  - rewrite Hu, fix_phone_empty. tauto.
  - intros H1 H2. rewrite Hu, (extract_user_notification _ H1 H2). reflexivity.
Qed.

End Senders.

Lemma sender_is_normalised_name_witness :
  exists df log',
    preprocess SampleRuntime.sample Runs.phone_only_sender []
    = (Returns (Some df), log')
    /\ map user df = [[]; u "Bob"]
    /\ map fst (extracted Runs.phone_only_sender)
       = [u "+91 : hi" ++ [NL]; u "Bob: yo" ++ [NL]]
    /\ Forall2 (fun r p =>
                  date r = reading SampleRuntime.sample
                             (map snd (extracted Runs.phone_only_sender)) (snd p)
                  /\ message r = snd (extract_user (fst p))
                  /\ fst (extract_user (fst p)) <> []
                  /\ user r = fix_phone (fst (extract_user (fst p)))
                  /\ (user r = []
                      <-> phone_prefix_only (fst (extract_user (fst p))))
                  /\ (finditer user_pattern (fst p) = [] ->
                      finditer alt_pattern (fst p) = [] ->
                      user r = u "group_notification"))
               df
               (filter (fun p => is_some
                                   (reading SampleRuntime.sample
                                      (map snd (extracted Runs.phone_only_sender))
                                      (snd p)))
                       (extracted Runs.phone_only_sender)).
Proof.
  eexists. eexists.
  eassert (E : preprocess SampleRuntime.sample Runs.phone_only_sender [] = _)
    by (vm_compute; reflexivity).
  split; [exact E|]. split; [reflexivity|].
  split; [vm_compute; reflexivity|].
  exact (sender_is_normalised_name _ _ _ E).
Defined.

(** A dataset returned after an error was shown: no date stands in the first
    ten lines, and the generic pattern finds what the fallback pattern does
    not. *)
Example late_dates_run :
  exists r1 r2,
    preprocess SampleRuntime.sample late_dates []
    = (Returns (Some [r1; r2]),
       [st_warning unrecognized_warning; st_error no_messages])
    /\ user r1 = u "Alice" /\ user r2 = u "Bob".
Proof. eexists. eexists. vm_compute. repeat split; reflexivity. Qed.

(* ===================================================================== *)
(** ** Strings: equality and order *)
(* ===================================================================== *)

Lemma str_eqb_eq (a b : str) : str_eqb a b = true <-> a = b.
Proof.
  revert b. induction a as [|x a IH]; intros [|y b]; simpl;
    try (split; [discriminate | discriminate]); [tauto|].
  rewrite andb_true_iff, N.eqb_eq, IH. split.
  - intros [-> ->]. reflexivity.
  - intros H. injection H as -> ->. auto.
Qed.

Lemma str_eqb_refl (a : str) : str_eqb a a = true.
Proof. apply str_eqb_eq. reflexivity. Qed.

Lemma str_eqb_neq (a b : str) : str_eqb a b = false <-> a <> b.
Proof.
  rewrite <- str_eqb_eq. destruct (str_eqb a b); split; congruence.
Qed.

Lemma str_ltb_irrefl (a : str) : str_ltb a a = false.
Proof.
  induction a as [|x a IH]; simpl; [reflexivity|].
  rewrite N.ltb_irrefl, N.eqb_refl, IH. reflexivity.
Qed.

Lemma str_ltb_trans (a b c : str) :
  str_ltb a b = true -> str_ltb b c = true -> str_ltb a c = true.
Proof.
  revert b c. induction a as [|x a IH]; intros [|y b] [|z c]; simpl;
    try discriminate; try reflexivity.
  rewrite !orb_true_iff, !andb_true_iff, !N.ltb_lt, !N.eqb_eq.
  intros [H1|[H1 H1']] [H2|[H2 H2']].
  - left. lia.
  - left. lia.
  - left. lia.
  - right. split; [lia|]. eapply IH; eassumption.
Qed.

(** Two strings neither of which is before the other are the same. *)
Lemma str_ltb_total (a b : str) :
  str_ltb a b = false -> str_ltb b a = false -> a = b.
Proof.
  revert b. induction a as [|x a IH]; intros [|y b]; simpl;
    try discriminate; [reflexivity|].
  rewrite !orb_false_iff, !andb_false_iff, !N.ltb_ge, !N.eqb_neq.
  intros [H1 H1'] [H2 H2'].
  assert (x = y) by lia. subst y. f_equal. apply IH.
  - destruct H1' as [H|H]; [congruence | exact H].
  - destruct H2' as [H|H]; [congruence | exact H].
Qed.

(* ===================================================================== *)
(** ** The participants offered for selection *)
(* ===================================================================== *)

Lemma In_unique (x : str) (l : list str) : In x (unique l) <-> In x l.
Proof.
  induction l as [|y l IH]; simpl; [tauto|].
  rewrite filter_In, IH, negb_true_iff, str_eqb_neq.
  destruct (str_eqb_eq y x) as [_ H]. 
  split.
  - intros [H1|[H1 _]]; auto.
  - intros [H1|H1]; [auto|].
    destruct (str_eqb y x) eqn:E.
    + left. apply str_eqb_eq. exact E.
    + right. split; [exact H1|]. apply str_eqb_neq. exact E.
Qed.

Lemma NoDup_filter {A : Type} (f : A -> bool) (l : list A) :
  NoDup l -> NoDup (filter f l).
Proof.
  induction 1 as [|x l Hx Hl IH]; simpl; [constructor|].
  destruct (f x); [|exact IH]. constructor; [|exact IH].
  rewrite filter_In. tauto.
Qed.

Lemma NoDup_unique (l : list str) : NoDup (unique l).
Proof.
  induction l as [|x l IH]; simpl; constructor.
  - rewrite filter_In, negb_true_iff, str_eqb_refl. intros [_ H]. discriminate.
  - apply NoDup_filter. exact IH.
Qed.

Lemma contains_In (x : str) (l : list str) : contains x l = true <-> In x l.
Proof.
  unfold contains. rewrite existsb_exists. split.
  - intros (y & Hy & E). apply str_eqb_eq in E. subst. exact Hy.
  - intros H. exists x. split; [exact H | apply str_eqb_refl].
Qed.

(** Removing a value that stands in a list without repetition leaves the
    other values, in their order. *)
Lemma list_remove_spec (x : str) (l : list str) :
  In x l -> NoDup l ->
  exists l', list_remove x l = Some l' /\ NoDup l'
             /\ forall y, In y l' <-> (In y l /\ y <> x).
Proof.
  induction l as [|z l IH]; simpl; [contradiction|].
  intros Hin Hnd. inversion Hnd as [|? ? Hz Hl]; subst.
  destruct (str_eqb z x) eqn:E.
  - apply str_eqb_eq in E. subst z. exists l. split; [reflexivity|].
    split; [exact Hl|]. intros y. split.
    + intros Hy. split; [auto|]. intros ->. contradiction.
    + intros [[->|Hy] Hne]; [congruence | exact Hy].
  - apply str_eqb_neq in E. destruct Hin as [->|Hin]; [congruence|].
    destruct (IH Hin Hl) as (l' & -> & Hnd' & Hl'). exists (z :: l').
    split; [reflexivity|]. split.
    + constructor; [|exact Hnd']. rewrite Hl'. tauto.
    + intros y. simpl. rewrite Hl'. split.
      * intros [->|[Hy Hne]]; auto.
      * intros [[->|Hy] Hne]; auto.
Qed.

Lemma In_insort (x y : str) (l : list str) :
  In y (insort x l) <-> y = x \/ In y l.
Proof.
  induction l as [|z l IH]; simpl; [intuition congruence|].
  destruct (str_ltb z x); simpl; rewrite ?IH; intuition congruence.
Qed.

Lemma In_list_sort (y : str) (l : list str) : In y (list_sort l) <-> In y l.
Proof.
  induction l as [|x l IH]; simpl; [tauto|].
  rewrite In_insort, IH. intuition congruence.
Qed.

Lemma ascending_insort (x : str) (l : list str) :
  ascending l -> ~ In x l -> ascending (insort x l).
Proof.
  induction l as [|y l IH]; simpl; [auto|].
  intros [Hy Hl] Hx. destruct (str_ltb y x) eqn:E; simpl.
  - split; [|apply IH; tauto].
    apply Forall_forall. intros z Hz. apply In_insort in Hz.
    destruct Hz as [->|Hz]; [exact E|].
    rewrite Forall_forall in Hy. auto.
  - assert (Hxy : str_ltb x y = true).
    { destruct (str_ltb x y) eqn:E'; [reflexivity|].
      exfalso. apply Hx. left. apply str_ltb_total; assumption. }
    split; [|split; assumption].
    constructor; [exact Hxy|].
    rewrite Forall_forall in *. intros z Hz.
    apply str_ltb_trans with y; auto.
Qed.

Lemma ascending_list_sort (l : list str) : NoDup l -> ascending (list_sort l).
Proof.
  induction 1 as [|x l Hx Hl IH]; simpl; [exact I|].
  apply ascending_insort; [exact IH|]. rewrite In_list_sort. exact Hx.
Qed.

Lemma ascending_NoDup (l : list str) : ascending l -> NoDup l.
Proof.
  induction l as [|x l IH]; simpl; [constructor|].
  intros [Hx Hl]. constructor; [|auto].
  intros Hin. rewrite Forall_forall in Hx. specialize (Hx x Hin).
  rewrite str_ltb_irrefl in Hx. discriminate.
Qed.

(** The list handed to the selection box. *)
Lemma user_list_run (df : dataframe) :
  exists names,
    user_list df = Some (u "Overall" :: names)
    /\ ascending names
    /\ forall x, In x names
                 <-> (In x (map user df) /\ x <> u "group_notification").
Proof.
  unfold user_list.
  pose proof (NoDup_unique (map user df)) as Hnd.
  destruct (contains (u "group_notification") (unique (map user df))) eqn:Ec.
  - apply contains_In in Ec.
    destruct (@list_remove_spec _ _ Ec Hnd) as (l' & -> & Hnd' & Hl').
    exists (list_sort l'). split; [reflexivity|].
    split; [apply ascending_list_sort; exact Hnd'|].
    intros x. rewrite In_list_sort, Hl', In_unique. tauto.
  - exists (list_sort (unique (map user df))). split; [reflexivity|].
    split; [apply ascending_list_sort; exact Hnd|].
    intros x. rewrite In_list_sort, In_unique. split; [|tauto].
    intros Hx. split; [exact Hx|]. intros ->.
    apply In_unique, contains_In in Hx. congruence.
Qed.

(** X12. The selection list of app.py is never refused and never raises:
    it starts with [Overall]; after it come the senders of the dataset other
    than [group_notification], each exactly once, in ascending order of
    their code points. *)
Theorem selection_list_is_sorted_senders (df : dataframe) :
  exists names,
    user_list df = Some (u "Overall" :: names)
    /\ ascending names
    /\ (forall x, In x names
                  <-> (In x (map user df) /\ x <> u "group_notification"))
    /\ ~ In (u "group_notification") names.
Proof.
  destruct (user_list_run df) as (names & E & Ha & Hn).
  exists names. split; [exact E|]. split; [exact Ha|]. split; [exact Hn|].
  rewrite Hn. tauto.
Qed.

(* ===================================================================== *)
(** ** The statistics of the participants add up *)
(* ===================================================================== *)

Lemma list_sum_add {A : Type} (g h : A -> nat) (l : list A) :
  list_sum (map (fun x => g x + h x) l)
  = list_sum (map g l) + list_sum (map h l).
Proof. induction l as [|x l IH]; simpl; [reflexivity | rewrite IH; lia]. Qed.

(** A sum over a list without repetition in which one value only counts. *)
Lemma list_sum_one (p : str -> bool) (a : str) (c : nat) (l : list str) :
  (forall x, p x = true <-> x = a) ->
  NoDup l ->
  list_sum (map (fun x => if p x then c else 0) l)
  = if contains a l then c else 0.
Proof.
  intros Hp. induction 1 as [|x l Hx Hl IH]; simpl; [reflexivity|].
  rewrite IH. destruct (p x) eqn:E.
  - apply Hp in E. subst x. rewrite str_eqb_refl. simpl.
    destruct (contains a l) eqn:Ec; [|lia].
    apply contains_In in Ec. contradiction.
  - destruct (str_eqb a x) eqn:E'; [|reflexivity].
    apply str_eqb_eq in E'. subst x.
    assert (p a = true) by (apply Hp; reflexivity). congruence.
Qed.

(** Every record belongs to one name of a list without repetition that
    holds its sender: the sums over the names' records add up. *)
Lemma sum_by_sender (f : row -> nat) (l : list str) (df : dataframe) :
  NoDup l -> (forall r, In r df -> In (user r) l) ->
  list_sum (map (fun x => list_sum (map f (filter (fun r => str_eqb (user r) x) df))) l)
  = list_sum (map f df).
Proof.
  intros Hnd. induction df as [|r df IH]; intros Hin.
  - simpl. clear. induction l as [|x l IHl]; simpl; auto.
  - rewrite (map_ext _ (fun x => (if str_eqb (user r) x then f r else 0)
                                 + list_sum (map f (filter (fun r => str_eqb (user r) x) df)))).
    + rewrite list_sum_add, IH by (intros r' Hr'; apply Hin; right; exact Hr').
      rewrite (@list_sum_one (fun x => str_eqb (user r) x) (user r) (f r) l);
        [| intros x; rewrite str_eqb_eq; split; congruence | exact Hnd].
      assert (Hc : contains (user r) l = true)
        by (apply contains_In, Hin; left; reflexivity).
      rewrite Hc. reflexivity.
    + intros x. cbn [filter]. destruct (str_eqb (user r) x); reflexivity.
Qed.

Lemma length_as_sum {A : Type} (l : list A) :
  length l = list_sum (map (fun _ => 1) l).
Proof. induction l as [|x l IH]; simpl; [reflexivity | rewrite IH; reflexivity]. Qed.

Lemma length_flat_map {A B : Type} (g : A -> list B) (l : list A) :
  length (flat_map g l) = list_sum (map (fun x => length (g x)) l).
Proof.
  induction l as [|x l IH]; simpl; [reflexivity|].
  rewrite length_app, IH. reflexivity.
Qed.

Lemma length_filter_sum {A : Type} (p : A -> bool) (l : list A) :
  length (filter p l) = list_sum (map (fun x => if p x then 1 else 0) l).
Proof.
  induction l as [|x l IH]; simpl; [reflexivity|].
  destruct (p x); simpl; rewrite IH; reflexivity.
Qed.

Section Statistics.
Variable find_urls : str -> list str.

(** The four counts of [fetch_stats] are sums over the selected records. *)
Lemma fetch_stats_sums (selected_user : str) (df : dataframe) :
  let s := fetch_stats find_urls selected_user df in
  let sel := select selected_user df in
  num_msgs s = list_sum (map (fun _ => 1) sel)
  /\ num_words s = list_sum (map (fun r => length (split_ws (message r))) sel)
  /\ num_of_media s
     = list_sum (map (fun r => if str_eqb (message r) media_omitted
                               then 1 else 0) sel)
  /\ links_length s
     = list_sum (map (fun r => length (find_urls (message r))) sel).
Proof.
  unfold fetch_stats. cbn [num_msgs num_words num_of_media links_length].
  split; [apply length_as_sum|]. split; [apply length_flat_map|].
  split; [apply length_filter_sum | apply length_flat_map].
Qed.

Lemma select_participant (x : str) (df : dataframe) :
  x <> u "Overall" ->
  select x df = filter (fun r => str_eqb (user r) x) df.
Proof.
  intros H. unfold select. apply str_eqb_neq in H. rewrite H. reflexivity.
Qed.

(** X13. When no sender is called [Overall], the statistics of the
    participants add up to those of the whole chat: the messages, words,
    media placeholders and links counted for each name of the selection
    list, together with those of [group_notification], are the counts
    [fetch_stats] gives for [Overall]. *)
Theorem participants_add_up (df : dataframe) (names : list str) :
  user_list df = Some (u "Overall" :: names) ->
  ~ In (u "Overall") (map user df) ->
  let total (count : stats -> nat) :=
    list_sum (map (fun x => count (fetch_stats find_urls x df))
                  (u "group_notification" :: names)) in
  let overall := fetch_stats find_urls (u "Overall") df in
  total num_msgs = num_msgs overall
  /\ total num_words = num_words overall
  /\ total num_of_media = num_of_media overall
  /\ total links_length = links_length overall
  /\ filtered_df overall = df.
Proof.
  intros E Hno total overall.
  destruct (user_list_run df) as (names' & E' & Ha & Hn).
  rewrite E in E'. injection E' as <-.
  assert (Hnd : NoDup (u "group_notification" :: names)).
  { constructor; [rewrite Hn; tauto | apply ascending_NoDup; exact Ha]. }
  assert (Hcover : forall r, In r df ->
                             In (user r) (u "group_notification" :: names)).
  { intros r Hr. simpl. rewrite Hn.
    destruct (str_eqb (user r) (u "group_notification")) eqn:Eg.
    - left. symmetry. apply str_eqb_eq. exact Eg.
    - right. split; [apply in_map; exact Hr | apply str_eqb_neq; exact Eg]. }
  assert (Hsel : forall x, In x (u "group_notification" :: names) ->
                           select x df = filter (fun r => str_eqb (user r) x) df).
  { intros x Hx. apply select_participant. intros ->.
    destruct Hx as [Hx|Hx]; [discriminate Hx|].
    apply Hn in Hx. tauto. }
  assert (Hsum : forall (count : stats -> nat) (f : row -> nat),
             (forall x, count (fetch_stats find_urls x df)
                        = list_sum (map f (select x df))) ->
             total count = count overall).
  { intros count f Hc. unfold total, overall. rewrite Hc.
    change (select (u "Overall") df) with df.
    rewrite <- (@sum_by_sender f _ _ Hnd Hcover).
    apply f_equal. apply map_ext_in. intros x Hx.
    rewrite Hc, (Hsel x Hx). reflexivity. }
  split; [|split; [|split; [|split]]].
  - apply Hsum with (f := fun _ => 1).
    intros x. apply (fetch_stats_sums x df).
  - apply Hsum with (f := fun r => length (split_ws (message r))).
    intros x. apply (fetch_stats_sums x df).
  - apply Hsum with (f := fun r => if str_eqb (message r) media_omitted
                                   then 1 else 0).
    intros x. apply (fetch_stats_sums x df).
  - apply Hsum with (f := fun r => length (find_urls (message r))).
    intros x. apply (fetch_stats_sums x df).
  - reflexivity.
Qed.

End Statistics.

Lemma participants_add_up_witness :
  user_list two_records = Some [u "Overall"; u "Alice"; u "Bob"]
  /\ ~ In (u "Overall") (map user two_records)
  /\ list_sum (map (fun x => num_words (fetch_stats no_urls x two_records))
                   [u "group_notification"; u "Alice"; u "Bob"])
     = num_words (fetch_stats no_urls (u "Overall") two_records)
  /\ num_words (fetch_stats no_urls (u "Overall") two_records) = 3.
Proof.
  assert (H1 : user_list two_records = Some [u "Overall"; u "Alice"; u "Bob"])
    by (vm_compute; reflexivity).
  assert (H2 : ~ In (u "Overall") (map user two_records))
    by (vm_compute; intros [H|[H|[]]]; discriminate H).
  split; [exact H1|]. split; [exact H2|].
  split; [|vm_compute; reflexivity].
  exact (proj1 (proj2 (@participants_add_up no_urls _ _ H1 H2))).
Defined.

(* ===================================================================== *)
(** ** Activity by day of the week *)
(* ===================================================================== *)

Lemma filter_insert_count (f : str * nat -> bool) (p : str * nat)
      (l : list (str * nat)) :
  filter f l = [] ->
  filter f (insert_count p l) = if f p then [p] else [].
Proof.
  induction l as [|q l IH]; simpl; [destruct (f p); reflexivity|].
  intros H. destruct (f q) eqn:Eq; [discriminate|].
  destruct (Nat.leb (snd q) (snd p)); simpl; rewrite ?Eq, ?H; [reflexivity|].
  apply IH. exact H.
Qed.

Lemma filter_insert_count_other (f : str * nat -> bool) (p : str * nat)
      (l : list (str * nat)) :
  f p = false -> filter f (insert_count p l) = filter f l.
Proof.
  intros Hp. induction l as [|q l IH]; simpl; [rewrite Hp; reflexivity|].
  destruct (Nat.leb (snd q) (snd p)); simpl; rewrite ?Hp, ?IH; reflexivity.
Qed.

(** The rows of sorted counts with a given key. *)
Lemma filter_counts (k : str) (g : str -> nat) (values : list str) :
  NoDup values ->
  filter (fun q => str_eqb k (fst q))
         (fold_right insert_count [] (map (fun x => (x, g x)) values))
  = if contains k values then [(k, g k)] else [].
Proof.
  induction 1 as [|x l Hx Hl IH]; [reflexivity|].
  cbn [map fold_right]. unfold contains. cbn [existsb]. fold (contains k l).
  destruct (str_eqb k x) eqn:E.
  - apply str_eqb_eq in E. subst x. rewrite filter_insert_count.
    + cbn [fst]. rewrite str_eqb_refl. reflexivity.
    + rewrite IH. destruct (contains k l) eqn:Ec; [|reflexivity].
      apply contains_In in Ec. contradiction.
  - rewrite filter_insert_count_other by exact E. exact IH.
Qed.

Lemma count_of_absent (x : str) (col : list (option str)) :
  ~ In (Some x) col -> count_of x col = 0.
Proof.
  unfold count_of. induction col as [|v col IH]; simpl; [reflexivity|].
  intros H. destruct v as [y|].
  - destruct (str_eqb x y) eqn:E.
    + apply str_eqb_eq in E. subst y. exfalso. apply H. left. reflexivity.
    + apply IH. tauto.
  - apply IH. intros Hin. apply H. right. exact Hin.
Qed.

Lemma In_values (x : str) (col : list (option str)) :
  In x (flat_map (fun v => match v with Some y => [y] | None => [] end) col)
  <-> In (Some x) col.
Proof.
  rewrite in_flat_map. split.
  - intros ([y|] & Hv & Hx); [|contradiction].
    destruct Hx as [->|[]]. exact Hv.
  - intros H. exists (Some x). split; [exact H | left; reflexivity].
Qed.

(** The merged and filled row of a day: the day with its count. *)
Lemma merge_counts (days : list str) (col : list (option str)) :
  fillna_0 (merge_left days (value_counts col))
  = map (fun d => (d, count_of d col)) days.
Proof.
  unfold fillna_0, merge_left, value_counts.
  induction days as [|d days IH]; [reflexivity|].
  cbn [flat_map]. rewrite map_app, IH. clear IH.
  rewrite (filter_counts d (fun x => count_of x col)) by apply NoDup_unique.
  destruct (contains d _) eqn:Ec; [reflexivity|]. simpl. f_equal. f_equal.
  symmetry. apply count_of_absent. intros H.
  apply In_values, In_unique, contains_In in H. congruence.
Qed.

(** Rows that stand in the order of the week stay as they are. *)
Lemma sort_by_day_week (g : str -> nat) :
  sort_by_day (map (fun d => (d, g d)) day_order)
  = map (fun d => (d, g d)) day_order.
Proof. reflexivity. Qed.

Lemma daily_activeness_run (selected_user : str) (df : dataframe) :
  daily_activeness selected_user df
  = map (fun d => (d, count_of d (map day_name (select selected_user df))))
        day_order.
Proof.
  unfold daily_activeness. rewrite merge_counts.
  apply (sort_by_day_week (fun d => count_of d (map day_name (select selected_user df)))).
Qed.

Lemma weekday_name_in_week (d : datetime) : In (weekday_name d) day_order.
Proof.
  unfold weekday_name.
  set (z := ((days_from_civil (dt_year d) (dt_month d) (dt_day d) + 3) mod 7)%Z).
  assert (Hz : (0 <= z < 7)%Z) by (apply Z.mod_pos_bound; lia).
  assert (Hn : Z.to_nat z < 7) by lia.
  destruct (Z.to_nat z) as [|[|[|[|[|[|[|n]]]]]]]; [| | | | | | | lia];
    cbn [nth day_order map In]; auto 8.
Qed.

Lemma NoDup_day_order : NoDup day_order.
Proof.
  unfold day_order. cbn [map].
  repeat (constructor; [cbn [In]; intros H;
                        repeat (destruct H as [H|H]; [discriminate H|]);
                        exact H|]).
  constructor.
Qed.

(** The counts of the values of a list without repetition that holds every
    value of the column add up to the length of the column. *)
Lemma count_of_sum (l : list str) (col : list (option str)) :
  NoDup l -> (forall v, In v col -> exists y, v = Some y /\ In y l) ->
  list_sum (map (fun d => count_of d col) l) = length col.
Proof.
  intros Hnd. induction col as [|v col IH]; intros Hin.
  - simpl. clear. induction l as [|x l IHl]; simpl; auto.
  - destruct (Hin v (or_introl eq_refl)) as (y & -> & Hy).
    rewrite (map_ext _ (fun d => (if str_eqb d y then 1 else 0) + count_of d col)).
    + rewrite list_sum_add, IH by (intros v Hv; apply Hin; right; exact Hv).
      rewrite (@list_sum_one (fun d => str_eqb d y) y 1 l);
        [| intros x; apply str_eqb_eq | exact Hnd].
      apply contains_In in Hy. rewrite Hy. reflexivity.
    + intros d. unfold count_of. cbn [filter].
      destruct (str_eqb d y); reflexivity.
Qed.

Section Week.
Variable rt : runtime.

(** X14. [daily_activeness] always returns the seven days of the week from
    Monday to Sunday, each with the number of the selected records of that
    day, zero included; on a dataset [preprocess] returned the seven counts
    add up to the number of the selected records. *)
Theorem daily_activeness_counts (selected_user : str) (df : dataframe) :
  daily_activeness selected_user df
  = map (fun d => (d, count_of d (map day_name (select selected_user df))))
        day_order
  /\ map fst (daily_activeness selected_user df) = day_order
  /\ (forall data log log',
         preprocess rt data log = (Returns (Some df), log') ->
         list_sum (map snd (daily_activeness selected_user df))
         = length (select selected_user df)).
Proof.
  rewrite daily_activeness_run. split; [reflexivity|].
  split; [rewrite map_map; cbn [fst]; apply map_id|].
  intros data log log' H. rewrite map_map. cbn [snd].
  rewrite count_of_sum; [apply length_map | apply NoDup_day_order|].
  intros v Hv. apply in_map_iff in Hv. destruct Hv as (r & <- & Hr).
  assert (Hdf : In r df).
  { unfold select in Hr. destruct (negb _); [|exact Hr].
    apply filter_In in Hr. tauto. }
  apply preprocess_returns_frame in H. destruct H as (rows & _ & -> & _).
  unfold dropna in Hdf. apply filter_In in Hdf. destruct Hdf as [Hdf Hd].
  apply in_map_iff in Hdf. destruct Hdf as (raw & <- & _).
  unfold build_row in *. destruct (extract_user (user_message raw)).
  cbn [date day_name] in *.
  destruct (raw_date raw) as [d|]; [|discriminate].
  exists (weekday_name d). split; [reflexivity | apply weekday_name_in_week].
Qed.

End Week.

Lemma daily_activeness_counts_witness :
  preprocess SampleRuntime.sample Runs.two_messages []
  = (Returns (Some two_records), [st_success uploaded])
  /\ daily_activeness (u "Alice") two_records
     = [(u "Monday", 0); (u "Tuesday", 0); (u "Wednesday", 0); (u "Thursday", 1);
        (u "Friday", 0); (u "Saturday", 0); (u "Sunday", 0)]
  /\ list_sum (map snd (daily_activeness (u "Alice") two_records))
     = length (select (u "Alice") two_records).
Proof.
  assert (E : preprocess SampleRuntime.sample Runs.two_messages []
              = (Returns (Some two_records), [st_success uploaded]))
    by (vm_compute; reflexivity).
  split; [exact E|]. split; [vm_compute; reflexivity|].
  exact (proj2 (proj2 (daily_activeness_counts SampleRuntime.sample
                         (u "Alice") two_records)) _ _ _ E).
Defined.

(* ===================================================================== *)
(** ** No date is left inside a message *)
(* ===================================================================== *)

Lemma iter_shift (L : nat -> str -> Prop) :
  (forall i j w, L i w -> L j w) ->
  forall n i j w, iter L n i w -> iter L n j w.
Proof.
  intros HL. induction n as [|n IH]; intros i j w H; simpl in *; [exact H|].
  destruct H as (w1 & w2 & -> & H1 & H2). exists w1, w2.
  split; [reflexivity|]. split; [eapply HL; exact H1 | eapply IH; exact H2].
Qed.

(** The texts of a pattern without an anchor are the same at every
    position. *)
Lemma lang_shift (r : regex) :
  anchor_free r = true -> forall i j w, lang r i w -> lang r j w.
Proof.
  induction r as [p| | |r1 IH1 r2 IH2|r1 IH1 r2 IH2|g lo hi r1 IH1|n r1 IH1];
    simpl; intros Ha i j w H; try discriminate; auto.
  - apply andb_prop in Ha. destruct Ha as [Ha1 Ha2].
    destruct H as (w1 & w2 & -> & H1 & H2). exists w1, w2.
    split; [reflexivity|]. split; [eapply IH1 | eapply IH2]; eauto.
  - apply andb_prop in Ha. destruct Ha as [Ha1 Ha2].
    destruct H as [H|H]; [left; eapply IH1 | right; eapply IH2]; eauto.
  - destruct H as (n & Hlo & Hhi & H). exists n.
    split; [exact Hlo|]. split; [exact Hhi|].
    eapply iter_shift; [|exact H]. intros i' j' w'. apply IH1. exact Ha.
  - eapply IH1; eauto.
Qed.

Lemma match_at_complete (r : regex) (i : nat) (w s' : str) :
  productive r = true -> lang r i w -> match_at r i (w ++ s') <> None.
Proof.
  intros Hp H. unfold match_at. apply exec_complete; auto.
  intros c. discriminate.
Qed.

(** [search] finds the leftmost place where a text of the pattern stands. *)
Lemma search_from_leftmost (r : regex) :
  productive r = true ->
  forall s i m,
    search_from r i s = Some m ->
    forall pre w post,
      s = pre ++ w ++ post -> lang r (i + length pre) w ->
      m_start m <= i + length pre.
Proof.
  intros Hp. induction s as [|a s IH]; intros i m H pre w post Hs Hl;
    simpl in H.
  - destruct (match_at r i []) eqn:E; [|discriminate]. inversion H; subst.
    apply match_at_inv in E. lia.
  - destruct (match_at r i (a :: s)) eqn:E.
    + inversion H; subst. apply match_at_inv in E. lia.
    + destruct pre as [|b pre].
      * exfalso. simpl in Hs, Hl. rewrite Nat.add_0_r in Hl.
        rewrite Hs in E. revert E. apply match_at_complete; assumption.
      * simpl in Hs. injection Hs as -> Hs.
        simpl. rewrite <- Nat.add_succ_comm.
        eapply IH; [exact H | exact Hs|].
        simpl in Hl. rewrite <- Nat.add_succ_comm in Hl. exact Hl.
Qed.

Lemma search_from_none (r : regex) (i : nat) (s : str) :
  productive r = true -> anchor_free r = true ->
  search_from r i s = None -> ~ occurs r s.
Proof.
  intros Hp Ha H (pre & w & post & Hs & Hl).
  assert (Hn : search_from r i s <> None).
  { apply search_from_occurs; [exact Hp|]. exists pre, w, post.
    split; [exact Hs|]. eapply lang_shift; eauto. }
  congruence.
Qed.

(** The pieces between the matches hold no text of the pattern. *)
Lemma pieces_free (r : regex) (text : str) :
  productive r = true -> anchor_free r = true -> 0 < minlen r ->
  forall f i,
    i <= length text -> length text - i < f ->
    Forall (fun piece => ~ occurs r piece)
           (split_pieces 0 text i (finditer_from f r i (skipn i text))).
Proof.
  intros Hp Ha Hr. induction f as [|f IH]; intros i Hi Hf; [lia|].
  simpl. destruct (search_from r i (skipn i text)) as [m|] eqn:E; simpl.
  - destruct (@search_from_span r text i m Hr Hi E) as (H1 & H2 & H3).
    replace (Nat.ltb (m_start m) (m_end m)) with true
      by (symmetry; apply Nat.ltb_lt; exact H2).
    rewrite skipn_skipn. replace (m_end m - i + i) with (m_end m) by lia.
    constructor; [|apply IH; lia].
    intros (pre & w & post & Hs & Hl).
    unfold slice in Hs.
    assert (Hw : minlen r <= length w) by (eapply lang_minlen; eauto).
    assert (Hlen : length pre + length w + length post <= m_start m - i).
    { rewrite <- !length_app, <- app_assoc, <- Hs, length_firstn. lia. }
    assert (Hm : m_start m <= i + length pre).
    { apply (@search_from_leftmost r Hp _ _ _ E pre w
               (post ++ skipn (m_start m - i) (skipn i text))).
      - rewrite <- (firstn_skipn (m_start m - i) (skipn i text)) at 1.
        rewrite Hs, <- !app_assoc. reflexivity.
      - eapply lang_shift; eauto. }
    lia.
  - constructor; [|constructor]. rewrite slice_to_end.
    eapply search_from_none; eauto.
Qed.

(** What [search] finds is a text of the pattern. *)
Lemma search_from_text (r : regex) (text : str) (i : nat) (m : rmatch) :
  anchor_free r = true ->
  search_from r i (skipn i text) = Some m ->
  lang r 0 (slice text (m_start m) (m_end m)).
Proof.
  intros Ha H. apply search_from_inv in H.
  destruct H as (pre & s1 & Hs & Hstart & H).
  apply match_at_lang in H. destruct H as (w & s' & -> & Hl & _ & Hend).
  assert (Hskip : skipn (m_start m) text = w ++ s').
  { rewrite Hstart, Nat.add_comm, <- skipn_skipn, Hs.
    rewrite skipn_app, skipn_all, Nat.sub_diag. reflexivity. }
  unfold slice. rewrite Hskip, Hend, Hstart.
  replace (i + length pre + length w - (i + length pre)) with (length w) by lia.
  rewrite firstn_app, firstn_all, Nat.sub_diag, app_nil_r.
  eapply lang_shift; eauto.
Qed.

Lemma finditer_texts (r : regex) (text : str) :
  anchor_free r = true -> 0 < minlen r ->
  forall f i,
    i <= length text ->
    Forall (fun m => lang r 0 (slice text (m_start m) (m_end m)))
           (finditer_from f r i (skipn i text)).
Proof.
  intros Ha Hr. induction f as [|f IH]; intros i Hi; simpl; [constructor|].
  destruct (search_from r i (skipn i text)) as [m|] eqn:E; [|constructor].
  destruct (@search_from_span r text i m Hr Hi E) as (H1 & H2 & H3).
  replace (Nat.ltb (m_start m) (m_end m)) with true
    by (symmetry; apply Nat.ltb_lt; exact H2).
  rewrite skipn_skipn. replace (m_end m - i + i) with (m_end m) by lia.
  constructor; [eapply search_from_text; eauto | apply IH; exact H3].
Qed.

(** X15. The detected pattern cuts the transcript at its dates and leaves
    none behind: every date found is a text of the pattern, and neither the
    text before the first date nor a message (the text between two dates or
    after the last one) holds a text of that pattern. *)
Theorem messages_hold_no_date (data : str) :
  Forall (fun d => lang (g_pattern (detected data)) 0 d)
         (findall (g_pattern (detected data)) data)
  /\ Forall (fun text => ~ occurs (g_pattern (detected data)) text)
            (split 0 (g_pattern (detected data)) data).
Proof.
  assert (H : productive (g_pattern (detected data)) = true
              /\ anchor_free (g_pattern (detected data)) = true
              /\ 0 < minlen (g_pattern (detected data))).
  { unfold detected.
    destruct (first_match date_patterns (sample_data data)) as [g|] eqn:E.
    - assert (Hg : In g date_patterns).
      { clear -E. induction date_patterns as [|g' l IH]; simpl in E;
          [discriminate|].
        destruct (search (g_pattern g') (sample_data data));
          [injection E as <-; left; reflexivity | right; auto]. }
      simpl in Hg.
      repeat (destruct Hg as [<-|Hg];
              [split; [reflexivity|split; [reflexivity|simpl; lia]]|]).
      contradiction.
    - split; [reflexivity|split; [reflexivity|simpl; lia]]. }
  destruct H as (Hp & Ha & Hr). split.
  - unfold findall, finditer. apply Forall_map.
    apply (@finditer_texts _ data Ha Hr (S (length data)) 0). lia.
  - unfold split, finditer. apply pieces_free; auto; lia.
Qed.

(* ===================================================================== *)
(** ** Activity by month *)
(* ===================================================================== *)

Lemma In_insert_count (p q : str * nat) (l : list (str * nat)) :
  In q (insert_count p l) <-> q = p \/ In q l.
Proof.
  induction l as [|z l IH]; simpl; [intuition congruence|].
  destruct (Nat.leb (snd z) (snd p)); simpl; rewrite ?IH; intuition congruence.
Qed.

Lemma descending_insert_count (p : str * nat) (l : list (str * nat)) :
  descending l -> descending (insert_count p l).
Proof.
  induction l as [|q l IH]; simpl; [auto|].
  intros [Hq Hl]. destruct (Nat.leb_spec (snd q) (snd p)) as [Hle|Hlt]; simpl.
  - split; [|split; assumption]. constructor; [exact Hle|].
    rewrite Forall_forall in *. intros z Hz. specialize (Hq z Hz). lia.
  - split; [|apply IH; exact Hl].
    apply Forall_forall. intros z Hz. apply In_insert_count in Hz.
    destruct Hz as [->|Hz]; [lia|]. rewrite Forall_forall in Hq. auto.
Qed.

Lemma NoDup_insert_count (p : str * nat) (l : list (str * nat)) :
  NoDup (map fst l) -> ~ In (fst p) (map fst l) ->
  NoDup (map fst (insert_count p l)).
Proof.
  induction l as [|q l IH]; simpl; intros Hnd Hp; [constructor; auto|].
  destruct (Nat.leb (snd q) (snd p)); simpl; [constructor; assumption|].
  inversion Hnd as [|? ? Hq Hl]; subst. constructor; [|apply IH; tauto].
  rewrite in_map_iff. intros (z & Hz & Hin). apply In_insert_count in Hin.
  destruct Hin as [->|Hin]; [apply Hp; left; congruence|].
  apply Hq. rewrite <- Hz. apply in_map. exact Hin.
Qed.

Lemma sum_insert_count (p : str * nat) (l : list (str * nat)) :
  list_sum (map snd (insert_count p l)) = snd p + list_sum (map snd l).
Proof.
  induction l as [|q l IH]; simpl; [reflexivity|].
  destruct (Nat.leb (snd q) (snd p)); simpl; [reflexivity|]. rewrite IH. lia.
Qed.

(** The sorted counts of values given once each. *)
Lemma sorted_counts (g : str -> nat) (values : list str) :
  NoDup values ->
  let rows := fold_right insert_count [] (map (fun x => (x, g x)) values) in
  descending rows /\ NoDup (map fst rows)
  /\ (forall q, In q rows <-> (In (fst q) values /\ snd q = g (fst q)))
  /\ list_sum (map snd rows) = list_sum (map g values).
Proof.
  induction 1 as [|x l Hx Hl IH]; cbn [map fold_right].
  - simpl. split; [exact I|]. split; [constructor|]. split; [tauto | reflexivity].
  - destruct IH as (Hd & Hnd & Hin & Hsum).
    split; [apply descending_insert_count; exact Hd|].
    split.
    { apply NoDup_insert_count; [exact Hnd|]. cbn [fst].
      rewrite in_map_iff. intros (z & Hz & Hz'). apply Hin in Hz'.
      rewrite Hz in Hz'. tauto. }
    split.
    + intros [y c]. rewrite In_insert_count, Hin. cbn [fst snd In]. split.
      * intros [E|[H1 H2]]; [injection E as -> ->; auto | auto].
      * intros [[->|H1] H2]; [left; rewrite H2; reflexivity | auto].
    + rewrite sum_insert_count, Hsum. reflexivity.
Qed.

Section Months.
Variable rt : runtime.

(** X16. [montly_activeness] (and its alias) lists each month in which a
    selected record falls exactly once, with the number of these records,
    the counts never going up along the rows; on a dataset [preprocess]
    returned the counts add up to the number of the selected records. *)
Theorem montly_activeness_counts (selected_user : str) (df : dataframe) :
  let col := map month (select selected_user df) in
  let rows := montly_activeness selected_user df in
  monthly_activeness selected_user df = rows
  /\ descending rows /\ NoDup (map fst rows)
  /\ (forall x c, In (x, c) rows <-> (In (Some x) col /\ c = count_of x col))
  /\ (forall data log log',
         preprocess rt data log = (Returns (Some df), log') ->
         list_sum (map snd rows) = length (select selected_user df)).
Proof.
  intros col rows. unfold rows, montly_activeness, value_counts. fold col.
  set (values := unique (flat_map (fun v => match v with
                                            | Some y => [y]
                                            | None => []
                                            end) col)).
  destruct (@sorted_counts (fun x => count_of x col) values
                           (NoDup_unique _)) as (Hd & Hnd & Hin & Hsum).
  split; [reflexivity|]. split; [exact Hd|]. split; [exact Hnd|]. split.
  - intros x c. rewrite Hin. cbn [fst snd]. unfold values.
    rewrite In_unique, In_values. tauto.
  - intros data log log' H. rewrite Hsum.
    rewrite count_of_sum; [unfold col; apply length_map | apply NoDup_unique|].
    intros v Hv.
    assert (Hsome : exists y, v = Some y).
    { unfold col in Hv. apply in_map_iff in Hv. destruct Hv as (r & <- & Hr).
      assert (Hdf : In r df).
      { unfold select in Hr. destruct (negb _); [|exact Hr].
        apply filter_In in Hr. tauto. }
      apply preprocess_returns_frame in H. destruct H as (rows' & _ & -> & _).
      unfold dropna in Hdf. apply filter_In in Hdf. destruct Hdf as [Hdf Hdate].
      apply in_map_iff in Hdf. destruct Hdf as (raw & <- & _).
      unfold build_row in *. destruct (extract_user (user_message raw)).
      cbn [date month] in *.
      destruct (raw_date raw) as [d|]; [simpl; eauto | discriminate]. }
    destruct Hsome as (y & ->). exists y. split; [reflexivity|].
    unfold values. apply In_unique, In_values. exact Hv.
Qed.

End Months.

Lemma montly_activeness_counts_witness :
  preprocess SampleRuntime.sample Runs.two_messages []
  = (Returns (Some two_records), [st_success uploaded])
  /\ montly_activeness (u "Overall") two_records = [(u "January", 2)]
  /\ list_sum (map snd (montly_activeness (u "Overall") two_records))
     = length (select (u "Overall") two_records).
Proof.
  assert (E : preprocess SampleRuntime.sample Runs.two_messages []
              = (Returns (Some two_records), [st_success uploaded]))
    by (vm_compute; reflexivity).
  split; [exact E|]. split; [vm_compute; reflexivity|].
  destruct (montly_activeness_counts SampleRuntime.sample (u "Overall")
              two_records) as (_ & _ & _ & _ & H).
  exact (H _ _ _ E).
Defined.
